(** * Symbolic libc summaries of ARCUS

    A shallow embedding of [tools/angr/plugins/hooks/libc.py]: the
    hand-written summaries that stand in for C library functions while a
    binary is explored symbolically.

    The summaries are methods of [angr.SimProcedure] objects.  They read and
    write the memory of one execution state, add constraints to its path and
    ask its solver questions.  Here a summary is a computation in a small
    state-and-exception monad [M] over a record [State]; attributes kept on
    the summary object itself ([LOGIN_PTR], [PASSWD_PTR], [SIG_HNDLR], ...)
    are threaded separately, because they do not live in the state.

    What belongs to the host engine is modelled as follows.
    - Bit-vectors ([claripy] values) are lists of byte cells, most
      significant byte first; a cell is a concrete byte or one byte of a
      named symbolic variable.  Every width in the file is a multiple of 8.
    - Memory is a finite map from addresses to cells; addresses wrap at the
      pointer width.  A cell that is absent from the map is unreadable and
      loading it raises.
    - [solver.eval] and [solver.max] are computed on concrete values and
      answered by an oracle on symbolic ones.
    - [strlen] and the format parser, which are summaries of the engine and
      not of this file, are parameters.
    - The heap hands out the cells at its end and grows by the requested
      size rounded up to a multiple of 16.
    - The engine runs every call on a copy of the hooked object: an
      attribute that a call assigns does not reach the next call, a
      dictionary that the class holds and a call changes in place does.
    - A memory access through a pointer that is not concrete is resolved by
      the engine's concretisation strategies; the embedding answers
      [Unmodelled] there and claims nothing.
    - Logging has no effect on the state and is left out. *)

From stdpp Require Import gmap strings list fin_maps pretty.
Local Open Scope Z_scope.

(** ** Bit-vectors *)

Inductive endness := Iend_LE | Iend_BE.

Record Arch := { bits : Z; memory_endness : endness }.

(** One byte of a value: concrete, or byte [k] (weight [256^k]) of the
    symbolic variable [name] with unique tag [uid]. *)
Inductive sbyte :=
  | Conc (b : Z)
  | Sym (name : string) (uid : nat) (k : nat).

(** The [n] low bytes of [v], most significant first ([v] is reduced modulo
    [256^n], as [claripy.BVV] does). *)
Fixpoint be_bytes (n : nat) (v : Z) : list Z :=
  match n with
  | O => []
  | S n' => be_bytes n' (v / 256) ++ [v mod 256]
  end.

Definition be_value (bs : list Z) : Z :=
  fold_left (fun acc b => acc * 256 + b) bs 0.

(** [claripy.BVV(v, w)] *)
Definition BVV (v w : Z) : list sbyte := Conc <$> be_bytes (Z.to_nat (w / 8)) v.

(** The cells of a symbolic variable of [n] bytes. *)
Definition sym_cells (name : string) (uid : nat) (n : nat) : list sbyte :=
  Sym name uid <$> rev (seq 0 n).

Definition cell_byte (c : sbyte) : option Z :=
  match c with
  | Conc b => Some b
  | Sym _ _ _ => None
  end.

(** The bytes of a value when none of them is symbolic. *)
Definition bv_bytes (v : list sbyte) : option (list Z) := mapM cell_byte v.

Definition bv_concrete (v : list sbyte) : option Z := be_value <$> bv_bytes v.

(** [solver.symbolic(v)] *)
Definition symbolic (v : list sbyte) : bool :=
  match bv_bytes v with
  | Some _ => false
  | None => true
  end.

(** [v.size()] in bits. *)
Definition bv_size (v : list sbyte) : Z := 8 * Z.of_nat (length v).

(** [v.get_bytes(index, size)] *)
Definition get_bytes (v : list sbyte) (index size : Z) : list sbyte :=
  take (Z.to_nat size) (drop (Z.to_nat index) v).

(** [v.get_byte(index)] *)
Definition get_byte (v : list sbyte) (index : Z) : list sbyte :=
  get_bytes v index 1.

(** [v.zero_extend(n)] for [n] a multiple of 8. *)
Definition zero_extend (v : list sbyte) (n : Z) : list sbyte :=
  BVV 0 n ++ v.

(** [v + z] on a concrete [v]: addition modulo the width of [v]. *)
Definition bv_add (v : list sbyte) (z : Z) : option (list sbyte) :=
  c ← bv_concrete v; Some (BVV (c + z) (bv_size v)).

(** [solver.is_true(v < z)], [solver.is_true(v == z)]: the comparison is
    unsigned, the integer is taken at the width of [v], and a comparison
    that involves a symbolic byte is not known to be true. *)
Definition is_true_lt (v : list sbyte) (z : Z) : bool :=
  match bv_concrete v with
  | Some c => bool_decide (c < z mod 2 ^ bv_size v)
  | None => false
  end.

Definition is_true_eq (v : list sbyte) (z : Z) : bool :=
  match bv_concrete v with
  | Some c => bool_decide (c = z mod 2 ^ bv_size v)
  | None => false
  end.

(** ** Constraints *)

Inductive term :=
  | TBv (v : list sbyte)
  | TAdd (a b : term)
  | TSub (a b : term).

Inductive bexpr :=
  | Eq (a b : term)
  | UGT (a b : term)
  | UGE (a b : term)
  | ULT (a b : term)
  | ULE (a b : term)
  | And (p q : bexpr)
  | Or (p q : bexpr).

(** The meaning of a constraint under an assignment of the symbolic
    variables. *)
Definition assignment := string → nat → Z.

Definition cell_val (rho : assignment) (c : sbyte) : Z :=
  match c with
  | Conc b => b
  | Sym name uid k => (rho name uid / 256 ^ Z.of_nat k) mod 256
  end.

Definition bv_val (rho : assignment) (v : list sbyte) : Z :=
  be_value (cell_val rho <$> v).

Fixpoint term_size (t : term) : Z :=
  match t with
  | TBv v => bv_size v
  | TAdd a _ => term_size a
  | TSub a _ => term_size a
  end.

Fixpoint term_val (rho : assignment) (t : term) : Z :=
  match t with
  | TBv v => bv_val rho v
  | TAdd a b => (term_val rho a + term_val rho b) mod 2 ^ term_size a
  | TSub a b => (term_val rho a - term_val rho b) mod 2 ^ term_size a
  end.

Fixpoint holds (rho : assignment) (p : bexpr) : bool :=
  match p with
  | Eq a b => bool_decide (term_val rho a = term_val rho b)
  | UGT a b => bool_decide (term_val rho a > term_val rho b)
  | UGE a b => bool_decide (term_val rho a >= term_val rho b)
  | ULT a b => bool_decide (term_val rho a < term_val rho b)
  | ULE a b => bool_decide (term_val rho a <= term_val rho b)
  | And p q => holds rho p && holds rho q
  | Or p q => holds rho p || holds rho q
  end.

(** ** Execution state and the monad of summaries *)

Record State := {
  mem : gmap Z sbyte;            (* state.memory *)
  constraints : list bexpr;      (* state.solver.constraints *)
  next_uid : nat;                (* claripy's counter for variable names *)
  heap_location : Z;             (* state.heap.heap_location *)
  posix_environ : list sbyte;    (* state.posix.environ *)
}.

Inductive exn :=
  | SimSegfaultError
  | SimMemoryLimitError
  | SimUnsatError
  | UnicodeDecodeError
  | ClaripyOperationError
  | KeyError
  | OtherError (msg : string).

(** The outcome of a summary: a value, a Python exception, a behaviour of
    the engine that the embedding does not follow, or a loop that was not
    finished within the fuel it was given. *)
Inductive res (A : Type) :=
  | Val (a : A)
  | Raise (e : exn)
  | Unmodelled
  | OutOfFuel.
Arguments Val {A} a.
Arguments Raise {A} e.
Arguments Unmodelled {A}.
Arguments OutOfFuel {A}.

(** A summary mutates the state in place, so what it did before an
    exception stays done: the state is returned next to every outcome. *)
Definition M (A : Type) : Type := State → State * res A.

Definition mret {A} (a : A) : M A := fun st => (st, Val a).

Definition mbind {A B} (m : M A) (f : A → M B) : M B :=
  fun st =>
    match m st with
    | (st', Val a) => f a st'
    | (st', Raise e) => (st', Raise e)
    | (st', Unmodelled) => (st', Unmodelled)
    | (st', OutOfFuel) => (st', OutOfFuel)
    end.

Definition raise {A} (e : exn) : M A := fun st => (st, Raise e).

Definition unmodelled {A} : M A := fun st => (st, Unmodelled).

(** [try: m except Exception: h] *)
Definition try_except {A} (m : M A) (h : exn → M A) : M A :=
  fun st =>
    match m st with
    | (st', Raise e) => h e st'
    | r => r
    end.

Definition lift_res {A} (r : res A) : M A := fun st => (st, r).

Definition get_state : M State := fun st => (st, Val st).

Notation "x <- m ;; k" := (mbind m (fun x => k))
  (at level 100, m at next level, right associativity).
Notation "m ;;; k" := (mbind m (fun _ => k))
  (at level 100, right associativity).

(** A concrete pointer, or nothing the embedding can follow. *)
Definition concretise (addr : list sbyte) : M Z :=
  match bv_concrete addr with
  | Some a => mret a
  | None => unmodelled
  end.

Definition add_constraints (c : bexpr) : M unit :=
  fun st =>
    ({| mem := mem st; constraints := constraints st ++ [c];
        next_uid := next_uid st; heap_location := heap_location st;
        posix_environ := posix_environ st |}, Val tt).

(** [solver.BVS(name, w)]: the variable gets the next unused tag. *)
Definition BVS (name : string) (w : Z) : M (list sbyte) :=
  fun st =>
    ({| mem := mem st; constraints := constraints st;
        next_uid := S (next_uid st); heap_location := heap_location st;
        posix_environ := posix_environ st |},
     Val (sym_cells name (next_uid st) (Z.to_nat (w / 8)))).

Definition set_mem (m : gmap Z sbyte) (st : State) : State :=
  {| mem := m; constraints := constraints st; next_uid := next_uid st;
     heap_location := heap_location st; posix_environ := posix_environ st |}.

(** ** The host engine *)

(** What [inline_call(strlen, s)] hands back: the summary object with its
    return expression and the largest index it searched. *)
Record strlen_proc := { ret_expr : list sbyte; max_null_index : Z }.

(** The parts of the engine a summary calls and this file does not define.
    [format_replace i] stands for [self._parse(i).replace(i + 1, self.arg)]
    of the format parser: the rendered output of the format string that is
    argument [i]. *)
Class Host := {
  arch : Arch;
  oracle_eval : State → list sbyte → res Z;
  oracle_max : State → list sbyte → res Z;
  strlen : list sbyte → M strlen_proc;
  format_replace : Z → M (list sbyte);
}.

(** A Python value that is an integer on one path and a bit-vector on
    another. *)
Inductive pyval :=
  | PInt (z : Z)
  | PBv (v : list sbyte).

(** ** Python strings *)

Definition is_cont (b : Z) : bool := bool_decide (128 ≤ b ≤ 191).

Definition between (lo hi b : Z) : bool := bool_decide (lo ≤ b ≤ hi).

(** [bytes.decode("utf8")]: the code points of a well-formed UTF-8 byte
    string, [None] where Python raises [UnicodeDecodeError]. *)
Fixpoint utf8_decode (bs : list Z) : option (list Z) :=
  match bs with
  | [] => Some []
  | b0 :: r0 =>
    if between 0 127 b0 then cons b0 <$> utf8_decode r0
    else if between 194 223 b0 then
      match r0 with
      | b1 :: r1 =>
        if is_cont b1
        then cons ((b0 - 192) * 64 + (b1 - 128)) <$> utf8_decode r1
        else None
      | _ => None
      end
    else if between 224 239 b0 then
      match r0 with
      | b1 :: b2 :: r2 =>
        if between (if bool_decide (b0 = 224) then 160 else 128)
                   (if bool_decide (b0 = 237) then 159 else 191) b1
           && is_cont b2
        then cons ((b0 - 224) * 4096 + (b1 - 128) * 64 + (b2 - 128))
               <$> utf8_decode r2
        else None
      | _ => None
      end
    else if between 240 244 b0 then
      match r0 with
      | b1 :: b2 :: b3 :: r3 =>
        if between (if bool_decide (b0 = 240) then 144 else 128)
                   (if bool_decide (b0 = 244) then 143 else 191) b1
           && is_cont b2 && is_cont b3
        then cons ((b0 - 240) * 262144 + (b1 - 128) * 4096
                   + (b2 - 128) * 64 + (b3 - 128))
               <$> utf8_decode r3
        else None
      | _ => None
      end
    else None
  end.

(** [s.split("=")[0]] *)
Fixpoint split_eq_0 (s : list Z) : list Z :=
  match s with
  | [] => []
  | c :: r => if bool_decide (c = 61) then [] else c :: split_eq_0 r
  end.

(** ** Memory, solver and heap *)

Section Summaries.
Context `{Host}.

(** [arch.bytes] *)
Definition arch_bytes : Z := bits arch / 8.

(** Addresses are bit-vectors of the pointer width. *)
Definition wrap (a : Z) : Z := a mod 2 ^ bits arch.

Fixpoint read_cells (m : gmap Z sbyte) (a : Z) (n : nat)
  : option (list sbyte) :=
  match n with
  | O => Some []
  | S n' =>
    match m !! wrap a, read_cells m (a + 1) n' with
    | Some c, Some cs => Some (c :: cs)
    | _, _ => None
    end
  end.

Fixpoint write_cells (m : gmap Z sbyte) (a : Z) (cs : list sbyte)
  : gmap Z sbyte :=
  match cs with
  | [] => m
  | c :: cs' => write_cells (<[wrap a := c]> m) (a + 1) cs'
  end.

(** The order in which the bytes of a value lie in memory. *)
Definition byte_order (e : endness) (v : list sbyte) : list sbyte :=
  match e with
  | Iend_BE => v
  | Iend_LE => rev v
  end.

(** [state.memory.load(a, size, endness=e)] at a concrete address. *)
Definition load_at (a size : Z) (e : endness) : M (list sbyte) :=
  fun st =>
    match read_cells (mem st) a (Z.to_nat size) with
    | Some cs => (st, Val (byte_order e cs))
    | None => (st, Raise SimSegfaultError)
    end.

(** [state.memory.store(a, v, endness=e)] at a concrete address. *)
Definition store_at (a : Z) (v : list sbyte) (e : endness) : M unit :=
  fun st => (set_mem (write_cells (mem st) a (byte_order e v)) st, Val tt).

Definition load (addr : list sbyte) (size : Z) (e : endness)
  : M (list sbyte) :=
  a <- concretise addr ;; load_at a size e.

Definition store (addr v : list sbyte) (e : endness) : M unit :=
  a <- concretise addr ;; store_at a v e.

(** [state.solver.eval(v)] *)
Definition solver_eval (v : list sbyte) : M Z :=
  fun st =>
    match bv_concrete v with
    | Some c => (st, Val c)
    | None => (st, oracle_eval st v)
    end.

(** [state.solver.max(v)] *)
Definition solver_max (v : list sbyte) : M Z :=
  fun st =>
    match bv_concrete v with
    | Some c => (st, Val c)
    | None => (st, oracle_max st v)
    end.

(** [state.memory.load(a, size)] with a bit-vector size: the engine loads
    the largest size the solver allows. *)
Definition load_sized (a : list sbyte) (size : list sbyte)
  : M (list sbyte) :=
  n <- solver_max size ;; load a n Iend_BE.

(** [v + z] where the sum is needed as a value. *)
Definition add (v : list sbyte) (z : Z) : M (list sbyte) :=
  match bv_add v z with
  | Some r => mret r
  | None => unmodelled
  end.

(** The size the engine's heap takes for a request: the next multiple of
    16 ([while size % 16 != 0: size += 1]). *)
Definition heap_round (size : Z) : Z := size + (- size) mod 16.

(** [inline_call(malloc, size).ret_expr]: the engine's heap hands out the
    cells at its end and grows by the rounded size. *)
Definition malloc (size : Z) : M (list sbyte) :=
  fun st =>
    ({| mem := mem st; constraints := constraints st;
        next_uid := next_uid st;
        heap_location := heap_location st + heap_round size;
        posix_environ := posix_environ st |},
     Val (BVV (heap_location st) (bits arch))).

(** Python's truth test of a [claripy] expression: [Base.__bool__] raises,
    whether or not the expression is concrete. *)
Definition ast_bool (p : bexpr) : M bool := raise ClaripyOperationError.

(** A [claripy] operation on operands of different sizes raises. *)
Definition same_size (a b : list sbyte) : M unit :=
  if bool_decide (bv_size a = bv_size b) then mret tt
  else raise ClaripyOperationError.

(** ** Global constants *)

Definition WCHAR_BYTES : Z := 4.

(** ** strrchr *)

Definition libc_strrchr (s_addr c_int : list sbyte) : M (list sbyte) :=
  s_strlen <- strlen s_addr ;;
  ret <- BVS "strrchr" 64 ;;
  (if symbolic (ret_expr s_strlen) then
     same_size ret s_addr ;;;
     add_constraints
       (Or (And (UGE (TBv ret) (TBv s_addr))
                (ULT (TBv ret)
                     (TAdd (TBv s_addr)
                           (TBv (BVV (max_null_index s_strlen)
                                     (bv_size s_addr))))))
           (Eq (TBv ret) (TBv (BVV 0 (bv_size ret)))))
   else
     n <- solver_eval (ret_expr s_strlen) ;;
     let max_search := n + 1 in
     same_size ret s_addr ;;;
     add_constraints
       (Or (And (UGE (TBv ret) (TBv s_addr))
                (ULT (TBv ret)
                     (TAdd (TBv s_addr)
                           (TBv (BVV max_search (bv_size s_addr))))))
           (Eq (TBv ret) (TBv (BVV 0 (bv_size ret)))))) ;;;
  mret ret.

(** ** getenv *)

Inductive walk_step :=
  | WBreak
  | WReturn (v : pyval)
  | WNext (disj : bexpr).

(** The body of the [try] block of one round of the walk.  [name_str] is
    [None] when the name is symbolic ([name_sym]) and its decoded text
    otherwise; [disj] is the local variable [ret_expr], the disjunction
    built so far. *)
Definition getenv_entry (name_str : option (list Z)) (ret_val : list sbyte)
    (envpp : Z) (disj : bexpr) : M walk_step :=
  p <- load_at envpp arch_bytes (memory_endness arch) ;;
  envp <- solver_eval p ;;
  if bool_decide (envp = 0) then mret WBreak else
  envp_strlen <- strlen (BVV envp (bits arch)) ;;
  envp_str <- load_sized (BVV envp (bits arch)) (ret_expr envp_strlen) ;;
  match name_str, bv_bytes envp_str with
  | Some name_str, Some raw =>
    match utf8_decode raw with
    | None => raise UnicodeDecodeError
    | Some envp_str =>
      let key := split_eq_0 envp_str in
      if bool_decide (key = name_str)
      then mret (WReturn (PInt (envp + Z.of_nat (length key) + 1)))
      else mret (WNext disj)
    end
  | _, _ =>
    same_size ret_val (ret_expr envp_strlen) ;;;
    mret (WNext
      (Or disj
          (And (UGT (TBv ret_val) (TBv (BVV envp (bv_size ret_val))))
               (ULT (TBv ret_val)
                    (TAdd (TBv (BVV envp (bv_size (ret_expr envp_strlen))))
                          (TBv (ret_expr envp_strlen)))))))
  end.

(** What follows the loop. *)
Definition getenv_finish (ret_val : list sbyte) (disj : bexpr)
  : M pyval :=
  add_constraints disj ;;; mret (PBv ret_val).

(** [while True: try: ... except Exception: break] *)
Fixpoint getenv_walk (fuel : nat) (name_str : option (list Z))
    (ret_val : list sbyte) (envpp : Z) (disj : bexpr) : M pyval :=
  match fuel with
  | O => lift_res OutOfFuel
  | S fuel' =>
    r <- try_except (getenv_entry name_str ret_val envpp disj)
                    (fun _ => mret WBreak) ;;
    match r with
    | WBreak => getenv_finish ret_val disj
    | WReturn v => mret v
    | WNext disj' =>
      getenv_walk fuel' name_str ret_val (envpp + arch_bytes) disj'
    end
  end.

(** What precedes the loop: the name as text (or [None] when it is
    symbolic), the address of the list and the symbolic result. *)
Definition getenv_setup (name : list sbyte)
  : M (option (list Z) * Z * list sbyte) :=
  name_strlen <- strlen name ;;
  name_str <- load_sized name (ret_expr name_strlen) ;;
  name_str <-
    match bv_bytes name_str with
    | None => mret None
    | Some raw =>
      match utf8_decode raw with
      | Some s => mret (Some s)
      | None => raise UnicodeDecodeError
      end
    end ;;
  st <- get_state ;;
  envpp <- solver_eval (posix_environ st) ;;
  ret_val <- BVS "getenv" (bits arch) ;;
  mret (name_str, envpp, ret_val).

Definition libc_getenv (fuel : nat) (name : list sbyte) : M pyval :=
  s <- getenv_setup name ;;
  let '(name_str, envpp, ret_val) := s in
  let disj := Eq (TBv ret_val) (TBv (BVV 0 (bv_size ret_val))) in
  getenv_walk fuel name_str ret_val envpp disj.

(** The walk after [n] entries that neither matched, nor ended the list,
    nor raised: the state, the place in the list and the disjunction. *)
Fixpoint walk_prefix (n : nat) (name_str : option (list Z))
    (ret_val : list sbyte) (envpp : Z) (disj : bexpr) (st : State)
  : option (State * Z * bexpr) :=
  match n with
  | O => Some (st, envpp, disj)
  | S n' =>
    match getenv_entry name_str ret_val envpp disj st with
    | (st1, Val (WNext disj1)) =>
      walk_prefix n' name_str ret_val (envpp + arch_bytes) disj1 st1
    | _ => None
    end
  end.

(** ** Python dictionaries whose order of keys matters *)

Fixpoint dict_get {V} (k : string) (d : list (string * V)) : option V :=
  match d with
  | [] => None
  | (k', v) :: d' => if String.eqb k' k then Some v else dict_get k d'
  end.

Fixpoint dict_set {V} (k : string) (v : V) (d : list (string * V))
  : list (string * V) :=
  match d with
  | [] => [(k, v)]
  | (k', v') :: d' =>
    if String.eqb k' k then (k, v) :: d' else (k', v') :: dict_set k v d'
  end.

(** ** getlogin, setlocale, bindtextdomain, textdomain

    The attribute of the summary object ([None] until the first call) is an
    argument and is returned next to the value of the call. *)

Definition libc_getlogin (LOGIN_PTR : option (list sbyte))
  : M (option (list sbyte) * list sbyte) :=
  match LOGIN_PTR with
  | None =>
    LOGIN_PTR <- malloc 256 ;;
    a <- add LOGIN_PTR 255 ;;
    store a [Conc 0] Iend_BE ;;;
    mret (Some LOGIN_PTR, LOGIN_PTR)
  | Some p => mret (Some p, p)
  end.

Definition libc_setlocale (self_locale : option (list sbyte))
    (category locale : list sbyte)
  : M (option (list sbyte) * list sbyte) :=
  match self_locale with
  | None =>
    self_locale <- malloc 256 ;;
    a <- add self_locale 255 ;;
    store a [Conc 0] Iend_BE ;;;
    mret (Some self_locale, self_locale)
  | Some p => mret (Some p, p)
  end.

Definition libc_bindtextdomain (self_domainname : option (list sbyte))
    (domainname dirname : list sbyte)
  : M (option (list sbyte) * list sbyte) :=
  match self_domainname with
  | None =>
    self_domainname <- malloc 256 ;;
    a <- add self_domainname 255 ;;
    store a [Conc 0] Iend_BE ;;;
    mret (Some self_domainname, self_domainname)
  | Some p => mret (Some p, p)
  end.

Definition libc_textdomain (self_domainname : option (list sbyte))
    (domainname : list sbyte)
  : M (option (list sbyte) * list sbyte) :=
  match self_domainname with
  | None =>
    self_domainname <- malloc 256 ;;
    a <- add self_domainname 255 ;;
    store a [Conc 0] Iend_BE ;;;
    mret (Some self_domainname, self_domainname)
  | Some p => mret (Some p, p)
  end.

(** ** getpwnam *)

Record getpwnam_self := {
  PASSWD_PTR : option (list sbyte);
  CHAR_PTRS : list (string * option (list sbyte));
}.

(** The attributes as the class body sets them. *)
Definition getpwnam_class : getpwnam_self :=
  {| PASSWD_PTR := None;
     CHAR_PTRS := [("pw_name", None); ("pw_paswd", None); ("pw_gecos", None);
                   ("pw_dir", None); ("pw_shell", None)]%string |}.

(** [for ptr in self.CHAR_PTRS: ...] *)
Fixpoint getpwnam_strings (keys : list string)
    (char_ptrs : list (string * option (list sbyte)))
  : M (list (string * option (list sbyte))) :=
  match keys with
  | [] => mret char_ptrs
  | ptr :: keys' =>
    p <- malloc 4096 ;;
    let char_ptrs := dict_set ptr (Some p) char_ptrs in
    a <- add p 4095 ;;
    store a [Conc 0] Iend_BE ;;;
    getpwnam_strings keys' char_ptrs
  end.

(** [state.memory.store(a, v, size=n, endness=e)] *)
Definition store_sized (a v : list sbyte) (n : Z) (e : endness) : M unit :=
  store a (get_bytes v 0 n) e.

(** [for pw_str in [...]: store(ptr, self.CHAR_PTRS[pw_str], ...)];
    the value is the pointer after the loop. *)
Fixpoint getpwnam_str_fields (names : list string)
    (char_ptrs : list (string * option (list sbyte))) (ptr : list sbyte)
  : M (list sbyte) :=
  match names with
  | [] => mret ptr
  | pw_str :: names' =>
    match dict_get pw_str char_ptrs with
    | None => raise KeyError
    | Some None => raise (OtherError "store of None")
    | Some (Some v) =>
      store_sized ptr v arch_bytes (memory_endness arch) ;;;
      ptr <- add ptr arch_bytes ;;
      getpwnam_str_fields names' char_ptrs ptr
    end
  end.

(** [for pw_sym in [...]: store(ptr, BVS(pw_sym, 32)); ptr += 4] *)
Fixpoint getpwnam_sym_fields (names : list string) (ptr : list sbyte)
  : M (list sbyte) :=
  match names with
  | [] => mret ptr
  | pw_sym :: names' =>
    v <- BVS pw_sym 32 ;;
    store ptr v Iend_BE ;;;
    ptr <- add ptr 4 ;;
    getpwnam_sym_fields names' ptr
  end.

Definition libc_getpwnam (self : getpwnam_self) (name : list sbyte)
  : M (getpwnam_self * list sbyte) :=
  match PASSWD_PTR self with
  | None =>
    char_ptrs <- getpwnam_strings (fst <$> CHAR_PTRS self) (CHAR_PTRS self) ;;
    let ptr_size := arch_bytes in
    let passwd_size := ptr_size * Z.of_nat (length char_ptrs) + 8 in
    passwd_ptr <- malloc passwd_size ;;
    let ptr := passwd_ptr in
    ptr <- getpwnam_str_fields ["pw_name"; "pw_paswd"]%string char_ptrs ptr ;;
    ptr <- getpwnam_sym_fields ["pw_uid"; "pw_gid"]%string ptr ;;
    ptr <- getpwnam_str_fields ["pw_gecos"; "pw_dir"; "pw_shell"]%string
             char_ptrs ptr ;;
    mret ({| PASSWD_PTR := Some passwd_ptr; CHAR_PTRS := char_ptrs |},
          passwd_ptr)
  | Some p => mret (self, p)
  end.

(** ** Calls as the engine makes them

    [SimProcedure.execute] runs [run] on a shallow copy of the hooked
    object.  An attribute that [run] assigns is set on the copy and is gone
    with it, so every call finds the attribute as the class body set it,
    [None].  The dictionary [CHAR_PTRS] is one object in the class and in
    every copy: what [run] stores in it is there at the next call. *)

Definition execute_getlogin : M (list sbyte) :=
  r <- libc_getlogin None ;; mret r.2.

Definition execute_setlocale (category locale : list sbyte)
  : M (list sbyte) :=
  r <- libc_setlocale None category locale ;; mret r.2.

Definition execute_bindtextdomain (domainname dirname : list sbyte)
  : M (list sbyte) :=
  r <- libc_bindtextdomain None domainname dirname ;; mret r.2.

Definition execute_textdomain (domainname : list sbyte) : M (list sbyte) :=
  r <- libc_textdomain None domainname ;; mret r.2.

(** The dictionary is handed from call to call. *)
Definition execute_getpwnam (char_ptrs : list (string * option (list sbyte)))
    (name : list sbyte)
  : M (list (string * option (list sbyte)) * list sbyte) :=
  r <- libc_getpwnam {| PASSWD_PTR := None; CHAR_PTRS := char_ptrs |} name ;;
  mret (CHAR_PTRS r.1, r.2).

(** ** mbsrtowcs *)

Definition mbsrtowcs_max_dest_size : Z := 1024.

(** One round of the loop; the Boolean tells whether the round ends in
    [break]. *)
Definition mbsrtowcs_round (offset : Z) (dest src_base : list sbyte)
    (ret_val : Z) : M (Z * bool) :=
  a <- add src_base offset ;;
  next_byte <- load a 1 Iend_BE ;;
  ret_val <-
    (if is_true_lt next_byte 128 then
       (* most wide encodings are backwards compatible with ASCII *)
       let ret_val := ret_val + 1 in
       (if negb (is_true_eq dest 0) then
          let wc := zero_extend next_byte (WCHAR_BYTES * 8 - 8) in
          d <- add dest (offset * WCHAR_BYTES) ;;
          store d wc (memory_endness arch)
        else mret tt) ;;;
       mret ret_val
     else
       let ret_val := ret_val + 1 in
       wc <- BVS ("mbsrtowcs_" +:+ pretty offset) (WCHAR_BYTES * 8) ;;
       d <- add dest (offset * WCHAR_BYTES) ;;
       store d wc Iend_BE ;;;
       mret ret_val) ;;
  mret (ret_val, is_true_eq next_byte 0).

(** [for offset in range(len_val): ...], with [n] rounds left. *)
Fixpoint mbsrtowcs_loop (n : nat) (offset : Z) (dest src_base : list sbyte)
    (ret_val : Z) : M Z :=
  match n with
  | O => mret ret_val
  | S n' =>
    r <- mbsrtowcs_round offset dest src_base ret_val ;;
    if r.2 then mret r.1
    else mbsrtowcs_loop n' (offset + 1) dest src_base r.1
  end.

Definition libc_mbsrtowcs (dest src len ps : list sbyte) : M Z :=
  let ret_val := 0 in
  src_base <- load src arch_bytes (memory_endness arch) ;;
  m <- solver_max len ;;
  let len_val := Z.min mbsrtowcs_max_dest_size m in
  ret_val <- mbsrtowcs_loop (Z.to_nat len_val) 0 dest src_base ret_val ;;
  src_val <- add src_base ret_val ;;
  store src src_val (memory_endness arch) ;;;
  mret ret_val.

(** ** wcsrtombs *)

Definition wcsrtombs_max_dest_size : Z := 1024.

Definition wcsrtombs_round (offset : Z) (dest src_base : list sbyte)
    (ret_val : Z) : M (Z * bool) :=
  a <- add src_base (offset * WCHAR_BYTES) ;;
  next_wc <- load a WCHAR_BYTES (memory_endness arch) ;;
  ret_val <-
    (if is_true_lt next_wc 128 then
       (* most wide encodings are backwards compatible with ASCII *)
       let ret_val := ret_val + 1 in
       (if negb (is_true_eq dest 0) then
          let mbs := get_byte next_wc (WCHAR_BYTES - 1) in
          d <- add dest offset ;;
          store d mbs Iend_BE
        else mret tt) ;;;
       mret ret_val
     else
       let ret_val := ret_val + 1 in
       mbs <- BVS ("wcsrtombs_" +:+ pretty offset) 8 ;;
       d <- add dest offset ;;
       store d mbs Iend_BE ;;;
       mret ret_val) ;;
  mret (ret_val, is_true_eq next_wc 0).

Fixpoint wcsrtombs_loop (n : nat) (offset : Z) (dest src_base : list sbyte)
    (ret_val : Z) : M Z :=
  match n with
  | O => mret ret_val
  | S n' =>
    r <- wcsrtombs_round offset dest src_base ret_val ;;
    if r.2 then mret r.1
    else wcsrtombs_loop n' (offset + 1) dest src_base r.1
  end.

Definition libc_wcsrtombs (dest src len ps : list sbyte) : M Z :=
  let ret_val := 0 in
  src_base <- load src arch_bytes (memory_endness arch) ;;
  m <- solver_max len ;;
  let len_val := Z.min wcsrtombs_max_dest_size m in
  ret_val <- wcsrtombs_loop (Z.to_nat len_val) 0 dest src_base ret_val ;;
  src_val <- add src_base (ret_val * WCHAR_BYTES) ;;
  store src src_val (memory_endness arch) ;;;
  mret ret_val.

(** ** snprintf *)

Definition libc_snprintf (dst_ptr size : list sbyte) : M (list sbyte) :=
  n <- solver_eval size ;;
  if bool_decide (n = 0) then mret size else
  (* the format string is argument 2 *)
  out_str <- format_replace 2 ;;
  (* enforce the size limit *)
  size <- solver_max size ;;
  let out_str :=
    if bool_decide (bv_size out_str / 8 > size - 1)
    then get_bytes out_str 0 (size - 1)
    else out_str in
  store dst_ptr out_str Iend_BE ;;;
  a <- add dst_ptr (bv_size out_str / 8) ;;
  store a (BVV 0 8) Iend_BE ;;;
  mret (BVV (bv_size out_str / 8) (bits arch)).

(** ** __snprintf_chk

    [slen] is an argument of the call, a bit-vector: [slen - 1] is an
    expression, [n > slen - 1] is a Boolean expression, and [if] asks Python
    for its truth value.  [max(slen - 1, 1)] compares in the same way.  The
    integer [size], which [solver.max] computes from [slen], is not used. *)
Definition libc__snprintf_chk (s maxlen flag slen fmt : list sbyte)
  : M (list sbyte) :=
  (* the format string is argument 4 *)
  out_str <- format_replace 4 ;;
  size <- solver_max slen ;;
  let slen_1 := TSub (TBv slen) (TBv (BVV 1 (bv_size slen))) in
  over <- ast_bool
            (ULT slen_1 (TBv (BVV (bv_size out_str / 8) (bv_size slen)))) ;;
  out_str <-
    (if over : bool then
       (* max(slen - 1, 1) *)
       one <- ast_bool (ULT slen_1 (TBv (BVV 1 (bv_size slen)))) ;;
       if one : bool then mret (get_bytes out_str 0 1)
       else unmodelled
     else mret out_str) ;;
  store s out_str Iend_BE ;;;
  a <- add s (bv_size out_str / 8) ;;
  store a (BVV 0 8) Iend_BE ;;;
  mret (BVV (bv_size out_str / 8) (bits arch)).

(** ** signal

    [SIG_HNDLR] is a dictionary in the class body, shared by every call. *)
Definition libc_signal (SIG_HNDLR : gmap Z (list sbyte))
    (signum handler : list sbyte)
  : M (gmap Z (list sbyte) * list sbyte) :=
  signum_int <- solver_eval signum ;;
  let SIG_HNDLR :=
    match SIG_HNDLR !! signum_int with
    | None => <[signum_int := BVV (-1) (bits arch)]> SIG_HNDLR
    | Some _ => SIG_HNDLR
    end in
  match SIG_HNDLR !! signum_int with
  | None => raise KeyError
  | Some old => mret (<[signum_int := handler]> SIG_HNDLR, old)
  end.

End Summaries.

(** The pointer width is a whole number of bytes, two at least. *)
Definition arch_ok `{Host} : Prop := 16 ≤ bits arch ∧ bits arch mod 8 = 0.

(** Two ranges of addresses, [n] cells from [a] and [k] cells from [b],
    that share no cell: going up from either start, the other start is not
    met within the range. *)
Definition separate `{Host} (a n b k : Z) : Prop :=
  n ≤ (b - a) mod 2 ^ bits arch ∧ k ≤ (a - b) mod 2 ^ bits arch.

(** ** A host for the examples

    A 64-bit little-endian machine.  Its [strlen] counts the concrete bytes
    before the first zero byte, gives up after 1024 of them, and answers a
    fresh symbolic length when it meets a symbolic byte; its solver answers
    8 for the maximum and 0 for a solution of a symbolic value; its format
    parser renders [out]. *)

Definition example_arch : Arch := {| bits := 64; memory_endness := Iend_LE |}.

Fixpoint example_scan (m : gmap Z sbyte) (a : Z) (fuel : nat) (i : Z)
  : res (option Z) :=
  match fuel with
  | O => Raise SimMemoryLimitError
  | S fuel' =>
    match m !! ((a + i) mod 2 ^ 64) with
    | None => Raise SimSegfaultError
    | Some (Conc b) =>
      if bool_decide (b = 0) then Val (Some i)
      else example_scan m a fuel' (i + 1)
    | Some (Sym _ _ _) => Val None
    end
  end.

Definition example_strlen (s : list sbyte) : M strlen_proc :=
  fun st =>
    match bv_concrete s with
    | None => (st, Unmodelled)
    | Some a =>
      match example_scan (mem st) a 1024 0 with
      | Val (Some n) => (st, Val {| ret_expr := BVV n 64; max_null_index := n |})
      | Val None =>
        match BVS "strlen" 64 st with
        | (st', Val r) => (st', Val {| ret_expr := r; max_null_index := 1024 |})
        | (st', _) => (st', Unmodelled)
        end
      | Raise e => (st, Raise e)
      | Unmodelled => (st, Unmodelled)
      | OutOfFuel => (st, OutOfFuel)
      end
    end.

Definition example_host (out : list sbyte) : Host :=
  {| arch := example_arch;
     oracle_eval := fun _ _ => Val 0;
     oracle_max := fun _ _ => Val 8;
     strlen := example_strlen;
     format_replace := fun _ st => (st, Val out) |}.

(** Memory that holds the bytes [bs] from address [a] on. *)
Fixpoint poke (m : gmap Z sbyte) (a : Z) (bs : list Z) : gmap Z sbyte :=
  match bs with
  | [] => m
  | b :: bs' => poke (<[a := Conc b]> m) (a + 1) bs'
  end.

(** The bytes of "hello world". *)
Definition hello_world : list sbyte :=
  Conc <$> [104; 101; 108; 108; 111; 32; 119; 111; 114; 108; 100].

Definition example_state (m : gmap Z sbyte) : State :=
  {| mem := m; constraints := []; next_uid := 0; heap_location := 4096;
     posix_environ := BVV 256 64 |}.

(** The cells [bs], and a zero byte right after them, lie in the memory of
    [st] from address [a] on. *)
Definition terminated_at `{Host} (st : State) (a : Z) (bs : list sbyte)
  : Prop :=
  (∀ (i : nat) c, bs !! i = Some c →
     mem st !! wrap (a + Z.of_nat i) = Some c) ∧
  mem st !! wrap (a + Z.of_nat (length bs)) = Some (Conc 0).

(** The wide characters [us] lie in [m] from address [a] on, four bytes
    each, in the byte order of the machine. *)
Fixpoint wide_at `{Host} (m : gmap Z sbyte) (a : Z) (us : list Z) : Prop :=
  match us with
  | [] => True
  | u :: us' =>
    read_cells m a 4 = Some (byte_order (memory_endness arch) (BVV u 32)) ∧
    wide_at m (a + 4) us'
  end.

(** Two states that differ in their memory and in the variables they have
    named, and in nothing else. *)
Definition same_but_mem (st st' : State) : Prop :=
  constraints st' = constraints st ∧ heap_location st' = heap_location st ∧
  posix_environ st' = posix_environ st.

(** A state for the converters.  Cursors (little-endian pointers) lie at
    256, 264, 272, 280 and 288; they point to the string "Hi" at 512, to a
    buffer for wide characters at 1024, to the wide string "Hi" at 768, to
    the bytes C8 00 at 640 and to the wide characters C8, 0 at 896. *)
Definition converter_state : State :=
  example_state
    (poke (poke (poke (poke (poke ∅
       256 [0; 2; 0; 0; 0; 0; 0; 0;   0; 4; 0; 0; 0; 0; 0; 0;
            0; 3; 0; 0; 0; 0; 0; 0;   128; 2; 0; 0; 0; 0; 0; 0;
            128; 3; 0; 0; 0; 0; 0; 0])
       512 [72; 105; 0])
       768 [72; 0; 0; 0; 105; 0; 0; 0; 0; 0; 0; 0])
       640 [200; 0])
       896 [200; 0; 0; 0; 0; 0; 0; 0]).

(** The disjuncts of a disjunction that was built up on the left. *)
Fixpoint disjuncts (p : bexpr) : list bexpr :=
  match p with
  | Or p q => disjuncts p ++ [q]
  | _ => [p]
  end.

(** [p] says that [ret_val] lies strictly between an address and the
    address plus some length. *)
Definition is_span (ret_val : list sbyte) (p : bexpr) : Prop :=
  ∃ envp len,
    p = And (UGT (TBv ret_val) (TBv (BVV envp (bv_size ret_val))))
            (ULT (TBv ret_val) (TAdd (TBv (BVV envp (bv_size len))) (TBv len))).

(** The list of the environment holds at [at_] a pointer [ptr] to the
    concrete string [raw], and the length probe counts it. *)
Definition entry_at `{Host} (st : State) (at_ ptr : Z) (raw : list Z)
  : Prop :=
  read_cells (mem st) at_ (Z.to_nat arch_bytes)
    = Some (byte_order (memory_endness arch) (BVV ptr (bits arch))) ∧
  0 < ptr < 2 ^ bits arch ∧
  match strlen (BVV ptr (bits arch)) st with
  | (st', Val r) =>
    st' = st ∧ bv_concrete (ret_expr r) = Some (Z.of_nat (length raw))
  | _ => False
  end ∧
  read_cells (mem st) ptr (length raw) = Some (Conc <$> raw).

(** Entries that are well-formed text and whose key is not [key]. *)
Fixpoint other_entries `{Host} (st : State) (at_ : Z)
    (entries : list (Z * list Z)) (key : list Z) : Prop :=
  match entries with
  | [] => True
  | (ptr, raw) :: entries' =>
    entry_at st at_ ptr raw ∧
    match utf8_decode raw with
    | Some text => split_eq_0 text ≠ key
    | None => False
    end ∧
    other_entries st (at_ + arch_bytes) entries' key
  end.

(** States for getenv.  The name "PATH" lies at 512 and the list at 256.
    In [getenv_state] the list is ["HOME=/root", "PATH=/bin", null], with
    the strings at 768 and 800.  In [bad_utf8_state] the first string is
    the bytes FF 3D 31 instead.  In [sym_entry_state] the first string
    begins with a symbolic byte and the second pointer, 4096, leads to
    unmapped memory. *)
Definition getenv_state : State :=
  example_state
    (poke (poke (poke (poke ∅
       256 [0; 3; 0; 0; 0; 0; 0; 0;   32; 3; 0; 0; 0; 0; 0; 0;
            0; 0; 0; 0; 0; 0; 0; 0])
       512 [80; 65; 84; 72; 0])
       768 [72; 79; 77; 69; 61; 47; 114; 111; 111; 116; 0])
       800 [80; 65; 84; 72; 61; 47; 98; 105; 110; 0]).

Definition bad_utf8_state : State :=
  example_state
    (poke (poke (poke (poke ∅
       256 [0; 3; 0; 0; 0; 0; 0; 0;   32; 3; 0; 0; 0; 0; 0; 0;
            0; 0; 0; 0; 0; 0; 0; 0])
       512 [80; 65; 84; 72; 0])
       768 [255; 61; 49; 0])
       800 [80; 65; 84; 72; 61; 47; 98; 105; 110; 0]).

Definition sym_entry_state : State :=
  example_state
    (<[768 := Sym "env" 0 0]>
       (poke (poke (poke ∅
          256 [0; 3; 0; 0; 0; 0; 0; 0;   0; 16; 0; 0; 0; 0; 0; 0;
               0; 0; 0; 0; 0; 0; 0; 0])
          512 [80; 65; 84; 72; 0])
          769 [61; 49; 0; 0; 0; 0; 0])).

(** ** More of Python's strings *)

(** [str.encode("utf8")]: [None] where Python raises [UnicodeEncodeError],
    which it does on a surrogate. *)
Definition utf8_encode_char (c : Z) : option (list Z) :=
  if bool_decide (c < 0) then None
  else if bool_decide (c < 128) then Some [c]
  else if bool_decide (c < 2048) then Some [192 + c / 64; 128 + c mod 64]
  else if bool_decide (55296 ≤ c ≤ 57343) then None
  else if bool_decide (c < 65536) then
    Some [224 + c / 4096; 128 + (c / 64) mod 64; 128 + c mod 64]
  else if bool_decide (c < 1114112) then
    Some [240 + c / 262144; 128 + (c / 4096) mod 64; 128 + (c / 64) mod 64;
          128 + c mod 64]
  else None.

Fixpoint utf8_encode (s : list Z) : option (list Z) :=
  match s with
  | [] => Some []
  | c :: r =>
    match utf8_encode_char c, utf8_encode r with
    | Some bs, Some rest => Some (bs ++ rest)
    | _, _ => None
    end
  end.

(** [s.split("/")] *)
Fixpoint split_sep (s : list Z) : list (list Z) :=
  match s with
  | [] => [[]]
  | c :: r =>
    if bool_decide (c = 47) then [] :: split_sep r
    else
      match split_sep r with
      | comp :: comps => (c :: comp) :: comps
      | [] => [[c]]
      end
  end.

(** ["/".join(comps)] *)
Fixpoint join_sep (comps : list (list Z)) : list Z :=
  match comps with
  | [] => []
  | [comp] => comp
  | comp :: comps' => comp ++ 47 :: join_sep comps'
  end.

Definition startswith_sep (s : list Z) : bool :=
  match s with
  | c :: _ => bool_decide (c = 47)
  | [] => false
  end.

Definition endswith_sep (s : list Z) : bool :=
  match last s with
  | Some c => bool_decide (c = 47)
  | None => false
  end.

(** [os.path.join(a, b)] of [posixpath] *)
Definition posix_join (a b : list Z) : list Z :=
  if startswith_sep b then b
  else if bool_decide (a = []) || endswith_sep a then a ++ b
  else a ++ 47 :: b.

(** One round of the loop of [posixpath.normpath]; [new_comps] is kept with
    its last component first. *)
Definition normpath_step (initial_slashes : Z) (new_comps : list (list Z))
    (comp : list Z) : list (list Z) :=
  if bool_decide (comp = []) || bool_decide (comp = [46]) then new_comps
  else if negb (bool_decide (comp = [46; 46]))
          || (bool_decide (initial_slashes = 0)
              && bool_decide (new_comps = []))
          || (match new_comps with
              | c :: _ => bool_decide (c = [46; 46])
              | [] => false
              end)
  then comp :: new_comps
  else
    match new_comps with
    | _ :: rest => rest
    | [] => []
    end.

(** [os.path.normpath(path)] of [posixpath] *)
Definition posix_normpath (path : list Z) : list Z :=
  if bool_decide (path = []) then [46] else
  let initial_slashes :=
    match path with
    | 47 :: 47 :: 47 :: _ => 1
    | 47 :: 47 :: _ => 2
    | 47 :: _ => 1
    | _ => 0
    end in
  let comps := split_sep path in
  let new_comps := fold_left (normpath_step initial_slashes) comps [] in
  let path :=
    replicate (Z.to_nat initial_slashes) 47 ++ join_sep (rev new_comps) in
  if bool_decide (path = []) then [46] else path.

(** The white space of [int]: that of C's [isspace] in an ASCII string. *)
Definition py_isspace (c : Z) : bool :=
  bool_decide (9 ≤ c ≤ 13) || bool_decide (c = 32).

Definition py_isdigit (c : Z) : bool := bool_decide (48 ≤ c ≤ 57).

Fixpoint skip_space (s : list Z) : list Z :=
  match s with
  | c :: r => if py_isspace c then skip_space r else s
  | [] => []
  end.

(** The digits of a numeral, single underscores between them allowed: the
    value and what follows, or [None] for two underscores in a row or one
    at the end.  [prev] tells whether the character before was an
    underscore. *)
Fixpoint scan_digits (s : list Z) (acc : Z) (prev : bool)
  : option (Z * list Z) :=
  match s with
  | c :: r =>
    if py_isdigit c then scan_digits r (acc * 10 + (c - 48)) false
    else if bool_decide (c = 95) then
      if prev then None else scan_digits r acc true
    else if prev then None else Some (acc, s)
  | [] => if prev then None else Some (acc, [])
  end.

(** [int(s, 10)] on a string of ASCII characters; where Python raises
    [ValueError] the answer is [Raise (OtherError "ValueError")].  A string
    with other characters, among which Python knows further digits and
    white space, is not followed. *)
Definition py_int (s : list Z) : res Z :=
  if negb (forallb (λ c, bool_decide (0 ≤ c < 128)) s) then Unmodelled else
  let s := skip_space s in
  let '(neg, s) :=
    match s with
    | c :: r =>
      if bool_decide (c = 43) then (false, r)
      else if bool_decide (c = 45) then (true, r)
      else (false, s)
    | [] => (false, s)
    end in
  match s with
  | c :: _ =>
    if py_isdigit c then
      match scan_digits s 0 false with
      | Some (v, rest) =>
        match skip_space rest with
        | [] => Val (if neg : bool then - v else v)
        | _ :: _ => Raise (OtherError "ValueError")
        end
      | None => Raise (OtherError "ValueError")
      end
    else Raise (OtherError "ValueError")
  | [] => Raise (OtherError "ValueError")
  end.

(** ** More of the host engine *)

(** Further parts of the engine that the summaries below call.
    [memory_find s what n d] stands for
    [state.memory.find(s, what, n, default=d)] and answers the triple that
    [find] returns; [strtol_inner s base signed] stands for
    [strtol.strtol_inner(s, state, state.memory, base, signed)[1]];
    [free] and [memcpy] are the summaries of the engine's own libc;
    [fs_cwd] is [state.fs.cwd]. *)
Class Engine := {
  free : list sbyte → M unit;
  memcpy : list sbyte → list sbyte → list sbyte → M (list sbyte);
  memory_find : list sbyte → list sbyte → Z → list sbyte →
                M (list sbyte * list bexpr * list Z);
  strtol_inner : list sbyte → Z → bool → M (list sbyte);
  oracle_min : State → list sbyte → res Z;
  fs_cwd : State → list Z;
}.

Section MoreSummaries.
Context `{Host} `{Engine}.

(** [state.solver.min(v)] *)
Definition solver_min (v : list sbyte) : M Z :=
  fun st =>
    match bv_concrete v with
    | Some c => (st, Val c)
    | None => (st, oracle_min st v)
    end.

(** [state.solver.eval(v, cast_to=bytes)] *)
Definition solver_eval_bytes (v : list sbyte) : M (list Z) :=
  match bv_bytes v with
  | Some raw => mret raw
  | None => n <- solver_eval v ;; mret (be_bytes (length v) n)
  end.

(** [a + b] and [v * z] where the result is needed as a value. *)
Definition add_bv (a b : list sbyte) : M (list sbyte) :=
  same_size a b ;;;
  match bv_concrete a, bv_concrete b with
  | Some x, Some y => mret (BVV (x + y) (bv_size a))
  | _, _ => unmodelled
  end.

Definition mul (v : list sbyte) (z : Z) : M (list sbyte) :=
  match bv_concrete v with
  | Some c => mret (BVV (c * z) (bv_size v))
  | None => unmodelled
  end.

(** ** atol *)

Definition libc_atol_handle_symbolic (s : list sbyte) : M pyval :=
  ret <- strtol_inner s 10 true ;;
  (* the message of [log.debug] is formatted before the call *)
  solver_min ret ;;;
  solver_max ret ;;;
  mret (PBv ret).

Definition libc_atol (s : list sbyte) : M pyval :=
  if symbolic s then libc_atol_handle_symbolic s else
  d <- add s 256 ;;
  f <- memory_find s [Conc 0] 256 d ;;
  match f.2 with
  | [] => raise (OtherError "IndexError")
  | strlen :: _ =>
    if bool_decide (strlen = 0) then libc_atol_handle_symbolic s else
    str <- load s strlen Iend_BE ;;
    raw <- solver_eval_bytes str ;;
    match utf8_decode raw with
    | None => raise UnicodeDecodeError
    | Some str => v <- lift_res (py_int str) ;; mret (PInt v)
    end
  end.

(** ** gai_strerror *)

Definition libc_gai_strerror (errcode : list sbyte) : M (list sbyte) :=
  err_buf <- malloc 256 ;;
  a <- add err_buf 255 ;;
  store a [Conc 0] Iend_BE ;;;
  mret err_buf.

(** ** getaddrinfo, symlink, sysconf, vfwprintf, wcsncmp *)

Definition libc_getaddrinfo (node service hints res_ : list sbyte)
  : M (list sbyte) :=
  ret <- BVS "getaddrinfo_ret" (bits arch) ;;
  mret ret.

Definition libc_symlink (target_ptr linkpath_ptr : list sbyte)
  : M (list sbyte) :=
  ret <- BVS "symlink_ret" (bits arch) ;;
  mret ret.

Definition libc_sysconf (name : list sbyte) : M (list sbyte) :=
  BVS "sysconf_ret" (bits arch).

Definition libc_vfwprintf (stream format ap : list sbyte) : M (list sbyte) :=
  ret <- BVS "vfwprintf_ret" (bits arch) ;;
  mret ret.

Definition libc_wcsncmp (s1 s2 n : list sbyte) : M (list sbyte) :=
  BVS "wcsncmp_ret" (bits arch).

(** ** getline *)

Definition getline_MAX_STRING : Z := 128.

Definition libc_getline (lineptr_ptr n_ptr stream : list sbyte)
  : M (list sbyte) :=
  (* free the buffer if one is allocated already *)
  lineptr <- load lineptr_ptr (bits arch / 8) (memory_endness arch) ;;
  (if negb (is_true_eq lineptr 0) then free lineptr else mret tt) ;;;
  (* allocate the new buffer *)
  buf <- malloc getline_MAX_STRING ;;
  (* place the null terminator *)
  a <- add buf getline_MAX_STRING ;;
  a <- add a (-1) ;;
  store a [Conc 0] Iend_BE ;;;
  (* store it as the new lineptr *)
  store_sized lineptr_ptr buf (bits arch / 8) (memory_endness arch) ;;;
  (* update n_ptr *)
  n_bv <- BVS "getline_n" 32 ;;
  add_constraints
    (ULE (TBv n_bv) (TBv (BVV getline_MAX_STRING (bv_size n_bv)))) ;;;
  store n_ptr n_bv (memory_endness arch) ;;;
  (* generate the return value *)
  ret <- BVS "getline_ret" (bits arch) ;;
  add_constraints
    (ULT (TBv ret) (TBv (BVV getline_MAX_STRING (bv_size ret)))) ;;;
  mret ret.

(** ** realpath *)

Definition realpath_MAX_PATH : Z := 4096.

(** What is stored at [buf]: the branches of [if symbolic(path_expr)]. *)
Definition realpath_store (buf path_expr : list sbyte) : M unit :=
  if symbolic path_expr then
    v <- BVS "realpath" (realpath_MAX_PATH * 8) ;;
    store buf v Iend_BE
  else
    st <- get_state ;;
    match utf8_decode (fs_cwd st) with
    | None => raise UnicodeDecodeError
    | Some cwd =>
      raw <- solver_eval_bytes path_expr ;;
      match utf8_decode raw with
      | None => raise UnicodeDecodeError
      | Some path_str =>
        let normpath :=
          take (Z.to_nat (realpath_MAX_PATH - 1))
               (posix_normpath (posix_join cwd path_str)) in
        match utf8_encode normpath with
        | None => raise (OtherError "UnicodeEncodeError")
        | Some bs => store buf (Conc <$> (bs ++ [0])) Iend_BE
        end
      end
    end.

Definition libc_realpath (path_ptr resolved_path : list sbyte)
  : M (list sbyte) :=
  resolved_path_val <- solver_eval resolved_path ;;
  buf <-
    (if bool_decide (resolved_path_val = 0) then malloc realpath_MAX_PATH
     else mret resolved_path) ;;
  p <- strlen path_ptr ;;
  let path_len := ret_expr p in
  path_expr <- load_sized path_ptr path_len ;;
  realpath_store buf path_expr ;;;
  mret buf.

(** ** towupper

    [If] on a condition that is concrete answers one of its branches, and
    [wc < 0x80] is known to be true of a concrete [wc] only. *)
Definition libc_towupper (wc : list sbyte) : M (list sbyte) :=
  if is_true_lt wc 128 then
    match bv_concrete wc with
    | Some c =>
      (* a - z *)
      if bool_decide (c >= 97 mod 2 ^ bv_size wc)
         && bool_decide (c <= 122 mod 2 ^ bv_size wc)
      then mret (BVV (c - 32) (bv_size wc))
      else mret wc
    | None => unmodelled
    end
  else BVS "towupper_ret" (bits arch).

(** ** swprintf *)

(** [for offset in range(len_val): ...], with [n] rounds left. *)
Fixpoint swprintf_loop (n : nat) (offset : Z) (wcs_ptr : list sbyte)
  : M unit :=
  match n with
  | O => mret tt
  | S n' =>
    wcs <- BVS ("swprintf_" +:+ pretty offset) (WCHAR_BYTES * 8) ;;
    a <- add wcs_ptr (offset * WCHAR_BYTES) ;;
    store a wcs Iend_BE ;;;
    swprintf_loop n' (offset + 1) wcs_ptr
  end.

Definition libc_swprintf (wcs_ptr maxlen format : list sbyte)
  : M (list sbyte) :=
  len_val <- solver_max maxlen ;;
  swprintf_loop (Z.to_nat len_val) 0 wcs_ptr ;;;
  (* insert the final null character *)
  let null_wcs := BVV 0 (WCHAR_BYTES * 8) in
  a <- add wcs_ptr ((len_val - 1) * WCHAR_BYTES) ;;
  store a null_wcs Iend_BE ;;;
  (* the number of wide characters written *)
  ret <- BVS "swprintf_ret" (bits arch) ;;
  add_constraints (ULE (TBv ret) (TBv (BVV len_val (bv_size ret)))) ;;;
  mret ret.

(** ** wcsncpy *)

(** [for offset in range(0, n_val * WCHAR_BYTES, WCHAR_BYTES): ...], with
    [n] rounds left. *)
Fixpoint wcsncpy_loop (n : nat) (offset : Z) (dest src : list sbyte)
  : M unit :=
  match n with
  | O => mret tt
  | S n' =>
    a <- add src offset ;;
    wchar <- load a WCHAR_BYTES (memory_endness arch) ;;
    d <- add dest offset ;;
    store d wchar (memory_endness arch) ;;;
    if is_true_eq wchar 0 then mret tt
    else wcsncpy_loop n' (offset + WCHAR_BYTES) dest src
  end.

Definition libc_wcsncpy (dest src n : list sbyte) : M (list sbyte) :=
  n_val <- solver_max n ;;
  wcsncpy_loop (Z.to_nat n_val) 0 dest src ;;;
  mret dest.

(** ** mempcpy, wmempcpy *)

Definition libc_mempcpy (dest src n : list sbyte) : M (list sbyte) :=
  memcpy dest src n ;;;
  add_bv dest n.

Definition libc_wmempcpy (dest src n : list sbyte) : M (list sbyte) :=
  n4 <- mul n WCHAR_BYTES ;;
  libc_mempcpy dest src n4.

End MoreSummaries.

(** The state and the buffer of realpath once the buffer is chosen: a null
    [resolved_path] takes 4096 bytes from the heap. *)
Definition realpath_buf `{Host} (b : Z) (st : State) : State * Z :=
  if bool_decide (wrap b = 0)
  then ({| mem := mem st; constraints := constraints st;
           next_uid := next_uid st;
           heap_location := heap_location st + 4096;
           posix_environ := posix_environ st |}, heap_location st)
  else (st, b).

(** A component of a path in normal form. *)
Definition proper_component (comp : list Z) : Prop :=
  comp ≠ [] ∧ comp ≠ [46] ∧ comp ≠ [46; 46] ∧ 47 ∉ comp.

Definition is_ascii (c : Z) : Prop := 0 ≤ c < 128.

(** The number that the decimal digits [ds] write. *)
Definition digits_value (ds : list Z) : Z :=
  fold_left (λ acc d, acc * 10 + (d - 48)) ds 0.

(** No sign, "+" or "-". *)
Definition is_sign (sign : list Z) : Prop :=
  sign = [] ∨ sign = [43] ∨ sign = [45].

(** ** An engine for the examples

    [find] looks for a zero byte among concrete cells, [memcpy] copies
    cells between concrete addresses, [free] does nothing (as the engine's
    default heap), and the working directory is "/home". *)

Fixpoint example_find (m : gmap Z sbyte) (a : Z) (n : nat) (i : Z)
  : option Z :=
  match n with
  | O => None
  | S n' =>
    match m !! ((a + i) mod 2 ^ 64) with
    | Some (Conc b) =>
      if bool_decide (b = 0) then Some i else example_find m a n' (i + 1)
    | _ => None
    end
  end.

Definition example_memory_find (s what : list sbyte) (max_search : Z)
    (default : list sbyte) : M (list sbyte * list bexpr * list Z) :=
  fun st =>
    match bv_concrete s with
    | None => (st, Unmodelled)
    | Some a =>
      match example_find (mem st) a (Z.to_nat max_search) 0 with
      | Some i => (st, Val (BVV (a + i) 64, [], [i]))
      | None => (st, Val (default, [], []))
      end
    end.

Definition example_memcpy (dst src n : list sbyte) : M (list sbyte) :=
  fun st =>
    match bv_concrete dst, bv_concrete src, bv_concrete n with
    | Some d, Some s, Some k =>
      match read_cells (H := example_host []) (mem st) s (Z.to_nat k) with
      | Some cells =>
        (set_mem (write_cells (H := example_host []) (mem st) d cells) st,
         Val dst)
      | None => (st, Raise SimSegfaultError)
      end
    | _, _, _ => (st, Unmodelled)
    end.

Definition example_engine : Engine :=
  {| free := fun _ => mret tt;
     memcpy := example_memcpy;
     memory_find := example_memory_find;
     strtol_inner := fun _ _ _ => BVS "strtol" 64;
     oracle_min := fun _ _ => Val 0;
     fs_cwd := fun _ => [47; 104; 111; 109; 101] |}.

(** States for the examples.  In [missing_key_state] the name "USER" lies
    at 512 and the list is that of [getenv_state]; in [eq_name_state] the
    name is "A=B" and the list is ["A=B", null]; in [bare_entry_state] the
    name is "PATH" and the list is ["PATH", null].  [getline_state] holds a
    null line pointer at 256 and a length at 264.  [text_state] holds
    "-42" at 512, "12abc" at 528 and the path "../x/./y" at 544. *)
Definition missing_key_state : State :=
  example_state
    (poke (poke (poke (poke ∅
       256 [0; 3; 0; 0; 0; 0; 0; 0;   32; 3; 0; 0; 0; 0; 0; 0;
            0; 0; 0; 0; 0; 0; 0; 0])
       512 [85; 83; 69; 82; 0])
       768 [72; 79; 77; 69; 61; 47; 114; 111; 111; 116; 0])
       800 [80; 65; 84; 72; 61; 47; 98; 105; 110; 0]).

Definition eq_name_state : State :=
  example_state
    (poke (poke (poke ∅
       256 [0; 3; 0; 0; 0; 0; 0; 0;   0; 0; 0; 0; 0; 0; 0; 0])
       512 [65; 61; 66; 0])
       768 [65; 61; 66; 0]).

Definition bare_entry_state : State :=
  example_state
    (poke (poke (poke ∅
       256 [0; 3; 0; 0; 0; 0; 0; 0;   0; 0; 0; 0; 0; 0; 0; 0])
       512 [80; 65; 84; 72; 0])
       768 [80; 65; 84; 72; 0]).

Definition getline_state : State :=
  example_state
    (poke ∅ 256 [0; 0; 0; 0; 0; 0; 0; 0;   7; 7; 7; 7; 7; 7; 7; 7]).

Definition text_state : State :=
  example_state
    (poke (poke (poke ∅
       512 [45; 52; 50; 0])
       528 [49; 50; 97; 98; 99; 0])
       544 [46; 46; 47; 120; 47; 46; 47; 121; 0]).

(** * Properties *)

(** ** The definitions on small inputs *)

Example be_bytes_515 : be_bytes 2 515 = [2; 3].
Proof. reflexivity. Qed.

Example BVV_minus_1 : BVV (-1) 16 = [Conc 255; Conc 255].
Proof. reflexivity. Qed.

Example bv_concrete_515 : bv_concrete (BVV 515 16) = Some 515.
Proof. reflexivity. Qed.

Example symbolic_sym : symbolic (sym_cells "x" 0 2) = true.
Proof. reflexivity. Qed.

Example utf8_e_acute : utf8_decode [195; 169] = Some [233].
Proof. reflexivity. Qed.

Example utf8_ff : utf8_decode [255; 61; 49] = None.
Proof. reflexivity. Qed.

Example utf8_surrogate : utf8_decode [237; 160; 128] = None.
Proof. reflexivity. Qed.

Example split_path :
  split_eq_0 [80; 65; 84; 72; 61; 47; 98; 105; 110] = [80; 65; 84; 72].
Proof. reflexivity. Qed.

Example strlen_path :
  example_strlen (BVV 800 64) getenv_state
  = (getenv_state, Val {| ret_expr := BVV 9 64; max_null_index := 9 |}).
Proof. reflexivity. Qed.

(** ** Bytes and values *)

Lemma be_value_snoc l b : be_value (l ++ [b]) = be_value l * 256 + b.
Proof. unfold be_value. by rewrite fold_left_app. Qed.

Lemma length_be_bytes n v : length (be_bytes n v) = n.
Proof.
  revert v. induction n as [|n IH]; intros v; simpl; [done|].
  rewrite length_app, IH. simpl. lia.
Qed.

Lemma be_value_be_bytes n v :
  be_value (be_bytes n v) = v mod 256 ^ Z.of_nat n.
Proof.
  revert v. induction n as [|n IH]; intros v.
  - simpl. by rewrite Z.mod_1_r.
  - cbn [be_bytes]. rewrite be_value_snoc, IH.
    rewrite Nat2Z.inj_succ, Z.pow_succ_r by lia.
    rewrite Z.rem_mul_r by lia. lia.
Qed.

Lemma bv_bytes_Conc l : bv_bytes (Conc <$> l) = Some l.
Proof. unfold bv_bytes. by apply mapM_fmap_Some. Qed.

Lemma pow_8 n : 0 ≤ n → 2 ^ (8 * n) = 256 ^ n.
Proof. intros ?. by rewrite Z.pow_mul_r by lia. Qed.

Lemma BVV_bytes v w :
  bv_bytes (BVV v w) = Some (be_bytes (Z.to_nat (w / 8)) v).
Proof. apply bv_bytes_Conc. Qed.

Lemma length_BVV v w : length (BVV v w) = Z.to_nat (w / 8).
Proof. unfold BVV. by rewrite length_fmap, length_be_bytes. Qed.

Lemma bv_size_BVV v w : 0 ≤ w → w mod 8 = 0 → bv_size (BVV v w) = w.
Proof.
  intros ? Hm. unfold bv_size. rewrite length_BVV.
  rewrite Z2Nat.id by (apply Z.div_pos; lia).
  pose proof (Z.div_mod w 8). lia.
Qed.

Lemma bv_concrete_BVV v w :
  0 ≤ w → w mod 8 = 0 → bv_concrete (BVV v w) = Some (v mod 2 ^ w).
Proof.
  intros ? Hm. unfold bv_concrete. rewrite BVV_bytes. cbn.
  rewrite be_value_be_bytes. do 2 f_equal.
  rewrite Z2Nat.id by (apply Z.div_pos; lia).
  rewrite <- pow_8 by (apply Z.div_pos; lia).
  f_equal. pose proof (Z.div_mod w 8). lia.
Qed.

(** ** Addresses *)

Section Properties.
Context `{Host}.
Hypothesis Harch : arch_ok.

Lemma bits_bytes : bits arch = 8 * arch_bytes.
Proof.
  destruct Harch as [_ Hm]. unfold arch_bytes.
  pose proof (Z.div_mod (bits arch) 8). lia.
Qed.

Lemma arch_bytes_ge : 2 ≤ arch_bytes.
Proof. destruct Harch. pose proof bits_bytes. lia. Qed.

Lemma space_large : 65536 ≤ 2 ^ bits arch.
Proof.
  destruct Harch. change 65536 with (2 ^ 16).
  apply Z.pow_le_mono_r; lia.
Qed.

Lemma wrap_small a : 0 ≤ a < 2 ^ bits arch → wrap a = a.
Proof. apply Z.mod_small. Qed.

Lemma wrap_eq_diff x y : wrap x = wrap y → ∃ c, x - y = 2 ^ bits arch * c.
Proof.
  unfold wrap. intros E. exists (x / 2 ^ bits arch - y / 2 ^ bits arch).
  pose proof space_large as HN. set (N := 2 ^ bits arch) in *.
  assert (N ≠ 0) as HN0 by lia.
  pose proof (Z.div_mod x N HN0). pose proof (Z.div_mod y N HN0). nia.
Qed.

Lemma wrap_inj a i j :
  0 ≤ i < 2 ^ bits arch → 0 ≤ j < 2 ^ bits arch →
  wrap (a + i) = wrap (a + j) → i = j.
Proof.
  intros Hi Hj [c Hc]%wrap_eq_diff.
  destruct (Z_lt_le_dec c 0); [nia|].
  destruct (Z_lt_le_dec 0 c); nia.
Qed.

Lemma separate_ne a n b k i j :
  separate a n b k → 0 ≤ i < n → 0 ≤ j < k → wrap (a + i) ≠ wrap (b + j).
Proof.
  intros [Hd He] Hi Hj [c Hc]%wrap_eq_diff.
  unfold separate in Hd, He.
  pose proof space_large as HN. set (N := 2 ^ bits arch) in *.
  assert (N ≠ 0) as HN0 by lia. assert (0 < N) as HN1 by lia.
  pose proof (Z.div_mod (b - a) N HN0) as Hq.
  pose proof (Z.mod_pos_bound (b - a) N HN1) as Hb.
  pose proof (Z.div_mod (a - b) N HN0) as Hq'.
  pose proof (Z.mod_pos_bound (a - b) N HN1) as Hb'.
  set (d := (b - a) mod N) in *. set (e := (a - b) mod N) in *.
  set (q := (b - a) / N) in *. set (q' := (a - b) / N) in *.
  assert (i - j = N * (c + q) + d) by lia.
  assert (j - i = N * (q' - c) + e) by lia.
  destruct (Z_lt_le_dec (c + q) 0); [|nia].
  destruct (Z_lt_le_dec (q' - c) 0); nia.
Qed.

(** ** Memory *)

Lemma write_cells_other m a cs x :
  (∀ i, 0 ≤ i < Z.of_nat (length cs) → wrap (a + i) ≠ x) →
  write_cells m a cs !! x = m !! x.
Proof.
  revert m a. induction cs as [|c cs IH]; intros m a Hx; simpl; [done|].
  rewrite IH.
  - apply lookup_insert_ne. specialize (Hx 0). rewrite Z.add_0_r in Hx.
    apply Hx. simpl. lia.
  - intros i Hi. replace (a + 1 + i) with (a + (1 + i)) by lia.
    apply Hx. simpl. lia.
Qed.

Lemma write_cells_at m a cs (i : nat) c :
  cs !! i = Some c → Z.of_nat (length cs) ≤ 2 ^ bits arch →
  write_cells m a cs !! wrap (a + Z.of_nat i) = Some c.
Proof.
  revert m a i. induction cs as [|c' cs IH]; intros m a i Hi Hlen; [done|].
  rewrite length_cons, Nat2Z.inj_succ in Hlen. cbn [write_cells].
  destruct i as [|i].
  - injection Hi as ->. rewrite write_cells_other.
    + change (Z.of_nat 0) with 0. rewrite Z.add_0_r. apply lookup_insert_eq.
    + intros j Hj E. change (Z.of_nat 0) with 0 in E.
      replace (a + 1 + j) with (a + (1 + j)) in E by lia.
      apply wrap_inj in E; lia.
  - rewrite Nat2Z.inj_succ.
    replace (a + Z.succ (Z.of_nat i)) with (a + 1 + Z.of_nat i) by lia.
    apply IH; [done|lia].
Qed.

Lemma read_cells_Some m a cs :
  (∀ (i : nat) c, cs !! i = Some c → m !! wrap (a + Z.of_nat i) = Some c) →
  read_cells m a (length cs) = Some cs.
Proof.
  revert a. induction cs as [|c cs IH]; intros a Hc; [done|].
  cbn [length read_cells].
  pose proof (Hc 0%nat c eq_refl) as H0.
  change (Z.of_nat 0) with 0 in H0. rewrite Z.add_0_r in H0.
  rewrite H0, IH; [done|].
  intros i c' Hi. specialize (Hc (S i) c' Hi).
  rewrite Nat2Z.inj_succ in Hc.
  by replace (a + 1 + Z.of_nat i) with (a + Z.succ (Z.of_nat i)) by lia.
Qed.

Lemma read_cells_lookup m a n cs (i : nat) c :
  read_cells m a n = Some cs → cs !! i = Some c →
  m !! wrap (a + Z.of_nat i) = Some c.
Proof.
  revert a cs i. induction n as [|n IH]; intros a cs i; cbn [read_cells].
  - by intros [= <-].
  - destruct (m !! wrap a) as [c0|] eqn:E0; [|done].
    destruct (read_cells m (a + 1) n) as [cs'|] eqn:E1; [|done].
    intros [= <-]. destruct i as [|i].
    + intros [= <-]. change (Z.of_nat 0) with 0. by rewrite Z.add_0_r.
    + intros Hi. rewrite Nat2Z.inj_succ.
      replace (a + Z.succ (Z.of_nat i)) with (a + 1 + Z.of_nat i) by lia.
      by eapply IH.
Qed.

Lemma read_cells_ext m m' a n :
  (∀ i, 0 ≤ i < Z.of_nat n → m' !! wrap (a + i) = m !! wrap (a + i)) →
  read_cells m' a n = read_cells m a n.
Proof.
  revert a. induction n as [|n IH]; intros a Hc; [done|].
  cbn [read_cells]. rewrite Nat2Z.inj_succ in Hc.
  pose proof (Hc 0 ltac:(lia)) as H0. rewrite Z.add_0_r in H0.
  rewrite H0, IH; [done|].
  intros i Hi. replace (a + 1 + i) with (a + (1 + i)) by lia. apply Hc. lia.
Qed.

Lemma read_write_same m a cs :
  Z.of_nat (length cs) ≤ 2 ^ bits arch →
  read_cells (write_cells m a cs) a (length cs) = Some cs.
Proof.
  intros Hlen. apply read_cells_Some. intros i c Hi.
  by apply write_cells_at.
Qed.

Lemma read_write_other m a cs b n :
  (∀ i j, 0 ≤ i < Z.of_nat n → 0 ≤ j < Z.of_nat (length cs) →
          wrap (b + i) ≠ wrap (a + j)) →
  read_cells (write_cells m a cs) b n = read_cells m b n.
Proof.
  intros Hd. apply read_cells_ext. intros i Hi.
  apply write_cells_other. intros j Hj E. by eapply Hd.
Qed.

End Properties.

(** Closed comparisons of integers. *)
Ltac zcheck :=
  vm_compute;
  first [ reflexivity | discriminate
        | split; first [ reflexivity | discriminate ] ].

(** ** signal *)

Section Signal.
Context `{Host}.

Lemma solver_eval_concrete v c st :
  bv_concrete v = Some c → solver_eval v st = (st, Val c).
Proof. intros E. unfold solver_eval. by rewrite E. Qed.

Lemma solver_max_concrete v c st :
  bv_concrete v = Some c → solver_max v st = (st, Val c).
Proof. intros E. unfold solver_max. by rewrite E. Qed.

(** C9.  A signal number that is not yet in the table: the call answers
    the all-ones value -1 of the pointer width and records the handler.
    Calls for other signal numbers leave the entry alone, and a later call
    for the same number answers the recorded handler. *)
Theorem signal_previous_handler
    (SIG_HNDLR : gmap Z (list sbyte)) (signum handler handler2 : list sbyte)
    (n : Z) (st : State) :
  arch_ok →
  bv_concrete signum = Some n →
  SIG_HNDLR !! n = None →
  bv_concrete (BVV (-1) (bits arch)) = Some (2 ^ bits arch - 1) ∧
  libc_signal SIG_HNDLR signum handler st
    = (st, Val (<[n := handler]> SIG_HNDLR, BVV (-1) (bits arch))) ∧
  (∀ (table : gmap Z (list sbyte)) signum' handler' m st',
     table !! n = Some handler → bv_concrete signum' = Some m → m ≠ n →
     ∃ table' old,
       libc_signal table signum' handler' st' = (st', Val (table', old)) ∧
       table' !! n = Some handler) ∧
  (∀ (table : gmap Z (list sbyte)) st',
     table !! n = Some handler →
     libc_signal table signum handler2 st'
       = (st', Val (<[n := handler2]> table, handler))).
Proof.
  intros [Hb Hm] Hn Hnone. split; [|split; [|split]].
  - rewrite bv_concrete_BVV by (done || lia). f_equal.
    assert (0 < 2 ^ bits arch) by (apply Z.pow_pos_nonneg; lia).
    rewrite <- (Z.mod_small (2 ^ bits arch - 1) (2 ^ bits arch)) by lia.
    replace (2 ^ bits arch - 1) with (-1 + 1 * 2 ^ bits arch) by lia.
    symmetry. apply Z.mod_add. lia.
  - unfold libc_signal, mbind. rewrite (solver_eval_concrete _ _ _ Hn).
    rewrite Hnone, lookup_insert_eq. unfold mret.
    by rewrite insert_insert_eq.
  - intros table signum' handler' m st' Ht Hm' Hne.
    unfold libc_signal, mbind. rewrite (solver_eval_concrete _ _ _ Hm').
    destruct (table !! m) as [old|] eqn:E.
    + rewrite E. eexists _, _. split; [done|]. by rewrite lookup_insert_ne.
    + rewrite lookup_insert_eq. eexists _, _. split; [done|].
      by rewrite !lookup_insert_ne.
  - intros table st' Ht. unfold libc_signal, mbind.
    rewrite (solver_eval_concrete _ _ _ Hn). by rewrite Ht, Ht.
Qed.

End Signal.

Lemma signal_previous_handler_witness :
  libc_signal (H := example_host []) ∅ (BVV 2 32) (BVV 4198400 64)
              (example_state ∅)
  = (example_state ∅,
     Val ({[ 2 := BVV 4198400 64 ]}, BVV 18446744073709551615 64)).
Proof.
  pose proof (signal_previous_handler (H := example_host []) ∅ (BVV 2 32)
                (BVV 4198400 64) (BVV 0 64) 2 (example_state ∅)) as W.
  destruct W as (_ & W & _).
  - split; [vm_compute; discriminate | reflexivity].
  - reflexivity.
  - reflexivity.
  - exact W.
Defined.

(** ** Running a summary on concrete pointers *)

Lemma be_bytes_cong n v v' :
  v mod 256 ^ Z.of_nat n = v' mod 256 ^ Z.of_nat n →
  be_bytes n v = be_bytes n v'.
Proof.
  revert v v'. induction n as [|n IH]; intros v v' E; [done|].
  rewrite Nat2Z.inj_succ, Z.pow_succ_r in E by lia.
  rewrite !Z.rem_mul_r in E by lia.
  pose proof (Z.mod_pos_bound v 256 ltac:(lia)).
  pose proof (Z.mod_pos_bound v' 256 ltac:(lia)).
  cbn [be_bytes]. f_equal; [apply IH|f_equal]; lia.
Qed.

Lemma length_byte_order e (v : list sbyte) :
  length (byte_order e v) = length v.
Proof. destruct e; [apply length_rev|done]. Qed.

Lemma byte_order_invol e (v : list sbyte) :
  byte_order e (byte_order e v) = v.
Proof. destruct e; [apply rev_involutive|done]. Qed.

Lemma get_bytes_all (v : list sbyte) n :
  Z.of_nat (length v) ≤ n → get_bytes v 0 n = v.
Proof. intros ?. unfold get_bytes. simpl. apply take_ge. lia. Qed.

Lemma mret_eq {A} (a : A) st : mret a st = (st, Val a).
Proof. done. Qed.

Section Steps.
Context `{Host}.
Hypothesis Harch : arch_ok.

Lemma BVV_wrap x z : BVV (wrap x + z) (bits arch) = BVV (x + z) (bits arch).
Proof.
  unfold BVV. f_equal. apply be_bytes_cong.
  destruct Harch as [? ?].
  rewrite Z2Nat.id by (apply Z.div_pos; lia).
  rewrite <- pow_8 by (apply Z.div_pos; lia).
  replace (8 * (bits arch / 8)) with (bits arch)
    by (pose proof (Z.div_mod (bits arch) 8); lia).
  unfold wrap. by rewrite Zplus_mod_idemp_l.
Qed.

Lemma concrete_ptr x : bv_concrete (BVV x (bits arch)) = Some (wrap x).
Proof. destruct Harch. by rewrite bv_concrete_BVV by (done || lia). Qed.

Lemma concretise_BVV x st :
  concretise (BVV x (bits arch)) st = (st, Val (wrap x)).
Proof. unfold concretise. by rewrite concrete_ptr. Qed.

Lemma size_ptr x : bv_size (BVV x (bits arch)) = bits arch.
Proof. destruct Harch. by rewrite bv_size_BVV by (done || lia). Qed.

Lemma length_ptr x : Z.of_nat (length (BVV x (bits arch))) = arch_bytes.
Proof.
  rewrite length_BVV. unfold arch_bytes. destruct Harch.
  apply Z2Nat.id, Z.div_pos; lia.
Qed.

Lemma add_BVV x z st :
  add (BVV x (bits arch)) z st = (st, Val (BVV (x + z) (bits arch))).
Proof.
  unfold add, bv_add. rewrite concrete_ptr. cbn. rewrite size_ptr.
  unfold mret. do 2 f_equal. apply BVV_wrap.
Qed.

Lemma wrap_wrap a : wrap (wrap a) = wrap a.
Proof. unfold wrap. apply Zmod_mod. Qed.

Lemma wrap_succ a b : wrap a = wrap b → wrap (a + 1) = wrap (b + 1).
Proof. unfold wrap. intros E. by rewrite Zplus_mod, E, <- Zplus_mod. Qed.

Lemma write_cells_cong m a b cs :
  wrap a = wrap b → write_cells m a cs = write_cells m b cs.
Proof.
  revert m a b. induction cs as [|c cs IH]; intros m a b E; [done|].
  cbn [write_cells]. rewrite E. by apply IH, wrap_succ.
Qed.

Lemma read_cells_cong m a b n :
  wrap a = wrap b → read_cells m a n = read_cells m b n.
Proof.
  revert a b. induction n as [|n IH]; intros a b E; [done|].
  cbn [read_cells]. rewrite E. by rewrite (IH _ _ (wrap_succ _ _ E)).
Qed.

Lemma store_BVV x v e st :
  store (BVV x (bits arch)) v e st
  = (set_mem (write_cells (mem st) x (byte_order e v)) st, Val tt).
Proof.
  unfold store, mbind. rewrite concretise_BVV. unfold store_at.
  by rewrite (write_cells_cong _ (wrap x) x) by apply wrap_wrap.
Qed.

Lemma load_BVV x n e st :
  load (BVV x (bits arch)) n e st = load_at x n e st.
Proof.
  unfold load, mbind. rewrite concretise_BVV. unfold load_at.
  by rewrite (read_cells_cong _ (wrap x) x) by apply wrap_wrap.
Qed.

Lemma malloc_round_eq n st :
  malloc n st
  = ({| mem := mem st; constraints := constraints st;
        next_uid := next_uid st;
        heap_location := heap_location st + heap_round n;
        posix_environ := posix_environ st |},
     Val (BVV (heap_location st) (bits arch))).
Proof. done. Qed.

Lemma heap_round_bounds n : n ≤ heap_round n < n + 16.
Proof.
  unfold heap_round. pose proof (Z.mod_pos_bound (- n) 16 ltac:(lia)). lia.
Qed.

(** A request for a multiple of 16 cells is served as it is. *)
Lemma malloc_eq n st :
  n mod 16 = 0 →
  malloc n st
  = ({| mem := mem st; constraints := constraints st;
        next_uid := next_uid st; heap_location := heap_location st + n;
        posix_environ := posix_environ st |},
     Val (BVV (heap_location st) (bits arch))).
Proof.
  intros Hn. rewrite malloc_round_eq. do 3 f_equal. unfold heap_round.
  rewrite Z.mod_opp_l_z by lia. lia.
Qed.

Lemma BVS_eq name w st :
  BVS name w st
  = ({| mem := mem st; constraints := constraints st;
        next_uid := S (next_uid st); heap_location := heap_location st;
        posix_environ := posix_environ st |},
     Val (sym_cells name (next_uid st) (Z.to_nat (w / 8)))).
Proof. done. Qed.

Lemma wrap_ne x y :
  (x < y < x + 2 ^ bits arch) ∨ (y < x < y + 2 ^ bits arch) →
  wrap x ≠ wrap y.
Proof.
  intros Hxy [c Hc]%wrap_eq_diff; [|done].
  destruct (Z_lt_le_dec c 0); [nia|].
  destruct (Z_lt_le_dec 0 c); nia.
Qed.

Lemma space_roomy : 16384 * (bits arch - 13) ≤ 2 ^ bits arch.
Proof.
  destruct Harch as [Hb _].
  replace (bits arch) with (14 + (bits arch - 14)) at 2 by lia.
  rewrite Z.pow_add_r by lia.
  pose proof (Z.pow_gt_lin_r 2 (bits arch - 14) ltac:(lia)).
  change (2 ^ 14) with 16384. lia.
Qed.

End Steps.

(** Runs the straight-line part of a summary whose pointers are concrete. *)
Ltac run_steps :=
  repeat (first [ rewrite malloc_eq by reflexivity | rewrite malloc_round_eq
                | rewrite add_BVV by assumption
                | rewrite store_BVV by assumption | rewrite BVS_eq
                | rewrite mret_eq
                | rewrite get_bytes_all by (rewrite length_ptr by assumption; lia) ];
          cbv beta iota; unfold set_mem;
          cbn [mem heap_location constraints next_uid posix_environ
               dict_get dict_set String.eqb Ascii.eqb Bool.eqb length]).

Lemma length_sym_cells name uid n : length (sym_cells name uid n) = n.
Proof. unfold sym_cells. by rewrite length_fmap, length_rev, length_seq. Qed.

Lemma load_at_cells `{Host} x n e st v :
  read_cells (mem st) x (Z.to_nat n) = Some (byte_order e v) →
  load_at x n e st = (st, Val v).
Proof. intros Hr. unfold load_at. by rewrite Hr, byte_order_invol. Qed.

Lemma lookup_hit `{Host} m a c y :
  y = a → write_cells m a [c] !! wrap y = Some c.
Proof. intros ->. cbn. apply lookup_insert_eq. Qed.

Section Layout.
Context `{Host}.
Hypothesis Harch : arch_ok.

(** Ranges that do not meet and lie within one turn of the address space;
    the side conditions are linear. *)
Lemma read_skip m a cs b n :
  (b + Z.of_nat n ≤ a ∧ a + Z.of_nat (length cs) ≤ b + 2 ^ bits arch) ∨
  (a + Z.of_nat (length cs) ≤ b ∧ b + Z.of_nat n ≤ a + 2 ^ bits arch) →
  read_cells (write_cells m a cs) b n = read_cells m b n.
Proof.
  intros Hd. apply read_write_other. intros i j Hi Hj.
  apply wrap_ne; [done|]. lia.
Qed.

Lemma read_hit m a cs b n :
  b = a → n = length cs → Z.of_nat (length cs) ≤ 2 ^ bits arch →
  read_cells (write_cells m a cs) b n = Some cs.
Proof. intros -> -> ?. by apply read_write_same. Qed.

Lemma lookup_skip m a cs y :
  (y < a ∧ a + Z.of_nat (length cs) ≤ y + 2 ^ bits arch) ∨
  (a + Z.of_nat (length cs) ≤ y ∧ y < a + 2 ^ bits arch) →
  write_cells m a cs !! wrap y = m !! wrap y.
Proof.
  intros Hd. apply write_cells_other. intros i Hi.
  apply wrap_ne; [done|]. lia.
Qed.

End Layout.

Ltac cell_sizes Harch :=
  rewrite ?length_byte_order, ?length_sym_cells, ?Z2Nat.id,
          ?(length_ptr Harch) by lia; cbn [length]; try lia.
Ltac read_skip Harch := rewrite (read_skip Harch) by (cell_sizes Harch).
Ltac lookup_skip Harch := rewrite (lookup_skip Harch) by (cell_sizes Harch).

(** ** Lazy singletons *)

Section Singletons.
Context `{Host}.
Hypothesis Harch : arch_ok.

(** A call that finds no pointer on its object: the buffer is taken from
    the end of the heap and ends in a zero byte. *)
Lemma singleton_first_call (st : State)
    (category locale domainname dirname : list sbyte) :
  let h := heap_location st in
  let p := BVV h (bits arch) in
  let st1 :=
    {| mem := <[wrap (h + 255) := Conc 0]> (mem st);
       constraints := constraints st; next_uid := next_uid st;
       heap_location := h + 256; posix_environ := posix_environ st |} in
  libc_getlogin None st = (st1, Val (Some p, p)) ∧
  libc_setlocale None category locale st = (st1, Val (Some p, p)) ∧
  libc_bindtextdomain None domainname dirname st = (st1, Val (Some p, p)) ∧
  libc_textdomain None domainname st = (st1, Val (Some p, p)).
Proof.
  intros h p st1.
  split_and!;
    by (unfold libc_getlogin, libc_setlocale, libc_bindtextdomain,
          libc_textdomain, mbind; run_steps).
Qed.

(** getpwnam on an object without a record, whatever its dictionary holds
    under the five keys: five strings of 4096 cells and the record are
    taken from the heap, every string ends in a zero byte, and the record
    holds two string pointers, the two 32-bit symbolic ids and three string
    pointers. *)
Lemma getpwnam_first_call (st : State) (name : list sbyte)
    (v1 v2 v3 v4 v5 : option (list sbyte)) :
  let h := heap_location st in
  let P := h + 20480 in
  let ps := arch_bytes in
  let char_ptrs :=
    [("pw_name", Some (BVV h (bits arch)));
     ("pw_paswd", Some (BVV (h + 4096) (bits arch)));
     ("pw_gecos", Some (BVV (h + 8192) (bits arch)));
     ("pw_dir", Some (BVV (h + 12288) (bits arch)));
     ("pw_shell", Some (BVV (h + 16384) (bits arch)))]%string in
  let self1 :=
    {| PASSWD_PTR := Some (BVV P (bits arch)); CHAR_PTRS := char_ptrs |} in
  ∃ st2,
    libc_getpwnam
      {| PASSWD_PTR := None;
         CHAR_PTRS := [("pw_name", v1); ("pw_paswd", v2); ("pw_gecos", v3);
                       ("pw_dir", v4); ("pw_shell", v5)]%string |} name st
      = (st2, Val (self1, BVV P (bits arch))) ∧
    heap_location st2 = P + heap_round (5 * ps + 8) ∧
    next_uid st2 = S (S (next_uid st)) ∧
    constraints st2 = constraints st ∧
    (∀ i, 0 ≤ i < 5 →
       mem st2 !! wrap (h + 4096 * i + 4095) = Some (Conc 0)) ∧
    load_at P ps (memory_endness arch) st2
      = (st2, Val (BVV h (bits arch))) ∧
    load_at (P + ps) ps (memory_endness arch) st2
      = (st2, Val (BVV (h + 4096) (bits arch))) ∧
    load_at (P + 2 * ps) 4 Iend_BE st2
      = (st2, Val (sym_cells "pw_uid" (next_uid st) 4)) ∧
    load_at (P + 2 * ps + 4) 4 Iend_BE st2
      = (st2, Val (sym_cells "pw_gid" (S (next_uid st)) 4)) ∧
    load_at (P + 2 * ps + 8) ps (memory_endness arch) st2
      = (st2, Val (BVV (h + 8192) (bits arch))) ∧
    load_at (P + 3 * ps + 8) ps (memory_endness arch) st2
      = (st2, Val (BVV (h + 12288) (bits arch))) ∧
    load_at (P + 4 * ps + 8) ps (memory_endness arch) st2
      = (st2, Val (BVV (h + 16384) (bits arch))).
Proof.
  intros h P ps char_ptrs self1.
  pose proof arch_bytes_ge Harch as Hps.
  pose proof space_roomy Harch as HN.
  pose proof bits_bytes Harch as Hbb. fold ps in Hps, Hbb.
  eexists. split.
  { unfold libc_getpwnam.
    cbn [PASSWD_PTR CHAR_PTRS fmap list_fmap fst].
    cbn [getpwnam_strings getpwnam_str_fields getpwnam_sym_fields].
    unfold mbind, store_sized. run_steps.
    fold h. fold ps.
    replace (h + 4096 + 4096 + 4096 + 4096 + 4096) with P by (unfold P; lia).
    replace (h + 4096 + 4096 + 4096 + 4096) with (h + 16384) by lia.
    replace (h + 4096 + 4096 + 4096) with (h + 12288) by lia.
    replace (h + 4096 + 4096) with (h + 8192) by lia.
    reflexivity. }
  cbn [mem heap_location constraints next_uid posix_environ].
  change (Z.to_nat (32 `div` 8)) with 4%nat.
  assert (P + 5 * ps + 8 ≤ h + 2 ^ bits arch) as Hfit by (unfold P; lia).
  unfold P in *.
  split_and!; try done; try lia.
  { do 2 f_equal. lia. }
  { intros i Hi.
    assert (i = 0 ∨ i = 1 ∨ i = 2 ∨ i = 3 ∨ i = 4) as Hc by lia.
    destruct Hc as [->|[->|[->|[->| ->]]]];
      repeat (lookup_skip Harch); apply lookup_hit; lia. }
  all: apply load_at_cells; cbn [mem];
    repeat (read_skip Harch);
    (apply (read_hit Harch);
     [ lia
     | by rewrite length_byte_order, ?length_sym_cells, ?length_BVV
     | cell_sizes Harch ]).
Qed.

(** Two pointers less than the address space apart are different values. *)
Lemma BVV_apart x y :
  x < y < x + 2 ^ bits arch → BVV x (bits arch) ≠ BVV y (bits arch).
Proof.
  intros Hxy E. apply (f_equal bv_concrete) in E.
  rewrite !(concrete_ptr Harch) in E. injection E as E.
  by apply (wrap_ne Harch x y); [left|].
Qed.

(** C4.  The pointer that a lazy singleton keeps does not reach the next
    call.  Every call runs on a copy of the hooked object, the attribute
    that the first call sets is lost with the copy, and the second call, on
    the state that the first one left, finds [None] and allocates again:
    getlogin, setlocale, bindtextdomain and textdomain answer the end of
    the heap and then the address 256 cells above it, two different
    pointers.  getpwnam takes five more strings and a second record from
    the heap, names two more symbolic ids, and answers the second record,
    which is not the first. *)
Theorem lazy_singleton_allocates_again (st : State)
    (name category locale domainname dirname : list sbyte) :
  let h := heap_location st in
  let p1 := BVV h (bits arch) in
  let p2 := BVV (h + 256) (bits arch) in
  let st1 :=
    {| mem := <[wrap (h + 255) := Conc 0]> (mem st);
       constraints := constraints st; next_uid := next_uid st;
       heap_location := h + 256; posix_environ := posix_environ st |} in
  let st2 :=
    {| mem := <[wrap (h + 511) := Conc 0]>
                (<[wrap (h + 255) := Conc 0]> (mem st));
       constraints := constraints st; next_uid := next_uid st;
       heap_location := h + 512; posix_environ := posix_environ st |} in
  let rec_size := heap_round (5 * arch_bytes + 8) in
  let P1 := BVV (h + 20480) (bits arch) in
  let P2 := BVV (h + 20480 + rec_size + 20480) (bits arch) in
  p1 ≠ p2 ∧
  execute_getlogin st = (st1, Val p1) ∧
  execute_getlogin st1 = (st2, Val p2) ∧
  execute_setlocale category locale st = (st1, Val p1) ∧
  execute_setlocale category locale st1 = (st2, Val p2) ∧
  execute_bindtextdomain domainname dirname st = (st1, Val p1) ∧
  execute_bindtextdomain domainname dirname st1 = (st2, Val p2) ∧
  execute_textdomain domainname st = (st1, Val p1) ∧
  execute_textdomain domainname st1 = (st2, Val p2) ∧
  P1 ≠ P2 ∧
  ∃ sta stb d1 d2,
    execute_getpwnam (CHAR_PTRS getpwnam_class) name st
      = (sta, Val (d1, P1)) ∧
    execute_getpwnam d1 name sta = (stb, Val (d2, P2)) ∧
    heap_location stb = h + 2 * (20480 + rec_size) ∧
    next_uid stb = S (S (S (S (next_uid st)))) ∧
    dict_get "pw_name" d1 = Some (Some (BVV h (bits arch))) ∧
    dict_get "pw_name" d2
      = Some (Some (BVV (h + 20480 + rec_size) (bits arch))) ∧
    load_at (h + 20480 + rec_size + 20480 + 2 * arch_bytes) 4 Iend_BE stb
      = (stb, Val (sym_cells "pw_uid" (S (S (next_uid st))) 4)).
Proof.
  intros h p1 p2 st1 st2 rec_size P1 P2.
  pose proof (space_large Harch) as HN.
  pose proof (space_roomy Harch) as HR.
  pose proof (arch_bytes_ge Harch) as Hps.
  pose proof (bits_bytes Harch) as Hbb.
  pose proof (heap_round_bounds (5 * arch_bytes + 8)) as Hrs.
  fold rec_size in Hrs.
  destruct (singleton_first_call st category locale domainname dirname)
    as (E1 & E2 & E3 & E4).
  destruct (singleton_first_call st1 category locale domainname dirname)
    as (F1 & F2 & F3 & F4).
  cbn [heap_location mem constraints next_uid posix_environ st1] in F1, F2, F3, F4.
  fold h in E1, E2, E3, E4, F1, F2, F3, F4.
  replace (h + 256 + 255) with (h + 511) in F1, F2, F3, F4 by lia.
  replace (h + 256 + 256) with (h + 512) in F1, F2, F3, F4 by lia.
  split; [apply BVV_apart; lia|].
  unfold execute_getlogin, execute_setlocale, execute_bindtextdomain,
    execute_textdomain, mbind.
  rewrite E1, E2, E3, E4. fold st1.
  rewrite F1, F2, F3, F4.
  split_and!; try done.
  { apply BVV_apart. lia. }
  destruct (getpwnam_first_call st name None None None None None)
    as (sta & Ea & Ha & Ua & _).
  fold h in Ea, Ha.
  destruct (getpwnam_first_call sta name
              (Some (BVV h (bits arch))) (Some (BVV (h + 4096) (bits arch)))
              (Some (BVV (h + 8192) (bits arch)))
              (Some (BVV (h + 12288) (bits arch)))
              (Some (BVV (h + 16384) (bits arch))))
    as (stb & Eb & Hb & Ub & _ & _ & _ & _ & Lb & _).
  rewrite Ha in Eb, Hb, Lb. fold rec_size in Eb, Hb, Lb, Ha. rewrite Ua in Ub, Lb.
  eexists sta, stb, _, _. unfold execute_getpwnam, mbind, getpwnam_class.
  cbn [CHAR_PTRS]. rewrite Ea. cbn [fst snd CHAR_PTRS]. rewrite mret_eq.
  split; [reflexivity|]. rewrite Eb. cbn [fst snd CHAR_PTRS]. rewrite mret_eq.
  split_and!; try done.
  - lia.
Qed.

End Singletons.

(** getlogin twice on the example machine: 4096, then 4352. *)
Lemma lazy_singleton_allocates_again_witness :
  ∃ st1 st2,
    execute_getlogin (H := example_host []) (example_state ∅)
      = (st1, Val (BVV 4096 64)) ∧
    execute_getlogin (H := example_host []) st1
      = (st2, Val (BVV 4352 64)) ∧
    heap_location st2 = 4608.
Proof.
  pose proof (lazy_singleton_allocates_again (H := example_host [])
                ltac:(split; [vm_compute; discriminate | reflexivity])
                (example_state ∅) [] [] [] [] []) as W.
  cbv zeta in W. destruct W as (_ & W1 & W2 & _).
  eexists _, _. split_and!; [exact W1 | exact W2 | reflexivity].
Defined.

(** ** Values of expressions *)

Lemma bv_size_div (v : list sbyte) : bv_size v / 8 = Z.of_nat (length v).
Proof. unfold bv_size. rewrite Z.mul_comm. apply Z.div_mul. lia. Qed.

Lemma fold_be acc l :
  fold_left (fun a b => a * 256 + b) l acc
  = acc * 256 ^ Z.of_nat (length l) + be_value l.
Proof.
  revert acc. induction l as [|x l IH] using rev_ind; intros acc.
  - cbn. lia.
  - rewrite be_value_snoc, fold_left_app, length_app. cbn [fold_left length].
    rewrite IH, Nat2Z.inj_add, Z.pow_add_r by lia.
    change (256 ^ Z.of_nat 1) with 256. lia.
Qed.

Lemma be_value_cons x l :
  be_value (x :: l) = x * 256 ^ Z.of_nat (length l) + be_value l.
Proof. unfold be_value at 1. cbn [fold_left]. rewrite fold_be. lia. Qed.

Lemma cell_val_Conc rho (l : list Z) : cell_val rho <$> (Conc <$> l) = l.
Proof. induction l as [|x l IH]; [done|]. cbn. by f_equal. Qed.

Lemma bv_val_BVV rho v w :
  0 ≤ w → w mod 8 = 0 → bv_val rho (BVV v w) = v mod 2 ^ w.
Proof.
  intros ? ?. unfold bv_val, BVV. rewrite cell_val_Conc, be_value_be_bytes.
  rewrite Z2Nat.id by (apply Z.div_pos; lia).
  rewrite <- pow_8 by (apply Z.div_pos; lia).
  do 2 f_equal. pose proof (Z.div_mod w 8). lia.
Qed.

Lemma sym_cells_S name uid n :
  sym_cells name uid (S n) = Sym name uid n :: sym_cells name uid n.
Proof. unfold sym_cells. by rewrite seq_S, rev_app_distr. Qed.

Lemma bv_val_sym rho name uid n :
  bv_val rho (sym_cells name uid n) = rho name uid mod 256 ^ Z.of_nat n.
Proof.
  unfold bv_val. induction n as [|n IH].
  - cbn. by rewrite Z.mod_1_r.
  - rewrite sym_cells_S, fmap_cons, be_value_cons, IH.
    rewrite length_fmap, length_sym_cells. cbn [cell_val].
    rewrite Nat2Z.inj_succ, Z.pow_succ_r by lia.
    rewrite (Z.mul_comm 256), Z.rem_mul_r by lia. lia.
Qed.

(** ** strrchr *)

Section Strrchr.
Context `{Host}.

(** C10.  On a 64-bit string address whose length probe returns, strrchr
    answers a new 64-bit symbolic value and adds one constraint: the value
    lies in [s, s + bound) or is 0, where [bound] is the largest index the
    probe searched when the length is symbolic and the length plus one
    otherwise.  Neither the answer nor the constraint depends on the
    character, and 0 and every address of the interval satisfy the
    constraint, whatever the memory holds there. *)
Theorem strrchr_loose (s_addr c_int : list sbyte) (st st1 : State)
    (r : strlen_proc) (n : Z) :
  bv_size s_addr = 64 →
  strlen s_addr st = (st1, Val r) →
  (symbolic (ret_expr r) = false → bv_concrete (ret_expr r) = Some n) →
  let ret := sym_cells "strrchr" (next_uid st1) 8 in
  let bound := if symbolic (ret_expr r) then max_null_index r else n + 1 in
  let c :=
    Or (And (UGE (TBv ret) (TBv s_addr))
            (ULT (TBv ret) (TAdd (TBv s_addr) (TBv (BVV bound 64)))))
       (Eq (TBv ret) (TBv (BVV 0 64))) in
  libc_strrchr s_addr c_int st
    = ({| mem := mem st1; constraints := constraints st1 ++ [c];
          next_uid := S (next_uid st1); heap_location := heap_location st1;
          posix_environ := posix_environ st1 |}, Val ret) ∧
  (∀ c_int', libc_strrchr s_addr c_int' st = libc_strrchr s_addr c_int st) ∧
  (∀ rho : assignment, rho "strrchr"%string (next_uid st1) = 0 →
     holds rho c = true) ∧
  (∀ (rho : assignment) a,
     rho "strrchr"%string (next_uid st1) = a →
     0 ≤ bound → 0 ≤ bv_val rho s_addr →
     bv_val rho s_addr + bound < 2 ^ 64 →
     bv_val rho s_addr ≤ a < bv_val rho s_addr + bound →
     holds rho c = true).
Proof.
  intros Hsz Hlen Hn ret bound c.
  assert (bv_val_ret : ∀ rho : assignment,
    bv_val rho ret = rho "strrchr"%string (next_uid st1) mod 2 ^ 64).
  { intros rho. unfold ret. by rewrite bv_val_sym. }
  split_and!.
  - unfold libc_strrchr, mbind. rewrite Hlen, BVS_eq.
    change (Z.to_nat (64 `div` 8)) with 8%nat. fold ret.
    unfold same_size. rewrite bool_decide_true by (by rewrite Hsz).
    unfold bound, c.
    destruct (symbolic (ret_expr r)) eqn:Es.
    + rewrite mret_eq. unfold add_constraints. cbn. rewrite Hsz. done.
    + rewrite (solver_eval_concrete _ n) by auto. rewrite mret_eq.
      unfold add_constraints. cbn. rewrite Hsz. done.
  - done.
  - intros rho H0. unfold c. cbn [holds term_val term_size].
    rewrite bv_val_ret, H0.
    rewrite bv_val_BVV by done. rewrite !Z.mod_0_l by done.
    rewrite (bool_decide_true (0 = 0)) by done. apply orb_true_r.
  - intros rho a Ha Hb Hs Hfit Hin. unfold c. cbn [holds term_val term_size].
    rewrite bv_val_ret, Ha.
    rewrite bv_val_BVV by done. rewrite Hsz.
    rewrite (Z.mod_small a) by lia.
    rewrite (Z.mod_small bound) by lia.
    rewrite (Z.mod_small (_ + _)) by lia.
    rewrite !bool_decide_true by lia. done.
Qed.

End Strrchr.

(** The string "ab" lies at 512 and the character sought is 'a': the
    address 513, which holds 'b', satisfies the constraint. *)
Lemma strrchr_loose_witness :
  ∃ st2 c,
    libc_strrchr (H := example_host []) (BVV 512 64) (BVV 97 64)
                 (example_state (poke ∅ 512 [97; 98; 0]))
      = (st2, Val (sym_cells "strrchr" 0 8)) ∧
    constraints st2 = [c] ∧
    holds (fun _ _ => 513) c = true.
Proof.
  pose proof (strrchr_loose (H := example_host []) (BVV 512 64) (BVV 97 64)
                (example_state (poke ∅ 512 [97; 98; 0]))
                (example_state (poke ∅ 512 [97; 98; 0]))
                {| ret_expr := BVV 2 64; max_null_index := 2 |} 2) as W.
  cbv zeta in W. destruct W as (W1 & _ & _ & W2).
  - reflexivity.
  - reflexivity.
  - reflexivity.
  - eexists _, _. split; [exact W1|]. split; [reflexivity|].
    apply (W2 (fun _ _ => 513) 513); zcheck.
Defined.

(** ** snprintf *)

Section Snprintf.
Context `{Host}.
Hypothesis Harch : arch_ok.

Lemma store_terminated m d (bs : list sbyte) st :
  Z.of_nat (length bs) < 2 ^ bits arch →
  mem st
    = write_cells (write_cells m d bs) (d + Z.of_nat (length bs)) [Conc 0] →
  terminated_at st d bs.
Proof.
  intros Hlen Hm. unfold terminated_at. rewrite Hm. split.
  - intros i c Hi. apply lookup_lt_Some in Hi as Hlt.
    rewrite (lookup_skip Harch) by (cbn [length]; lia).
    apply (write_cells_at Harch); [done|lia].
  - by apply lookup_hit.
Qed.

(** What a store of [bs] and of a zero byte after them leaves alone. *)
Lemma store_terminated_frame m d (bs : list sbyte) x :
  (∀ i, 0 ≤ i ≤ Z.of_nat (length bs) → wrap (d + i) ≠ x) →
  write_cells (write_cells m d bs) (d + Z.of_nat (length bs)) [Conc 0] !! x
  = m !! x.
Proof.
  intros Hx. rewrite !write_cells_other; [done| |].
  - intros i Hi. apply Hx. lia.
  - intros i Hi. cbn [length] in Hi.
    replace (d + Z.of_nat (length bs) + i) with (d + (Z.of_nat (length bs) + i))
      by lia.
    apply Hx. lia.
Qed.

(** C1.  A concrete capacity [c] of at least 1 and a rendered output of
    [n] bytes; [st1] is the state in which the format parser hands the
    output over.  When [n] exceeds [c - 1], the first [c - 1] bytes of the
    output lie at the destination with a zero byte at offset [c - 1], and
    the call answers [c - 1] at the pointer width; otherwise the whole
    output lies there with a zero byte after it and the call answers [n].
    Either way no cell other than those of the stored bytes and of the zero
    byte is changed (in the first case: no cell outside the [c] cells of
    the destination), and the state is changed in its memory only. *)
Theorem snprintf_truncates (d c : Z) (out : list sbyte) (st st1 : State) :
  1 ≤ c < 2 ^ bits arch →
  format_replace 2 st = (st1, Val out) →
  let n := Z.of_nat (length out) in
  (c - 1 < n →
   ∃ st2,
     libc_snprintf (BVV d (bits arch)) (BVV c (bits arch)) st
       = (st2, Val (BVV (c - 1) (bits arch))) ∧
     bv_concrete (BVV (c - 1) (bits arch)) = Some (c - 1) ∧
     terminated_at st2 d (take (Z.to_nat (c - 1)) out) ∧
     Z.of_nat (length (take (Z.to_nat (c - 1)) out)) = c - 1 ∧
     (∀ x, (∀ i, 0 ≤ i < c → wrap (d + i) ≠ x) →
           mem st2 !! x = mem st1 !! x) ∧
     same_but_mem st1 st2 ∧ next_uid st2 = next_uid st1) ∧
  (n ≤ c - 1 →
   ∃ st2,
     libc_snprintf (BVV d (bits arch)) (BVV c (bits arch)) st
       = (st2, Val (BVV n (bits arch))) ∧
     bv_concrete (BVV n (bits arch)) = Some n ∧
     terminated_at st2 d out ∧
     (∀ x, (∀ i, 0 ≤ i ≤ n → wrap (d + i) ≠ x) →
           mem st2 !! x = mem st1 !! x) ∧
     same_but_mem st1 st2 ∧ next_uid st2 = next_uid st1).
Proof.
  intros Hc Hfmt n.
  assert (∀ keep : list sbyte,
    Z.of_nat (length keep) < 2 ^ bits arch →
    (if bool_decide (bv_size out / 8 > c - 1)
     then get_bytes out 0 (c - 1) else out) = keep →
    ∃ st2,
     libc_snprintf (BVV d (bits arch)) (BVV c (bits arch)) st
       = (st2, Val (BVV (Z.of_nat (length keep)) (bits arch))) ∧
     bv_concrete (BVV (Z.of_nat (length keep)) (bits arch))
       = Some (Z.of_nat (length keep)) ∧
     terminated_at st2 d keep ∧
     (∀ x, (∀ i, 0 ≤ i ≤ Z.of_nat (length keep) → wrap (d + i) ≠ x) →
           mem st2 !! x = mem st1 !! x) ∧
     same_but_mem st1 st2 ∧ next_uid st2 = next_uid st1) as Hrun.
  { intros keep Hk Hkeep. eexists. split_and!.
    - unfold libc_snprintf, mbind.
      rewrite (solver_eval_concrete _ (wrap c)) by apply (concrete_ptr Harch).
      rewrite wrap_small by lia.
      rewrite bool_decide_false by lia. rewrite Hfmt.
      rewrite (solver_max_concrete _ (wrap c)) by apply (concrete_ptr Harch).
      rewrite wrap_small by lia. rewrite Hkeep.
      rewrite bv_size_div. run_steps. reflexivity.
    - rewrite (concrete_ptr Harch). by rewrite wrap_small by lia.
    - eapply store_terminated; [done|]. reflexivity.
    - intros x Hx. cbn [mem]. by apply store_terminated_frame.
    - done.
    - done. }
  split; intros Hn.
  - destruct (Hrun (take (Z.to_nat (c - 1)) out))
      as (st2 & E & Hv & Ht & Hfr & Hsame & Huid).
    + rewrite length_take. lia.
    + rewrite bv_size_div, bool_decide_true by (fold n; lia). done.
    + rewrite length_take in E, Hv, Hfr.
      replace (Z.of_nat (Z.to_nat (c - 1) `min` length out)) with (c - 1)
        in E, Hv, Hfr by lia.
      exists st2. split_and!; try done.
      * rewrite length_take. lia.
      * intros x Hx. apply Hfr. intros i Hi. apply Hx. lia.
  - destruct (Hrun out) as (st2 & E & Hv & Ht & Hfr & Hsame & Huid).
    + fold n. lia.
    + rewrite bv_size_div, bool_decide_false by (fold n; lia). done.
    + by exists st2.
Qed.

End Snprintf.

(** Capacity 5 and a format that renders "hello world": "hell" and a zero
    byte are written, the call answers 4, and the cell after the five of
    the destination stays unmapped. *)
Lemma snprintf_truncates_witness :
  ∃ st2,
    libc_snprintf
      (H := example_host hello_world)
      (BVV 8192 64) (BVV 5 64) (example_state ∅)
      = (st2, Val (BVV 4 64)) ∧
    terminated_at
      (H := example_host hello_world)
      st2 8192 (Conc <$> [104; 101; 108; 108]) ∧
    mem st2 !! 8197 = None.
Proof.
  pose proof (snprintf_truncates
    (H := example_host hello_world))
    as W.
  destruct (W ltac:(split; [vm_compute; discriminate | reflexivity])
              8192 5 hello_world (example_state ∅) (example_state ∅)
              ltac:(split; vm_compute; (discriminate || reflexivity))
              eq_refl) as [W1 _].
  destruct W1 as (st2 & E & _ & T & _ & F & _); [vm_compute; reflexivity|].
  exists st2. split_and!; [exact E | exact T |].
  rewrite (F 8197); [reflexivity|].
  intros i Hi. assert (i = 0 ∨ i = 1 ∨ i = 2 ∨ i = 3 ∨ i = 4) as Hc by lia.
  destruct Hc as [->|[->|[->|[->| ->]]]]; vm_compute; discriminate.
Defined.

(** ** __snprintf_chk *)

Section SnprintfChk.
Context `{Host}.

(** C7.  Once the format is rendered and [solver.max] has answered, the
    call tests the truth of the expression [n > slen - 1] and raises; it
    stores nothing. *)
Theorem snprintf_chk_raises (s maxlen flag slen fmt out : list sbyte)
    (st st1 : State) (m : Z) :
  format_replace 4 st = (st1, Val out) →
  solver_max slen st1 = (st1, Val m) →
  libc__snprintf_chk s maxlen flag slen fmt st
    = (st1, Raise ClaripyOperationError).
Proof.
  intros Hfmt Hmax. unfold libc__snprintf_chk, mbind.
  by rewrite Hfmt, Hmax.
Qed.

End SnprintfChk.

(** Declared size 5 and a format that renders "hello world". *)
Lemma snprintf_chk_raises_witness :
  libc__snprintf_chk
    (H := example_host hello_world)
    (BVV 8192 64) (BVV 64 64) (BVV 1 64) (BVV 5 64) (BVV 0 64)
    (example_state ∅)
  = (example_state ∅, Raise ClaripyOperationError).
Proof.
  apply (snprintf_chk_raises
    (H := example_host hello_world)
    (BVV 8192 64) (BVV 64 64) (BVV 1 64) (BVV 5 64) (BVV 0 64) hello_world
    (example_state ∅) (example_state ∅) 5); reflexivity.
Defined.

(** ** The encoding converters *)

Lemma is_true_lt_byte b z :
  is_true_lt [Conc b] z = bool_decide (b < z mod 256).
Proof. unfold is_true_lt. cbn. done. Qed.

Lemma is_true_eq_byte b z :
  is_true_eq [Conc b] z = bool_decide (b = z mod 256).
Proof. unfold is_true_eq. cbn. done. Qed.

Section Converters.
Context `{Host}.
Hypothesis Harch : arch_ok.

Lemma is_true_eq_ptr d z :
  is_true_eq (BVV d (bits arch)) z = bool_decide (wrap d = wrap z).
Proof.
  unfold is_true_eq. rewrite (concrete_ptr Harch), (size_ptr Harch). done.
Qed.

Lemma load_at_1 a c st :
  mem st !! wrap a = Some c → load_at a 1 Iend_BE st = (st, Val [c]).
Proof.
  intros E. unfold load_at. change (Z.to_nat 1) with 1%nat.
  cbn [read_cells]. by rewrite E.
Qed.

Lemma mbsrtowcs_round_spec j d S ret b st :
  mem st !! wrap (S + j) = Some (Conc b) →
  ∃ st',
    mbsrtowcs_round j (BVV d (bits arch)) (BVV S (bits arch)) ret st
      = (st', Val (ret + 1, bool_decide (b = 0))) ∧
    (∀ x, (∀ i, 0 ≤ i < 4 → wrap (d + j * 4 + i) ≠ x) →
          mem st' !! x = mem st !! x) ∧
    (wrap d ≠ 0 → b < 128 →
     read_cells (mem st') (d + j * 4) 4
       = Some (byte_order (memory_endness arch) (zero_extend [Conc b] 24))) ∧
    (wrap d = 0 → b < 128 → st' = st) ∧
    same_but_mem st st'.
Proof.
  intros Hb. unfold mbsrtowcs_round, mbind, WCHAR_BYTES.
  rewrite (add_BVV Harch), (load_BVV Harch), (load_at_1 _ _ _ Hb).
  rewrite is_true_lt_byte, is_true_eq_byte, (is_true_eq_ptr d 0).
  change (128 mod 256) with 128. change (0 mod 256) with 0.
  change (wrap 0) with 0.
  pose proof (space_large Harch) as HN.
  case_bool_decide as Hlt.
  - case_bool_decide as Hd; cbn [negb].
    + rewrite mret_eq. rewrite mret_eq. rewrite mret_eq. eexists. split_and!; try done.
    + rewrite (add_BVV Harch), (store_BVV Harch). rewrite !mret_eq.
      eexists. split_and!; try done.
      * intros x Hx. cbn [mem set_mem]. apply write_cells_other.
        intros i Hi. apply Hx. rewrite length_byte_order in Hi.
        change (length (zero_extend [Conc b] (4 * 8 - 8))) with 4%nat in Hi.
        lia.
      * intros _ _. cbn [mem set_mem]. apply (read_hit Harch); [done| |].
        -- by rewrite length_byte_order.
        -- rewrite length_byte_order.
           change (Z.of_nat 4 ≤ 2 ^ bits arch). lia.
  - rewrite BVS_eq, (add_BVV Harch), (store_BVV Harch), !mret_eq.
    eexists. split_and!; try done; try lia.
    intros x Hx. cbn [mem set_mem]. apply write_cells_other.
    intros i Hi. apply Hx. rewrite length_byte_order, length_sym_cells in Hi.
    change (Z.to_nat ((4 * 8) `div` 8)) with 4%nat in Hi. lia.
Qed.

Lemma separate_small a n b k : separate a n b k → n < 2 ^ bits arch ∧ k < 2 ^ bits arch.
Proof.
  intros [? ?]. pose proof (space_large Harch).
  assert (0 < 2 ^ bits arch) as HN by lia.
  pose proof (Z.mod_pos_bound (b - a) (2 ^ bits arch) HN).
  pose proof (Z.mod_pos_bound (a - b) (2 ^ bits arch) HN). lia.
Qed.

Lemma mbsrtowcs_loop_spec (body : list Z) d S :
  Forall (λ b, b ≠ 0) body →
  let k := Z.of_nat (length body) in
  separate d (4 * (k + 1)) S (k + 1) →
  ∀ (m : nat) (j : Z) (n : nat) ret st,
    0 ≤ j → j + Z.of_nat m = k → (m < n)%nat →
    (∀ (i : nat) b, (body ++ [0]) !! i = Some b →
       mem st !! wrap (S + Z.of_nat i) = Some (Conc b)) →
    ∃ st',
      mbsrtowcs_loop n j (BVV d (bits arch)) (BVV S (bits arch)) ret st
        = (st', Val (ret + Z.of_nat m + 1)) ∧
      (∀ x, (∀ i, 4 * j ≤ i < 4 * (k + 1) → wrap (d + i) ≠ x) →
            mem st' !! x = mem st !! x) ∧
      (wrap d ≠ 0 → ∀ (i : nat) b,
         j ≤ Z.of_nat i → (body ++ [0]) !! i = Some b → b < 128 →
         read_cells (mem st') (d + Z.of_nat i * 4) 4
           = Some (byte_order (memory_endness arch)
                     (zero_extend [Conc b] 24))) ∧
      same_but_mem st st' ∧
      (wrap d = 0 →
       ∀ x, (∀ i, 4 * j ≤ i < 4 * k → wrap (d + i) ≠ x) →
            mem st' !! x = mem st !! x).
Proof.
  intros Hnz k Hsep m. pose proof (separate_small _ _ _ _ Hsep) as [Hk4 Hk1].
  induction m as [|m IH]; intros j n ret st Hj Hjm Hn Hsrc.
  - destruct n as [|n]; [lia|]. cbn [mbsrtowcs_loop]. unfold mbind at 1.
    assert ((body ++ [0]) !! Z.to_nat j = Some 0) as Hterm.
    { rewrite lookup_app_r by lia.
      replace (Z.to_nat j - length body)%nat with 0%nat by lia. done. }
    pose proof (Hsrc _ _ Hterm) as Hcell. rewrite Z2Nat.id in Hcell by lia.
    destruct (mbsrtowcs_round_spec j d S ret 0 st Hcell)
      as (st1 & E & Hfr & Hst & Hco & Hsame).
    rewrite E. rewrite bool_decide_true by done. cbn [fst snd].
    rewrite mret_eq. exists st1. split_and!; try done.
    + f_equal. f_equal. lia.
    + intros x Hx. apply Hfr. intros i Hi. 
      replace (d + j * 4 + i) with (d + (4 * j + i)) by lia. apply Hx. lia.
    + intros Hd i b Hji Hi Hb. apply lookup_lt_Some in Hi as Hlt.
      rewrite length_app in Hlt. cbn in Hlt.
      assert (Z.of_nat i = j) as Hij by lia.
      rewrite Hij. assert (b = 0) as ->.
      { rewrite <- Hij, Nat2Z.id in Hterm. congruence. }
      by apply Hst.
    + intros Hd x _. by rewrite (Hco Hd) by lia.
  - destruct n as [|n]; [lia|]. cbn [mbsrtowcs_loop]. unfold mbind at 1.
    assert (Z.to_nat j < length body)%nat as Hlt by lia.
    destruct (lookup_lt_is_Some_2 body _ Hlt) as [b Hb].
    assert ((body ++ [0]) !! Z.to_nat j = Some b) as Hb'
      by (by rewrite lookup_app_l).
    pose proof (Hsrc _ _ Hb') as Hcell. rewrite Z2Nat.id in Hcell by lia.
    assert (b ≠ 0) as Hbnz.
    { eapply (Forall_lookup_1 _ _ _ _ Hnz Hb). }
    destruct (mbsrtowcs_round_spec j d S ret b st Hcell)
      as (st1 & E & Hfr & Hst & _ & Hsame).
    rewrite E. rewrite bool_decide_false by done. cbn [fst snd].
    destruct (IH (j + 1) n (ret + 1) st1)
      as (st2 & E2 & Hfr2 & Hst2 & Hsame2 & Hco2); [lia|lia|lia| |].
    { intros i c Hi. rewrite Hfr; [by apply Hsrc|].
      intros i' Hi'. apply lookup_lt_Some in Hi as Hlti.
      rewrite length_app in Hlti. cbn in Hlti.
      replace (d + j * 4 + i') with (d + (4 * j + i')) by lia.
      apply (separate_ne Harch _ _ _ _ _ _ Hsep); lia. }
    rewrite E2. exists st2. split_and!.
    + do 2 f_equal. lia.
    + intros x Hx. rewrite Hfr2, Hfr; [done| |].
      * intros i Hi. replace (d + j * 4 + i) with (d + (4 * j + i)) by lia.
        apply Hx. lia.
      * intros i Hi. apply Hx. lia.
    + intros Hd i c Hji Hi Hc.
      destruct (decide (Z.of_nat i = j)) as [Hij|Hij].
      * assert (c = b) as -> by (rewrite <- Hij, Nat2Z.id in Hb'; congruence).
        rewrite <- (Hst Hd Hc). rewrite Hij. apply read_cells_ext.
        intros i' Hi'. apply Hfr2. intros i'' Hi''.
        apply (wrap_ne Harch). lia.
      * apply Hst2; [done|lia|done|done].
    + destruct Hsame as (?&?&?), Hsame2 as (?&?&?). unfold same_but_mem.
      split_and!; congruence.
    + intros Hd x Hx. rewrite (Hco2 Hd), Hfr; [done| |].
      * intros i Hi. replace (d + j * 4 + i) with (d + (4 * j + i)) by lia.
        apply Hx. lia.
      * intros i Hi. apply Hx. lia.
Qed.

Lemma get_byte_low u : get_byte (BVV u 32) (WCHAR_BYTES - 1) = [Conc (u mod 256)].
Proof. done. Qed.

Lemma wcsrtombs_round_spec j N S ret u st :
  0 ≤ u < 2 ^ 32 →
  read_cells (mem st) (S + j * 4) 4
    = Some (byte_order (memory_endness arch) (BVV u 32)) →
  ∃ st',
    wcsrtombs_round j (BVV N (bits arch)) (BVV S (bits arch)) ret st
      = (st', Val (ret + 1, bool_decide (u = 0))) ∧
    (∀ x, wrap (N + j) ≠ x → mem st' !! x = mem st !! x) ∧
    (wrap N ≠ 0 → u < 128 → mem st' !! wrap (N + j) = Some (Conc u)) ∧
    (wrap N = 0 → u < 128 → st' = st) ∧
    same_but_mem st st'.
Proof.
  intros Hu Hread. unfold wcsrtombs_round, mbind.
  rewrite (add_BVV Harch), (load_BVV Harch).
  unfold load_at. change (Z.to_nat WCHAR_BYTES) with 4%nat.
  unfold WCHAR_BYTES at 1. rewrite Hread, byte_order_invol.
  unfold is_true_lt, is_true_eq at 2.
  rewrite bv_concrete_BVV, bv_size_BVV by done.
  rewrite (Z.mod_small u), (Z.mod_small 128), (Z.mod_small 0) by lia.
  rewrite (is_true_eq_ptr N 0). change (wrap 0) with 0.
  rewrite get_byte_low.
  case_bool_decide as Hlt.
  - case_bool_decide as Hd; cbn [negb].
    + rewrite !mret_eq. eexists. split_and!; try done.
    + rewrite (add_BVV Harch), (store_BVV Harch). rewrite !mret_eq.
      eexists. split_and!; try done.
      * intros x Hx. cbn [mem set_mem byte_order write_cells].
        by rewrite lookup_insert_ne.
      * intros _ _. cbn [mem set_mem byte_order write_cells].
        rewrite (Z.mod_small u) by lia. apply lookup_insert_eq.
  - rewrite BVS_eq, (add_BVV Harch), (store_BVV Harch), !mret_eq.
    eexists. split_and!; try done; try lia.
    intros x Hx. cbn [mem set_mem]. change (Z.to_nat (8 `div` 8)) with 1%nat.
    cbn [sym_cells byte_order write_cells seq rev app fmap list_fmap].
    by rewrite lookup_insert_ne.
Qed.

Lemma wcsrtombs_loop_spec (body : list Z) N S :
  Forall (λ u, 0 < u < 2 ^ 32) body →
  let k := Z.of_nat (length body) in
  separate N (k + 1) S (4 * (k + 1)) →
  ∀ (m : nat) (j : Z) (n : nat) ret st,
    0 ≤ j → j + Z.of_nat m = k → (m < n)%nat →
    (∀ (i : nat) u, (body ++ [0]) !! i = Some u →
       read_cells (mem st) (S + Z.of_nat i * 4) 4
         = Some (byte_order (memory_endness arch) (BVV u 32))) →
    ∃ st',
      wcsrtombs_loop n j (BVV N (bits arch)) (BVV S (bits arch)) ret st
        = (st', Val (ret + Z.of_nat m + 1)) ∧
      (∀ x, (∀ i, j ≤ i < k + 1 → wrap (N + i) ≠ x) →
            mem st' !! x = mem st !! x) ∧
      (wrap N ≠ 0 → ∀ (i : nat) u,
         j ≤ Z.of_nat i → (body ++ [0]) !! i = Some u → u < 128 →
         mem st' !! wrap (N + Z.of_nat i) = Some (Conc u)) ∧
      same_but_mem st st' ∧
      (wrap N = 0 →
       ∀ x, (∀ i, j ≤ i < k → wrap (N + i) ≠ x) →
            mem st' !! x = mem st !! x).
Proof.
  intros Hnz k Hsep m. pose proof (separate_small _ _ _ _ Hsep) as [Hk1 Hk4].
  induction m as [|m IH]; intros j n ret st Hj Hjm Hn Hsrc.
  - destruct n as [|n]; [lia|]. cbn [wcsrtombs_loop]. unfold mbind at 1.
    assert ((body ++ [0]) !! Z.to_nat j = Some 0) as Hterm.
    { rewrite lookup_app_r by lia.
      replace (Z.to_nat j - length body)%nat with 0%nat by lia. done. }
    pose proof (Hsrc _ _ Hterm) as Hcell. rewrite Z2Nat.id in Hcell by lia.
    destruct (wcsrtombs_round_spec j N S ret 0 st ltac:(lia) Hcell)
      as (st1 & E & Hfr & Hst & Hco & Hsame).
    rewrite E. rewrite bool_decide_true by done. cbn [fst snd].
    rewrite mret_eq. exists st1. split_and!; try done.
    + f_equal. f_equal. lia.
    + intros x Hx. apply Hfr. apply Hx. lia.
    + intros Hd i b Hji Hi Hb. apply lookup_lt_Some in Hi as Hlt.
      rewrite length_app in Hlt. cbn in Hlt.
      assert (Z.of_nat i = j) as Hij by lia.
      rewrite Hij. assert (b = 0) as ->.
      { rewrite <- Hij, Nat2Z.id in Hterm. congruence. }
      by apply Hst.
    + intros Hd x _. by rewrite (Hco Hd) by lia.
  - destruct n as [|n]; [lia|]. cbn [wcsrtombs_loop]. unfold mbind at 1.
    assert (Z.to_nat j < length body)%nat as Hlt by lia.
    destruct (lookup_lt_is_Some_2 body _ Hlt) as [b Hb].
    assert ((body ++ [0]) !! Z.to_nat j = Some b) as Hb'
      by (by rewrite lookup_app_l).
    pose proof (Hsrc _ _ Hb') as Hcell. rewrite Z2Nat.id in Hcell by lia.
    pose proof (Forall_lookup_1 _ _ _ _ Hnz Hb) as Hbnz. cbn in Hbnz.
    destruct (wcsrtombs_round_spec j N S ret b st ltac:(lia) Hcell)
      as (st1 & E & Hfr & Hst & _ & Hsame).
    rewrite E. rewrite bool_decide_false by lia. cbn [fst snd].
    destruct (IH (j + 1) n (ret + 1) st1)
      as (st2 & E2 & Hfr2 & Hst2 & Hsame2 & Hco2); [lia|lia|lia| |].
    { intros i c Hi. rewrite <- (Hsrc _ _ Hi). apply read_cells_ext.
      intros i' Hi'. apply Hfr. apply lookup_lt_Some in Hi as Hlti.
      rewrite length_app in Hlti. cbn in Hlti.
      replace (S + Z.of_nat i * 4 + i') with (S + (Z.of_nat i * 4 + i')) by lia.
      apply (separate_ne Harch _ _ _ _ _ _ Hsep); lia. }
    rewrite E2. exists st2. split_and!.
    + do 2 f_equal. lia.
    + intros x Hx. rewrite Hfr2, Hfr; [done| |].
      * apply Hx. lia.
      * intros i Hi. apply Hx. lia.
    + intros Hd i c Hji Hi Hc.
      destruct (decide (Z.of_nat i = j)) as [Hij|Hij].
      * assert (c = b) as -> by (rewrite <- Hij, Nat2Z.id in Hb'; congruence).
        rewrite Hij. rewrite Hfr2; [by apply Hst|].
        intros i'' Hi''. apply (wrap_ne Harch). lia.
      * apply Hst2; [done|lia|done|done].
    + destruct Hsame as (?&?&?), Hsame2 as (?&?&?). unfold same_but_mem.
      split_and!; congruence.
    + intros Hd x Hx. rewrite (Hco2 Hd), Hfr; [done| |].
      * apply Hx. lia.
      * intros i Hi. apply Hx. lia.
Qed.

Lemma mbsrtowcs_spec (body : list Z) (d p S : Z) (len ps_ : list sbyte)
    (m : Z) (st : State) :
  let k := Z.of_nat (length body) in
  Forall (λ b, b ≠ 0) body →
  read_cells (mem st) p (Z.to_nat arch_bytes)
    = Some (byte_order (memory_endness arch) (BVV S (bits arch))) →
  read_cells (mem st) S (length body + 1) = Some (Conc <$> (body ++ [0])) →
  solver_max len st = (st, Val m) →
  k < Z.min 1024 m →
  separate d (4 * (k + 1)) S (k + 1) →
  ∃ st',
    libc_mbsrtowcs (BVV d (bits arch)) (BVV p (bits arch)) len ps_ st
      = (st', Val (k + 1)) ∧
    load_at p arch_bytes (memory_endness arch) st' = (st', Val (BVV (S + (k + 1)) (bits arch))) ∧
    (∀ x, (∀ i, 0 ≤ i < 4 * (k + 1) → wrap (d + i) ≠ x) →
          (∀ i, 0 ≤ i < arch_bytes → wrap (p + i) ≠ x) →
          mem st' !! x = mem st !! x) ∧
    (wrap d ≠ 0 → separate p arch_bytes d (4 * (k + 1)) →
     ∀ (i : nat) b, (body ++ [0]) !! i = Some b → b < 128 →
       read_cells (mem st') (d + Z.of_nat i * 4) 4
         = Some (byte_order (memory_endness arch) (zero_extend [Conc b] 24))) ∧
    same_but_mem st st' ∧
    (wrap d = 0 →
     ∀ x, (∀ i, 0 ≤ i < 4 * k → wrap (d + i) ≠ x) →
          (∀ i, 0 ≤ i < arch_bytes → wrap (p + i) ≠ x) →
          mem st' !! x = mem st !! x).
Proof.
  intros k Hnz Hcur Hstr Hmax Hk Hsep.
  pose proof (arch_bytes_ge Harch) as Hps.
  pose proof (space_large Harch) as HN.
  unfold libc_mbsrtowcs, mbind at 1.
  rewrite (load_BVV Harch), (load_at_cells _ _ _ _ _ Hcur).
  unfold mbind at 1. rewrite Hmax. unfold mbind at 1.
  destruct (mbsrtowcs_loop_spec body d S Hnz Hsep (length body) 0
              (Z.to_nat (Z.min mbsrtowcs_max_dest_size m)) 0 st)
    as (st1 & E & Hfr & Hst & Hsame & Hco); [lia|lia| | |].
  { unfold mbsrtowcs_max_dest_size. lia. }
  { intros i b Hi. eapply read_cells_lookup; [exact Hstr|].
    by rewrite list_lookup_fmap, Hi. }
  rewrite E. unfold mbind. rewrite (add_BVV Harch), (store_BVV Harch).
  rewrite mret_eq. eexists. split_and!.
  - done.
  - apply load_at_cells. cbn [mem set_mem].
    replace (S + (0 + Z.of_nat (length body) + 1)) with (S + (k + 1))
      by (unfold k; lia).
    apply (read_hit Harch); [done| |].
    + by rewrite length_byte_order, length_BVV.
    + rewrite length_byte_order, (length_ptr Harch).
      pose proof (bits_bytes Harch).
      pose proof (Z.pow_gt_lin_r 2 (bits arch) ltac:(lia)). lia.
  - intros x Hd Hp. cbn [mem set_mem]. rewrite write_cells_other.
    + apply Hfr. intros i Hi. apply Hd. lia.
    + intros i Hi. apply Hp.
      rewrite length_byte_order, (length_ptr Harch) in Hi. done.
  - intros Hd Hsp i b Hi Hb. cbn [mem set_mem].
    rewrite read_write_other; [by eapply Hst; [|lia|..]|].
    intros i' j' Hi' Hj'. apply lookup_lt_Some in Hi as Hlt.
    rewrite length_app in Hlt. cbn in Hlt.
    rewrite length_byte_order, (length_ptr Harch) in Hj'.
    apply not_eq_sym.
    replace (d + Z.of_nat i * 4 + i') with (d + (Z.of_nat i * 4 + i')) by lia.
    apply (separate_ne Harch _ _ _ _ _ _ Hsp); lia.
  - destruct Hsame as (?&?&?). by split_and!.
  - intros Hd x Hx Hp. cbn [mem set_mem]. rewrite write_cells_other.
    + apply (Hco Hd). intros i Hi. apply Hx. lia.
    + intros i Hi. apply Hp.
      rewrite length_byte_order, (length_ptr Harch) in Hi. done.
Qed.

Lemma wide_at_lookup m a us (i : nat) u :
  wide_at m a us → us !! i = Some u →
  read_cells m (a + Z.of_nat i * 4) 4
    = Some (byte_order (memory_endness arch) (BVV u 32)).
Proof.
  revert a i. induction us as [|u' us IH]; intros a i Hw Hi; [done|].
  destruct Hw as [Hu Hw]. destruct i as [|i].
  - injection Hi as ->. by rewrite Z.add_0_r.
  - rewrite Nat2Z.inj_succ.
    replace (a + Z.succ (Z.of_nat i) * 4) with (a + 4 + Z.of_nat i * 4) by lia.
    by apply IH.
Qed.

Lemma wcsrtombs_spec (units : list Z) (N p S : Z) (len ps_ : list sbyte)
    (m : Z) (st : State) :
  let k := Z.of_nat (length units) in
  Forall (λ u, 0 < u < 2 ^ 32) units →
  read_cells (mem st) p (Z.to_nat arch_bytes)
    = Some (byte_order (memory_endness arch) (BVV S (bits arch))) →
  (∀ (i : nat) u, (units ++ [0]) !! i = Some u →
     read_cells (mem st) (S + Z.of_nat i * 4) 4
       = Some (byte_order (memory_endness arch) (BVV u 32))) →
  solver_max len st = (st, Val m) →
  k < Z.min 1024 m →
  separate N (k + 1) S (4 * (k + 1)) →
  ∃ st',
    libc_wcsrtombs (BVV N (bits arch)) (BVV p (bits arch)) len ps_ st
      = (st', Val (k + 1)) ∧
    load_at p arch_bytes (memory_endness arch) st'
      = (st', Val (BVV (S + (k + 1) * 4) (bits arch))) ∧
    (∀ x, (∀ i, 0 ≤ i < k + 1 → wrap (N + i) ≠ x) →
          (∀ i, 0 ≤ i < arch_bytes → wrap (p + i) ≠ x) →
          mem st' !! x = mem st !! x) ∧
    (wrap N ≠ 0 → separate p arch_bytes N (k + 1) →
     ∀ (i : nat) u, (units ++ [0]) !! i = Some u → u < 128 →
       mem st' !! wrap (N + Z.of_nat i) = Some (Conc u)) ∧
    same_but_mem st st' ∧
    (wrap N = 0 →
     ∀ x, (∀ i, 0 ≤ i < k → wrap (N + i) ≠ x) →
          (∀ i, 0 ≤ i < arch_bytes → wrap (p + i) ≠ x) →
          mem st' !! x = mem st !! x).
Proof.
  intros k Hnz Hcur Hstr Hmax Hk Hsep.
  pose proof (arch_bytes_ge Harch) as Hps.
  pose proof (space_large Harch) as HN.
  unfold libc_wcsrtombs, mbind at 1.
  rewrite (load_BVV Harch), (load_at_cells _ _ _ _ _ Hcur).
  unfold mbind at 1. rewrite Hmax. unfold mbind at 1.
  destruct (wcsrtombs_loop_spec units N S Hnz Hsep (length units) 0
              (Z.to_nat (Z.min wcsrtombs_max_dest_size m)) 0 st)
    as (st1 & E & Hfr & Hst & Hsame & Hco); [lia|lia| | |].
  { unfold wcsrtombs_max_dest_size. lia. }
  { done. }
  rewrite E. unfold mbind. rewrite (add_BVV Harch), (store_BVV Harch).
  rewrite mret_eq. eexists. split_and!.
  - done.
  - apply load_at_cells. cbn [mem set_mem]. unfold WCHAR_BYTES.
    replace (S + (0 + Z.of_nat (length units) + 1) * 4)
      with (S + (k + 1) * 4) by (unfold k; lia).
    apply (read_hit Harch); [done| |].
    + by rewrite length_byte_order, length_BVV.
    + rewrite length_byte_order, (length_ptr Harch).
      pose proof (bits_bytes Harch).
      pose proof (Z.pow_gt_lin_r 2 (bits arch) ltac:(lia)). lia.
  - intros x Hd Hp. cbn [mem set_mem]. rewrite write_cells_other.
    + apply Hfr. intros i Hi. apply Hd. lia.
    + intros i Hi. apply Hp.
      rewrite length_byte_order, (length_ptr Harch) in Hi. done.
  - intros Hd Hsp i b Hi Hb. cbn [mem set_mem].
    rewrite write_cells_other; [by eapply Hst; [|lia|..]|].
    intros j' Hj'. apply lookup_lt_Some in Hi as Hlt.
    rewrite length_app in Hlt. cbn in Hlt.
    rewrite length_byte_order, (length_ptr Harch) in Hj'.
    apply (separate_ne Harch _ _ _ _ _ _ Hsp); lia.
  - destruct Hsame as (?&?&?). by split_and!.
  - intros Hd x Hx Hp. cbn [mem set_mem]. rewrite write_cells_other.
    + apply (Hco Hd). intros i Hi. apply Hx. lia.
    + intros i Hi. apply Hp.
      rewrite length_byte_order, (length_ptr Harch) in Hi. done.
Qed.

Lemma zero_extend_byte b :
  0 ≤ b < 256 → zero_extend [Conc b] 24 = BVV b 32.
Proof.
  intros Hb. unfold zero_extend, BVV.
  change (Z.to_nat (24 `div` 8)) with 3%nat.
  change (Z.to_nat (32 `div` 8)) with 4%nat.
  cbn [be_bytes app fmap list_fmap].
  rewrite (Z.div_small b 256), (Z.mod_small b 256) by lia. done.
Qed.

(** C5, as amended.  The source is concrete and ends in its first zero
    unit within the length bound, and the destination range (four cells a
    unit for mbsrtowcs, one for wcsrtombs, the terminator's included) does
    not overlap it.  Both converters then answer the number of units up to
    and including the terminator and write the cursor back advanced by that
    many units (bytes for mbsrtowcs, four bytes a unit for wcsrtombs).
    When the cursor lies outside the destination range as well: with a
    destination other than 0 the converted terminator lies in the
    destination after the call, right after the units before it; with
    destination 0 the terminator is counted and not stored, the cells where
    it would lie hold what they held before the call. *)
Theorem converters_stop_at_terminator (d p S : Z) (len ps_ : list sbyte)
    (m : Z) (st : State) :
  read_cells (mem st) p (Z.to_nat arch_bytes)
    = Some (byte_order (memory_endness arch) (BVV S (bits arch))) →
  solver_max len st = (st, Val m) →
  (∀ body : list Z,
     let k := Z.of_nat (length body) in
     Forall (λ b, b ≠ 0) body →
     read_cells (mem st) S (length body + 1) = Some (Conc <$> (body ++ [0])) →
     k < Z.min 1024 m →
     separate d (4 * (k + 1)) S (k + 1) →
     ∃ st',
       libc_mbsrtowcs (BVV d (bits arch)) (BVV p (bits arch)) len ps_ st
         = (st', Val (k + 1)) ∧
       load_at p arch_bytes (memory_endness arch) st'
         = (st', Val (BVV (S + (k + 1)) (bits arch))) ∧
       (wrap d ≠ 0 → separate p arch_bytes d (4 * (k + 1)) →
        read_cells (mem st') (d + k * 4) 4
          = Some (byte_order (memory_endness arch) (BVV 0 32))) ∧
       (wrap d = 0 → separate p arch_bytes d (4 * (k + 1)) →
        read_cells (mem st') (d + k * 4) 4
          = read_cells (mem st) (d + k * 4) 4)) ∧
  (∀ units : list Z,
     let k := Z.of_nat (length units) in
     Forall (λ u, 0 < u < 2 ^ 32) units →
     wide_at (mem st) S (units ++ [0]) →
     k < Z.min 1024 m →
     separate d (k + 1) S (4 * (k + 1)) →
     ∃ st',
       libc_wcsrtombs (BVV d (bits arch)) (BVV p (bits arch)) len ps_ st
         = (st', Val (k + 1)) ∧
       load_at p arch_bytes (memory_endness arch) st'
         = (st', Val (BVV (S + (k + 1) * 4) (bits arch))) ∧
       (wrap d ≠ 0 → separate p arch_bytes d (k + 1) →
        mem st' !! wrap (d + k) = Some (Conc 0)) ∧
       (wrap d = 0 → separate p arch_bytes d (k + 1) →
        mem st' !! wrap (d + k) = mem st !! wrap (d + k))).
Proof.
  intros Hcur Hmax. split.
  - intros body k Hnz Hstr Hk Hsep.
    destruct (mbsrtowcs_spec body d p S len ps_ m st Hnz Hcur Hstr Hmax Hk Hsep)
      as (st' & E & Hp & _ & Hst & _ & Hco).
    exists st'. split_and!; try done.
    + intros Hd Hsp. unfold k.
      apply (Hst Hd Hsp (length body) 0); [|lia].
      rewrite lookup_app_r by lia. by rewrite Nat.sub_diag.
    + intros Hd Hsp. pose proof (separate_small _ _ _ _ Hsep) as [Hk4 _].
      apply read_cells_ext. intros i Hi. apply (Hco Hd).
      * intros i0 Hi0.
        replace (d + k * 4 + i) with (d + (k * 4 + i)) by lia.
        apply (wrap_ne Harch). fold k in Hi0. lia.
      * intros i0 Hi0.
        replace (d + k * 4 + i) with (d + (k * 4 + i)) by lia.
        apply (separate_ne Harch _ _ _ _ _ _ Hsp); lia.
  - intros units k Hnz Hstr Hk Hsep.
    destruct (wcsrtombs_spec units d p S len ps_ m st Hnz Hcur) 
      as (st' & E & Hp & _ & Hst & _ & Hco); [|done|done|done|].
    { intros i u Hi. by eapply wide_at_lookup. }
    exists st'. split_and!; try done.
    + intros Hd Hsp. unfold k.
      apply (Hst Hd Hsp (length units) 0); [|lia].
      rewrite lookup_app_r by lia. by rewrite Nat.sub_diag.
    + intros Hd Hsp. pose proof (separate_small _ _ _ _ Hsep) as [Hk1 _].
      apply (Hco Hd).
      * intros i0 Hi0. apply (wrap_ne Harch). fold k in Hi0. lia.
      * intros i0 Hi0. apply (separate_ne Harch _ _ _ _ _ _ Hsp); lia.
Qed.

(** C2.  An all-ASCII string that ends in a zero byte, converted to wide
    characters at a destination other than 0 and back: every byte is
    carried over by zero extension to four bytes, and the bytes that come
    back are the original ones.  The buffers and the two cursors do not
    overlap, and both length bounds reach the terminator. *)
Theorem ascii_round_trip (body : list Z) (d p1 S : Z)
    (len1 ps1 : list sbyte) (m1 : Z) (st : State) :
  let k := Z.of_nat (length body) in
  Forall (λ b, 0 < b < 128) body →
  read_cells (mem st) p1 (Z.to_nat arch_bytes)
    = Some (byte_order (memory_endness arch) (BVV S (bits arch))) →
  read_cells (mem st) S (length body + 1) = Some (Conc <$> (body ++ [0])) →
  solver_max len1 st = (st, Val m1) →
  k < Z.min 1024 m1 →
  wrap d ≠ 0 →
  separate d (4 * (k + 1)) S (k + 1) →
  separate p1 arch_bytes d (4 * (k + 1)) →
  ∃ st1,
    libc_mbsrtowcs (BVV d (bits arch)) (BVV p1 (bits arch)) len1 ps1 st
      = (st1, Val (k + 1)) ∧
    (∀ (i : nat) b, (body ++ [0]) !! i = Some b →
       read_cells (mem st1) (d + Z.of_nat i * 4) 4
         = Some (byte_order (memory_endness arch)
                   (zero_extend [Conc b] 24))) ∧
    ∀ (N p2 : Z) (len2 ps2 : list sbyte) (m2 : Z),
      read_cells (mem st1) p2 (Z.to_nat arch_bytes)
        = Some (byte_order (memory_endness arch) (BVV d (bits arch))) →
      solver_max len2 st1 = (st1, Val m2) →
      k < Z.min 1024 m2 →
      wrap N ≠ 0 →
      separate N (k + 1) d (4 * (k + 1)) →
      separate p2 arch_bytes N (k + 1) →
      ∃ st2,
        libc_wcsrtombs (BVV N (bits arch)) (BVV p2 (bits arch)) len2 ps2 st1
          = (st2, Val (k + 1)) ∧
        read_cells (mem st2) N (length body + 1)
          = Some (Conc <$> (body ++ [0])).
Proof.
  intros k Hascii Hcur Hstr Hmax Hk Hd Hsep Hsp.
  assert (∀ (i : nat) b, (body ++ [0]) !! i = Some b → 0 ≤ b < 128) as Hall.
  { intros i b [Hi|[_ Hi]]%lookup_app_Some.
    - pose proof (Forall_lookup_1 _ _ _ _ Hascii Hi) as Hb. cbn in Hb. lia.
    - apply list_lookup_singleton_Some in Hi as [_ <-]. lia. }
  destruct (mbsrtowcs_spec body d p1 S len1 ps1 m1 st
              ltac:(eapply Forall_impl; [exact Hascii|]; cbn; lia)
              Hcur Hstr Hmax Hk Hsep)
    as (st1 & E & _ & _ & Hst & _).
  exists st1. split_and!; [done| |].
  { intros i b Hi. apply (Hst Hd Hsp i b Hi). apply (Hall _ _ Hi). }
  intros N p2 len2 ps2 m2 Hcur2 Hmax2 Hk2 HN Hsep2 Hsp2.
  assert (∀ (i : nat) u, (body ++ [0]) !! i = Some u →
            read_cells (mem st1) (d + Z.of_nat i * 4) 4
            = Some (byte_order (memory_endness arch) (BVV u 32))) as Hwide.
  { intros i b Hi. rewrite (Hst Hd Hsp i b Hi) by apply (Hall _ _ Hi).
    rewrite zero_extend_byte; [done|]. pose proof (Hall _ _ Hi). lia. }
  destruct (wcsrtombs_spec body N p2 d len2 ps2 m2 st1
              ltac:(eapply Forall_impl; [exact Hascii|]; cbn; lia)
              Hcur2 Hwide Hmax2 Hk2 Hsep2)
    as (st2 & E2 & _ & _ & Hst2 & _).
  exists st2. split; [done|].
  replace (length body + 1)%nat with (length (Conc <$> (body ++ [0])))
    by (rewrite length_fmap, length_app; done).
  apply read_cells_Some. intros i c Hi.
  rewrite list_lookup_fmap in Hi.
  destruct ((body ++ [0]) !! i) as [b|] eqn:Hb; [|done].
  injection Hi as <-. apply (Hst2 HN Hsp2 i b Hb). apply (Hall _ _ Hb).
Qed.

(** Count-only mode on units below 0x80: the loops leave the state as it
    is, and the calls write the cursor and nothing else. *)
Lemma mbsrtowcs_loop_count_only (body : list Z) d S :
  Forall (λ b, b ≠ 0 ∧ b < 128) body →
  wrap d = 0 →
  ∀ (m : nat) (j : Z) (n : nat) ret st,
    0 ≤ j → j + Z.of_nat m = Z.of_nat (length body) → (m < n)%nat →
    (∀ (i : nat) b, (body ++ [0]) !! i = Some b →
       mem st !! wrap (S + Z.of_nat i) = Some (Conc b)) →
    mbsrtowcs_loop n j (BVV d (bits arch)) (BVV S (bits arch)) ret st
      = (st, Val (ret + Z.of_nat m + 1)).
Proof.
  intros Hb Hd m.
  induction m as [|m IH]; intros j n ret st Hj Hjm Hn Hsrc.
  - destruct n as [|n]; [lia|]. cbn [mbsrtowcs_loop]. unfold mbind at 1.
    assert ((body ++ [0]) !! Z.to_nat j = Some 0) as Hterm.
    { rewrite lookup_app_r by lia.
      replace (Z.to_nat j - length body)%nat with 0%nat by lia. done. }
    pose proof (Hsrc _ _ Hterm) as Hcell. rewrite Z2Nat.id in Hcell by lia.
    destruct (mbsrtowcs_round_spec j d S ret 0 st Hcell)
      as (st1 & E & _ & _ & Hsame & _).
    rewrite E, (Hsame Hd) by lia. rewrite bool_decide_true by done.
    cbn [fst snd]. rewrite mret_eq. do 2 f_equal. lia.
  - destruct n as [|n]; [lia|]. cbn [mbsrtowcs_loop]. unfold mbind at 1.
    assert (Z.to_nat j < length body)%nat as Hlt by lia.
    destruct (lookup_lt_is_Some_2 body _ Hlt) as [b Hbj].
    assert ((body ++ [0]) !! Z.to_nat j = Some b) as Hb'
      by (by rewrite lookup_app_l).
    pose proof (Hsrc _ _ Hb') as Hcell. rewrite Z2Nat.id in Hcell by lia.
    pose proof (Forall_lookup_1 _ _ _ _ Hb Hbj) as [Hbnz Hb128].
    destruct (mbsrtowcs_round_spec j d S ret b st Hcell)
      as (st1 & E & _ & _ & Hsame & _).
    rewrite E, (Hsame Hd Hb128). rewrite bool_decide_false by done.
    cbn [fst snd]. rewrite IH by (done || lia). do 2 f_equal. lia.
Qed.

Lemma wcsrtombs_loop_count_only (units : list Z) N S :
  Forall (λ u, 0 < u < 128) units →
  wrap N = 0 →
  ∀ (m : nat) (j : Z) (n : nat) ret st,
    0 ≤ j → j + Z.of_nat m = Z.of_nat (length units) → (m < n)%nat →
    (∀ (i : nat) u, (units ++ [0]) !! i = Some u →
       read_cells (mem st) (S + Z.of_nat i * 4) 4
         = Some (byte_order (memory_endness arch) (BVV u 32))) →
    wcsrtombs_loop n j (BVV N (bits arch)) (BVV S (bits arch)) ret st
      = (st, Val (ret + Z.of_nat m + 1)).
Proof.
  intros Hb Hd m.
  induction m as [|m IH]; intros j n ret st Hj Hjm Hn Hsrc.
  - destruct n as [|n]; [lia|]. cbn [wcsrtombs_loop]. unfold mbind at 1.
    assert ((units ++ [0]) !! Z.to_nat j = Some 0) as Hterm.
    { rewrite lookup_app_r by lia.
      replace (Z.to_nat j - length units)%nat with 0%nat by lia. done. }
    pose proof (Hsrc _ _ Hterm) as Hcell. rewrite Z2Nat.id in Hcell by lia.
    destruct (wcsrtombs_round_spec j N S ret 0 st ltac:(lia) Hcell)
      as (st1 & E & _ & _ & Hsame & _).
    rewrite E, (Hsame Hd) by lia. rewrite bool_decide_true by done.
    cbn [fst snd]. rewrite mret_eq. do 2 f_equal. lia.
  - destruct n as [|n]; [lia|]. cbn [wcsrtombs_loop]. unfold mbind at 1.
    assert (Z.to_nat j < length units)%nat as Hlt by lia.
    destruct (lookup_lt_is_Some_2 units _ Hlt) as [b Hbj].
    assert ((units ++ [0]) !! Z.to_nat j = Some b) as Hb'
      by (by rewrite lookup_app_l).
    pose proof (Hsrc _ _ Hb') as Hcell. rewrite Z2Nat.id in Hcell by lia.
    pose proof (Forall_lookup_1 _ _ _ _ Hb Hbj) as Hb128. cbn in Hb128.
    destruct (wcsrtombs_round_spec j N S ret b st ltac:(lia) Hcell)
      as (st1 & E & _ & _ & Hsame & _).
    rewrite E, (Hsame Hd) by lia. rewrite bool_decide_false by lia.
    cbn [fst snd]. rewrite IH by (done || lia). do 2 f_equal. lia.
Qed.

Lemma count_only_ascii_writes_cursor_only (d p S : Z)
    (len ps_ : list sbyte) (m : Z) (st : State) :
  wrap d = 0 →
  read_cells (mem st) p (Z.to_nat arch_bytes)
    = Some (byte_order (memory_endness arch) (BVV S (bits arch))) →
  solver_max len st = (st, Val m) →
  (∀ body : list Z,
     let k := Z.of_nat (length body) in
     Forall (λ b, b ≠ 0 ∧ b < 128) body →
     read_cells (mem st) S (length body + 1) = Some (Conc <$> (body ++ [0])) →
     k < Z.min 1024 m →
     libc_mbsrtowcs (BVV d (bits arch)) (BVV p (bits arch)) len ps_ st
       = (set_mem
            (write_cells (mem st) p
               (byte_order (memory_endness arch)
                  (BVV (S + (k + 1)) (bits arch)))) st,
          Val (k + 1))) ∧
  (∀ units : list Z,
     let k := Z.of_nat (length units) in
     Forall (λ u, 0 < u < 128) units →
     wide_at (mem st) S (units ++ [0]) →
     k < Z.min 1024 m →
     libc_wcsrtombs (BVV d (bits arch)) (BVV p (bits arch)) len ps_ st
       = (set_mem
            (write_cells (mem st) p
               (byte_order (memory_endness arch)
                  (BVV (S + (k + 1) * 4) (bits arch)))) st,
          Val (k + 1))).
Proof.
  intros Hd Hcur Hmax. split.
  - intros body k Hb Hstr Hk.
    unfold libc_mbsrtowcs, mbind at 1.
    rewrite (load_BVV Harch), (load_at_cells _ _ _ _ _ Hcur).
    unfold mbind at 1. rewrite Hmax. unfold mbind at 1.
    rewrite (mbsrtowcs_loop_count_only body d S Hb Hd (length body) 0).
    + unfold mbind. rewrite (add_BVV Harch), (store_BVV Harch), mret_eq.
      do 4 f_equal; unfold k; lia.
    + lia.
    + lia.
    + unfold mbsrtowcs_max_dest_size. lia.
    + intros i b Hi. eapply read_cells_lookup; [exact Hstr|].
      by rewrite list_lookup_fmap, Hi.
  - intros units k Hb Hstr Hk.
    unfold libc_wcsrtombs, mbind at 1.
    rewrite (load_BVV Harch), (load_at_cells _ _ _ _ _ Hcur).
    unfold mbind at 1. rewrite Hmax. unfold mbind at 1.
    rewrite (wcsrtombs_loop_count_only units d S Hb Hd (length units) 0).
    + unfold mbind. rewrite (add_BVV Harch), (store_BVV Harch), mret_eq.
      unfold WCHAR_BYTES. do 4 f_equal; unfold k; lia.
    + lia.
    + lia.
    + unfold wcsrtombs_max_dest_size. lia.
    + intros i u Hi. by eapply wide_at_lookup.
Qed.

End Converters.

Lemma example_arch_ok : arch_ok (H := example_host []).
Proof. split; [vm_compute; discriminate | reflexivity]. Qed.

(** "Hi" at 512 is converted to 1024, and the wide "Hi" at 768 to 2048;
    with destination 0 the three units of "Hi" are counted and the cells 8
    to 11, where the wide terminator would lie, stay unmapped. *)
Lemma converters_stop_at_terminator_witness :
  (∃ st',
     libc_mbsrtowcs (H := example_host []) (BVV 1024 64) (BVV 256 64)
                    (BVV 16 64) (BVV 0 64) converter_state
       = (st', Val 3) ∧
     load_at (H := example_host []) 256 8 Iend_LE st'
       = (st', Val (BVV 515 64)) ∧
     read_cells (H := example_host []) (mem st') 1032 4
       = Some (BVV 0 32)) ∧
  (∃ st',
     libc_wcsrtombs (H := example_host []) (BVV 2048 64) (BVV 272 64)
                    (BVV 16 64) (BVV 0 64) converter_state
       = (st', Val 3) ∧
     load_at (H := example_host []) 272 8 Iend_LE st'
       = (st', Val (BVV 780 64)) ∧
     mem st' !! 2050 = Some (Conc 0)) ∧
  (∃ st',
     libc_mbsrtowcs (H := example_host []) (BVV 0 64) (BVV 256 64)
                    (BVV 16 64) (BVV 0 64) converter_state
       = (st', Val 3) ∧
     read_cells (H := example_host []) (mem st') 8 4 = None).
Proof.
  split_and!.
  - destruct (converters_stop_at_terminator (H := example_host [])
                example_arch_ok 1024 256 512 (BVV 16 64) (BVV 0 64) 16
                converter_state eq_refl eq_refl) as [W _].
    destruct (W [72; 105]) as (st' & E & Hp & T & _).
    + repeat constructor; discriminate.
    + reflexivity.
    + zcheck.
    + split; zcheck.
    + exists st'. split_and!; [exact E | exact Hp |].
      apply T; [zcheck | split; zcheck].
  - destruct (converters_stop_at_terminator (H := example_host [])
                example_arch_ok 2048 272 768 (BVV 16 64) (BVV 0 64) 16
                converter_state eq_refl eq_refl) as [_ W].
    destruct (W [72; 105]) as (st' & E & Hp & T & _).
    + repeat constructor; zcheck.
    + repeat split.
    + zcheck.
    + split; zcheck.
    + exists st'. split_and!; [exact E | exact Hp |].
      apply T; [zcheck | split; zcheck].
  - destruct (converters_stop_at_terminator (H := example_host [])
                example_arch_ok 0 256 512 (BVV 16 64) (BVV 0 64) 16
                converter_state eq_refl eq_refl) as [W _].
    destruct (W [72; 105]) as (st' & E & _ & _ & T).
    + repeat constructor; discriminate.
    + reflexivity.
    + zcheck.
    + split; zcheck.
    + exists st'. split; [exact E |].
      change (0 + Z.of_nat (length [72; 105]) * 4) with 8 in T.
      rewrite T; [reflexivity | reflexivity | split; zcheck].
Defined.

(** The claim as stated fails three ways, all on the string "Hi" at 512
    with the cursor at 256 and a bound of 16.  In count-only mode,
    destination 0, the three units are counted, the cursor is advanced and
    nothing else is written: the slot of the terminator, [dest + 2 * 4],
    stays unmapped.  With the destination on the source itself, the wide
    'H' stored in the first round puts a zero byte over 'i': the call
    stops there and answers 2, although the terminator of the string is
    its third unit.  With the destination at 248, whose third wide
    character is the cell of the cursor, the call answers 3 and the slot
    of the terminator holds the low bytes of the cursor, 03 02 00 00. *)
Lemma terminator_lost_or_not_stored :
  read_cells (H := example_host []) (mem converter_state) 512 3
    = Some (Conc <$> [72; 105; 0]) ∧
  (∃ st',
     libc_mbsrtowcs (H := example_host []) (BVV 0 64) (BVV 256 64)
                    (BVV 16 64) (BVV 0 64) converter_state
       = (st', Val 3) ∧
     mem st' = poke (mem converter_state) 256 [3; 2; 0; 0; 0; 0; 0; 0] ∧
     read_cells (H := example_host []) (mem st') 8 4 = None) ∧
  (∃ st',
     libc_mbsrtowcs (H := example_host []) (BVV 512 64) (BVV 256 64)
                    (BVV 16 64) (BVV 0 64) converter_state
       = (st', Val 2) ∧
     load_at (H := example_host []) 256 8 Iend_LE st'
       = (st', Val (BVV 514 64))) ∧
  (∃ st',
     libc_mbsrtowcs (H := example_host []) (BVV 248 64) (BVV 256 64)
                    (BVV 16 64) (BVV 0 64) converter_state
       = (st', Val 3) ∧
     read_cells (H := example_host []) (mem st') 256 4
       = Some (Conc <$> [3; 2; 0; 0])).
Proof.
  split_and!; [reflexivity | ..];
    (eexists; split_and!; [vm_compute; reflexivity | reflexivity..]).
Qed.

(** "Hi" at 512 goes to wide characters at 1024 and comes back at 2048. *)
Lemma ascii_round_trip_witness :
  ∃ st1 st2,
    libc_mbsrtowcs (H := example_host []) (BVV 1024 64) (BVV 256 64)
                   (BVV 16 64) (BVV 0 64) converter_state
      = (st1, Val 3) ∧
    libc_wcsrtombs (H := example_host []) (BVV 2048 64) (BVV 264 64)
                   (BVV 16 64) (BVV 0 64) st1
      = (st2, Val 3) ∧
    read_cells (H := example_host []) (mem st2) 2048 3
      = Some (Conc <$> [72; 105; 0]).
Proof.
  destruct (ascii_round_trip (H := example_host []) example_arch_ok
              [72; 105] 1024 256 512 (BVV 16 64) (BVV 0 64) 16
              converter_state) as (st1 & E & _ & W).
  - repeat constructor; zcheck.
  - reflexivity.
  - reflexivity.
  - reflexivity.
  - zcheck.
  - zcheck.
  - split; zcheck.
  - split; zcheck.
  - pose proof (f_equal fst E) as E1. cbn [fst] in E1.
    destruct (W 2048 264 (BVV 16 64) (BVV 0 64) 16) as (st2 & E2 & R).
    + rewrite <- E1. reflexivity.
    + rewrite <- E1. reflexivity.
    + zcheck.
    + zcheck.
    + split; zcheck.
    + split; zcheck.
    + exists st1, st2. split_and!; [exact E | exact E2 | exact R].
Defined.

(** C6.  Count-only mode, destination 0, and a first source unit of 0x80
    or more: mbsrtowcs stores the four cells of a new symbolic wide
    character at address 0, and wcsrtombs stores a new symbolic byte there.
    Before the calls these addresses are unmapped.  (On units below 0x80
    count-only mode does hold: [count_only_ascii_writes_cursor_only].) *)
Theorem count_only_fallback_writes :
  read_cells (H := example_host []) (mem converter_state) 0 4 = None ∧
  (∃ st',
     libc_mbsrtowcs (H := example_host []) (BVV 0 64) (BVV 280 64)
                    (BVV 16 64) (BVV 0 64) converter_state
       = (st', Val 2) ∧
     read_cells (H := example_host []) (mem st') 0 4
       = Some (sym_cells "mbsrtowcs_0" 0 4)) ∧
  (∃ st',
     libc_wcsrtombs (H := example_host []) (BVV 0 64) (BVV 288 64)
                    (BVV 16 64) (BVV 0 64) converter_state
       = (st', Val 2) ∧
     mem st' !! 0 = Some (Sym "wcsrtombs_0" 0 0)).
Proof.
  split_and!; [reflexivity | |];
    (eexists; split; [vm_compute; reflexivity | reflexivity]).
Qed.

(** ** getenv *)

Lemma utf8_decode_ascii_app (key rest : list Z) :
  Forall (λ b, 0 ≤ b < 128) key →
  utf8_decode (key ++ rest) = (key ++.) <$> utf8_decode rest.
Proof.
  induction 1 as [|b key Hb _ IH]; cbn [app utf8_decode].
  - by destruct (utf8_decode rest).
  - unfold between at 1. rewrite bool_decide_true by lia.
    rewrite IH. by destruct (utf8_decode rest).
Qed.

Lemma split_eq_0_app (key rest : list Z) :
  Forall (λ b, b ≠ 61) key → split_eq_0 (key ++ 61 :: rest) = key.
Proof.
  induction 1 as [|b key Hb _ IH]; cbn [app split_eq_0].
  - done.
  - rewrite bool_decide_false by done. by rewrite IH.
Qed.

Section Getenv.
Context `{Host}.
Hypothesis Harch : arch_ok.

Lemma entry_concrete st at_ ptr raw name_str ret_val disj :
  entry_at st at_ ptr raw →
  getenv_entry (Some name_str) ret_val at_ disj st
  = match utf8_decode raw with
    | None => (st, Raise UnicodeDecodeError)
    | Some text =>
      if bool_decide (split_eq_0 text = name_str)
      then (st, Val (WReturn (PInt (ptr + Z.of_nat (length (split_eq_0 text)) + 1))))
      else (st, Val (WNext disj))
    end.
Proof.
  intros (Hcell & Hptr & Hlen & Hraw).
  unfold getenv_entry, mbind at 1.
  rewrite (load_at_cells _ _ _ _ _ Hcell). unfold mbind at 1.
  rewrite (solver_eval_concrete _ (wrap ptr)) by apply (concrete_ptr Harch).
  rewrite wrap_small by lia. rewrite bool_decide_false by lia.
  unfold mbind at 1.
  destruct (strlen (BVV ptr (bits arch)) st) as [st' [r| | |]]; try done.
  destruct Hlen as [-> Hr].
  unfold mbind at 1. unfold load_sized, mbind at 1.
  rewrite (solver_max_concrete _ _ _ Hr).
  rewrite (load_BVV Harch). unfold load_at. rewrite Nat2Z.id, Hraw.
  cbn [byte_order]. rewrite bv_bytes_Conc.
  destruct (utf8_decode raw) as [text|]; [|done].
  by case_bool_decide.
Qed.

Lemma walk_other_entries key ret_val entries :
  ∀ at_ st fuel disj,
    other_entries st at_ entries key →
    getenv_walk (length entries + fuel) (Some key) ret_val at_ disj st
    = getenv_walk fuel (Some key) ret_val
        (at_ + Z.of_nat (length entries) * arch_bytes) disj st.
Proof.
  induction entries as [|[ptr raw] entries IH]; intros at_ st fuel disj Hall.
  - cbn [length Nat.add]. f_equal. lia.
  - destruct Hall as (He & Hkey & Hrest).
    cbn [length Nat.add getenv_walk]. unfold mbind at 1, try_except.
    rewrite (entry_concrete _ _ _ _ _ _ _ He).
    destruct (utf8_decode raw) as [text|]; [|done].
    rewrite bool_decide_false by done. rewrite IH by done.
    f_equal. lia.
Qed.

Lemma read_cells_tail m a (l1 l2 : list sbyte) :
  read_cells m a (length (l1 ++ l2)) = Some (l1 ++ l2) →
  read_cells m (a + Z.of_nat (length l1)) (length l2) = Some l2.
Proof.
  intros Hr. apply read_cells_Some. intros i c Hi.
  replace (a + Z.of_nat (length l1) + Z.of_nat i)
    with (a + Z.of_nat (length l1 + i)) by lia.
  eapply read_cells_lookup; [exact Hr|].
  by rewrite lookup_app_r, Nat.add_comm, Nat.add_sub by lia.
Qed.

(** C3, as amended.  The name is concrete ASCII text without '='.  The
    entries before the first match, and the matching entry, are concrete
    well-formed UTF-8; the matching entry is the name, '=' and a value.  The
    call answers the address of that entry plus the length of the name plus
    1, which is where the value lies; it adds no constraint.  Nothing is
    assumed of what follows the matching entry in the list. *)
Theorem getenv_first_match (a E ptr : Z) (key value : list Z)
    (before : list (Z * list Z)) (fuel : nat) (st : State) :
  let st0 :=
    {| mem := mem st; constraints := constraints st;
       next_uid := S (next_uid st); heap_location := heap_location st;
       posix_environ := posix_environ st |} in
  Forall (λ b, 0 ≤ b < 128 ∧ b ≠ 61) key →
  match strlen (BVV a (bits arch)) st with
  | (st', Val r) =>
    st' = st ∧ bv_concrete (ret_expr r) = Some (Z.of_nat (length key))
  | _ => False
  end →
  read_cells (mem st) a (length key) = Some (Conc <$> key) →
  bv_concrete (posix_environ st) = Some E →
  other_entries st0 E before key →
  entry_at st0 (E + Z.of_nat (length before) * arch_bytes) ptr
           (key ++ 61 :: value) →
  is_Some (utf8_decode value) →
  (length before < fuel)%nat →
  libc_getenv fuel (BVV a (bits arch)) st
    = (st0, Val (PInt (ptr + Z.of_nat (length key) + 1))) ∧
  read_cells (mem st0) (ptr + Z.of_nat (length key) + 1) (length value)
    = Some (Conc <$> value).
Proof.
  intros st0 Hkey Hlen Hname Henv Hbefore Hentry [text Htext] Hfuel.
  assert (Forall (λ b, 0 ≤ b < 128) key) as Hascii
    by (eapply Forall_impl; [exact Hkey|]; cbn; lia).
  assert (Forall (λ b, b ≠ 61) key) as Hne
    by (eapply Forall_impl; [exact Hkey|]; cbn; lia).
  split.
  - unfold libc_getenv, mbind at 1. unfold getenv_setup, mbind at 1.
    destruct (strlen (BVV a (bits arch)) st) as [st' [r| | |]]; try done.
    destruct Hlen as [-> Hr].
    unfold mbind at 1. unfold load_sized, mbind at 1.
    rewrite (solver_max_concrete _ _ _ Hr).
    rewrite (load_BVV Harch). unfold load_at. rewrite Nat2Z.id, Hname.
    cbn [byte_order]. unfold mbind at 1. rewrite bv_bytes_Conc.
    pose proof (utf8_decode_ascii_app key [] Hascii) as Hdec.
    rewrite app_nil_r in Hdec. cbn in Hdec. rewrite app_nil_r in Hdec.
    rewrite Hdec, mret_eq. unfold mbind at 1. unfold get_state.
    unfold mbind at 1. rewrite (solver_eval_concrete _ _ _ Henv).
    unfold mbind at 1. rewrite BVS_eq, mret_eq. fold st0.
    replace fuel with (length before + (fuel - length before))%nat by lia.
    rewrite walk_other_entries by done.
    destruct (fuel - length before)%nat as [|fuel'] eqn:Ef; [lia|].
    cbn [getenv_walk]. unfold mbind at 1, try_except.
    rewrite (entry_concrete _ _ _ _ _ _ _ Hentry).
    rewrite utf8_decode_ascii_app by done.
    change (61 :: value) with ([61] ++ value).
    rewrite (utf8_decode_ascii_app [61]) by (repeat constructor; lia).
    rewrite Htext. cbn [fmap option_fmap option_map app].
    rewrite split_eq_0_app by done. rewrite bool_decide_true by done.
    done.
  - destruct Hentry as (_ & _ & _ & Hraw).
    replace (ptr + Z.of_nat (length key) + 1)
      with (ptr + Z.of_nat (length (Conc <$> (key ++ [61])))).
    2:{ rewrite length_fmap, length_app. cbn. lia. }
    rewrite <- (length_fmap Conc value).
    apply read_cells_tail. rewrite <- fmap_app, <- app_assoc. cbn [app].
    by rewrite length_fmap.
Qed.

Lemma walk_prefix_walk name_str ret_val n :
  ∀ envpp disj st stn an dn fuel,
    walk_prefix n name_str ret_val envpp disj st = Some (stn, an, dn) →
    getenv_walk (n + fuel) name_str ret_val envpp disj st
    = getenv_walk fuel name_str ret_val an dn stn.
Proof.
  induction n as [|n IH]; intros envpp disj st stn an dn fuel Hp.
  - by injection Hp as -> -> ->.
  - cbn [walk_prefix] in Hp. cbn [Nat.add getenv_walk].
    unfold mbind at 1, try_except.
    destruct (getenv_entry name_str ret_val envpp disj st)
      as [st1 [[| |d1]| | |]]; try done.
    by apply IH.
Qed.

Lemma walk_prefix_place name_str ret_val n :
  ∀ envpp disj st stn an dn,
    walk_prefix n name_str ret_val envpp disj st = Some (stn, an, dn) →
    an = envpp + Z.of_nat n * arch_bytes.
Proof.
  induction n as [|n IH]; intros envpp disj st stn an dn Hp.
  - injection Hp as -> -> ->. lia.
  - cbn [walk_prefix] in Hp.
    destruct (getenv_entry name_str ret_val envpp disj st)
      as [st1 [[| |d1]| | |]]; try done.
    apply IH in Hp. lia.
Qed.

Ltac bind_inv H :=
  unfold mbind at 1 in H;
  match type of H with
  | context [match ?m ?st with _ => _ end] =>
    let E := fresh "E" in
    destruct (m st) as [? [?| | |]] eqn:E; try discriminate H
  end.

Lemma entry_shape name_str ret_val envpp disj st st1 disj1 :
  getenv_entry name_str ret_val envpp disj st = (st1, Val (WNext disj1)) →
  disj1 = disj ∨ ∃ q, is_span ret_val q ∧ disj1 = Or disj q.
Proof.
  unfold getenv_entry. intros Hb.
  bind_inv Hb. bind_inv Hb.
  case_bool_decide; [discriminate Hb|].
  bind_inv Hb. bind_inv Hb.
  destruct name_str as [name_str|].
  - destruct (bv_bytes _) as [raw|].
    + destruct (utf8_decode raw) as [text|]; [|discriminate Hb].
      case_bool_decide; [discriminate Hb|].
      injection Hb as _ <-. by left.
    + bind_inv Hb. injection Hb as _ <-. right.
      by eexists; split; [eexists _, _|].
  - bind_inv Hb. injection Hb as _ <-. right.
    by eexists; split; [eexists _, _|].
Qed.

Lemma walk_prefix_shape name_str ret_val n :
  ∀ envpp disj st stn an dn,
    walk_prefix n name_str ret_val envpp disj st = Some (stn, an, dn) →
    ∃ spans,
      disjuncts dn = disjuncts disj ++ spans ∧
      Forall (is_span ret_val) spans ∧ (length spans ≤ n)%nat.
Proof.
  induction n as [|n IH]; intros envpp disj st stn an dn Hp.
  - injection Hp as -> -> ->. exists []. by rewrite app_nil_r.
  - cbn [walk_prefix] in Hp.
    destruct (getenv_entry name_str ret_val envpp disj st)
      as [st1 [[| |d1]| | |]] eqn:Eb; try done.
    apply IH in Hp as (spans & Hd & Hs & Hl).
    apply entry_shape in Eb as [->|(q & Hq & ->)].
    + exists spans. split_and!; [done|done|lia].
    + exists (q :: spans). cbn [disjuncts] in Hd.
      rewrite <- app_assoc in Hd. split_and!; [done| |cbn; lia].
      by constructor.
Qed.

Lemma setup_fresh name st st0 name_str envpp ret_val :
  getenv_setup name st = (st0, Val (name_str, envpp, ret_val)) →
  ∃ uid, ret_val = sym_cells "getenv" uid (Z.to_nat (bits arch / 8)) ∧
         next_uid st0 = S uid.
Proof.
  unfold getenv_setup. intros Hs.
  bind_inv Hs. bind_inv Hs. bind_inv Hs. bind_inv Hs. bind_inv Hs.
  bind_inv Hs. rewrite mret_eq in Hs. rewrite BVS_eq in E4.
  injection E4 as <- <-. injection Hs as <- _ _ <-. by eexists.
Qed.

Lemma getenv_walk_never_raises fuel :
  ∀ name_str ret_val envpp disj st e,
    (getenv_walk fuel name_str ret_val envpp disj st).2 ≠ Raise e.
Proof.
  induction fuel as [|fuel IH]; intros name_str ret_val envpp disj st e.
  - done.
  - cbn [getenv_walk]. unfold mbind at 1, try_except.
    destruct (getenv_entry name_str ret_val envpp disj st)
      as [st1 [[| |d1]| | |]]; first [done | apply IH].
Qed.

(** C8.  The walk has passed [n] entries and the next one raises.  The
    call does not raise: it adds the disjunction built over those [n]
    entries, and nothing else, to the constraints of the state in which the
    exception arose, and answers the symbolic value it created before the
    walk.  The disjunction begins with "the result is 0"; each further
    disjunct confines the result to the span of one entry. *)
Theorem getenv_error_stops_walk (name : list sbyte) (st st0 stn st' : State)
    (name_str : option (list Z)) (envpp an : Z) (ret_val : list sbyte)
    (n fuel : nat) (dn : bexpr) (e : exn) :
  let zero := Eq (TBv ret_val) (TBv (BVV 0 (bv_size ret_val))) in
  getenv_setup name st = (st0, Val (name_str, envpp, ret_val)) →
  walk_prefix n name_str ret_val envpp zero st0 = Some (stn, an, dn) →
  getenv_entry name_str ret_val an dn stn = (st', Raise e) →
  (n < fuel)%nat →
  libc_getenv fuel name st
    = ({| mem := mem st'; constraints := constraints st' ++ [dn];
          next_uid := next_uid st'; heap_location := heap_location st';
          posix_environ := posix_environ st' |}, Val (PBv ret_val)) ∧
  (∃ uid, ret_val = sym_cells "getenv" uid (Z.to_nat (bits arch / 8)) ∧
          next_uid st0 = S uid) ∧
  an = envpp + Z.of_nat n * arch_bytes ∧
  ∃ spans,
    disjuncts dn = zero :: spans ∧
    Forall (is_span ret_val) spans ∧ (length spans ≤ n)%nat.
Proof.
  intros zero Hsetup Hprefix Herr Hfuel. split_and!.
  - unfold libc_getenv, mbind at 1. rewrite Hsetup. fold zero.
    replace fuel with (n + S (fuel - S n))%nat by lia.
    rewrite (walk_prefix_walk _ _ _ _ _ _ _ _ _ _ Hprefix).
    cbn [getenv_walk]. unfold mbind at 1, try_except. rewrite Herr.
    rewrite mret_eq. done.
  - by eapply setup_fresh.
  - by eapply walk_prefix_place.
  - apply walk_prefix_shape in Hprefix as (spans & Hd & Hs & Hl).
    by exists spans.
Qed.

End Getenv.

(** Looking up "PATH" in ["HOME=/root", "PATH=/bin", null]: the answer is
    805, where the bytes "/bin" lie. *)
Lemma getenv_first_match_witness :
  libc_getenv (H := example_host []) 8 (BVV 512 64) getenv_state
    = ({| mem := mem getenv_state; constraints := [];
          next_uid := 1; heap_location := 4096;
          posix_environ := BVV 256 64 |}, Val (PInt 805)) ∧
  read_cells (H := example_host []) (mem getenv_state) 805 4
    = Some (Conc <$> [47; 98; 105; 110]).
Proof.
  apply (getenv_first_match (H := example_host []) example_arch_ok
           512 256 800 [80; 65; 84; 72] [47; 98; 105; 110]
           [(768, [72; 79; 77; 69; 61; 47; 114; 111; 111; 116])]
           8 getenv_state).
  - repeat (apply List.Forall_cons; [split; zcheck|]). apply List.Forall_nil.
  - vm_compute. split; reflexivity.
  - reflexivity.
  - reflexivity.
  - vm_compute; repeat split; first [reflexivity | discriminate].
  - vm_compute; repeat split; first [reflexivity | discriminate].
  - by eexists.
  - cbn [length]. lia.
Defined.

(** The claim as stated fails when an entry before the match is not
    UTF-8: decoding FF 3D 31 raises, the walk ends there, and the call
    answers the symbolic value constrained to 0 although "PATH=/bin" is the
    next entry. *)
Lemma getenv_aborts_on_bad_utf8 :
  read_cells (H := example_host []) (mem bad_utf8_state) 800 10
    = Some (Conc <$> [80; 65; 84; 72; 61; 47; 98; 105; 110; 0]) ∧
  libc_getenv (H := example_host []) 8 (BVV 512 64) bad_utf8_state
    = ({| mem := mem bad_utf8_state;
          constraints :=
            [Eq (TBv (sym_cells "getenv" 0 8)) (TBv (BVV 0 64))];
          next_uid := 1; heap_location := 4096;
          posix_environ := BVV 256 64 |},
       Val (PBv (sym_cells "getenv" 0 8))).
Proof. split; [reflexivity | vm_compute; reflexivity]. Qed.

(** The first entry is symbolic and adds its span; reading the second
    raises; the call answers the symbolic value under the disjunction. *)
Lemma getenv_error_stops_walk_witness :
  ∃ st' len,
    libc_getenv (H := example_host []) 8 (BVV 512 64) sym_entry_state
      = (st', Val (PBv (sym_cells "getenv" 0 8))) ∧
    constraints st'
      = [Or (Eq (TBv (sym_cells "getenv" 0 8)) (TBv (BVV 0 64)))
            (And (UGT (TBv (sym_cells "getenv" 0 8)) (TBv (BVV 768 64)))
                 (ULT (TBv (sym_cells "getenv" 0 8))
                      (TAdd (TBv (BVV 768 64)) (TBv len))))].
Proof.
  edestruct (getenv_error_stops_walk (H := example_host [])
               (BVV 512 64) sym_entry_state) as (W & _) .
  - vm_compute. reflexivity.
  - instantiate (4 := 1%nat). vm_compute. reflexivity.
  - vm_compute. reflexivity.
  - instantiate (1 := 8%nat). lia.
  - eexists _, _. split; [exact W|]. reflexivity.
Defined.

(** * Further properties

    Edge cases, bounds and frames of the summaries, among them those that
    no property above is about. *)

(** Splits the first step off a run that is known to have answered. *)
Ltac step_inv H :=
  unfold mbind at 1 in H;
  match type of H with
  | context [match ?m ?st with _ => _ end] =>
    let E := fresh "E" in
    destruct (m st) as [? [?| | |]] eqn:E; try discriminate H
  end.

(** ** getenv: absent and unusable names *)

Lemma split_eq_0_no_eq (s : list Z) : 61 ∉ split_eq_0 s.
Proof.
  induction s as [|c s IH]; cbn [split_eq_0].
  - apply not_elem_of_nil.
  - case_bool_decide as Hc; [apply not_elem_of_nil|].
    apply not_elem_of_cons. split; [congruence|done].
Qed.


Section GetenvAbsent.
Context `{Host}.
Hypothesis Harch : arch_ok.

Lemma size_sym_ptr name uid :
  bv_size (sym_cells name uid (Z.to_nat (bits arch / 8))) = bits arch.
Proof.
  unfold bv_size. rewrite length_sym_cells.
  pose proof (bits_bytes Harch) as Hbb. unfold arch_bytes in Hbb.
  pose proof (arch_bytes_ge Harch) as Hb. unfold arch_bytes in Hb. lia.
Qed.

(** X1.  A concrete name that no entry has as its key, in a list of
    concrete, well-formed entries that the null pointer ends: the call
    answers its symbolic value and adds one constraint, "the result is 0";
    memory is left alone.  Every assignment that satisfies the constraint
    gives the result the value 0. *)
Theorem getenv_missing_key (a E : Z) (raw key : list Z)
    (entries : list (Z * list Z)) (fuel : nat) (st : State) :
  let ret_val :=
    sym_cells "getenv" (next_uid st) (Z.to_nat (bits arch / 8)) in
  let zero := Eq (TBv ret_val) (TBv (BVV 0 (bits arch))) in
  let st0 :=
    {| mem := mem st; constraints := constraints st;
       next_uid := S (next_uid st); heap_location := heap_location st;
       posix_environ := posix_environ st |} in
  match strlen (BVV a (bits arch)) st with
  | (st', Val r) =>
    st' = st ∧ bv_concrete (ret_expr r) = Some (Z.of_nat (length raw))
  | _ => False
  end →
  read_cells (mem st) a (length raw) = Some (Conc <$> raw) →
  utf8_decode raw = Some key →
  bv_concrete (posix_environ st) = Some E →
  other_entries st0 E entries key →
  read_cells (mem st) (E + Z.of_nat (length entries) * arch_bytes)
             (Z.to_nat arch_bytes)
    = Some (byte_order (memory_endness arch) (BVV 0 (bits arch))) →
  (length entries < fuel)%nat →
  libc_getenv fuel (BVV a (bits arch)) st
    = ({| mem := mem st; constraints := constraints st ++ [zero];
          next_uid := S (next_uid st); heap_location := heap_location st;
          posix_environ := posix_environ st |}, Val (PBv ret_val)) ∧
  (∀ rho, holds rho zero = true → bv_val rho ret_val = 0).
Proof.
  intros ret_val zero st0 Hlen Hname Hdec Henv Hothers Hnull Hfuel.
  pose proof (size_sym_ptr "getenv" (next_uid st)) as Hsz. fold ret_val in Hsz.
  split.
  - unfold libc_getenv, mbind at 1. unfold getenv_setup, mbind at 1.
    destruct (strlen (BVV a (bits arch)) st) as [st' [r| | |]]; try done.
    destruct Hlen as [-> Hr].
    unfold mbind at 1. unfold load_sized, mbind at 1.
    rewrite (solver_max_concrete _ _ _ Hr).
    rewrite (load_BVV Harch). unfold load_at. rewrite Nat2Z.id, Hname.
    cbn [byte_order]. unfold mbind at 1. rewrite bv_bytes_Conc.
    rewrite Hdec, mret_eq. unfold mbind at 1. unfold get_state.
    unfold mbind at 1. rewrite (solver_eval_concrete _ _ _ Henv).
    unfold mbind at 1. rewrite BVS_eq, mret_eq. fold st0. fold ret_val.
    rewrite Hsz.
    replace fuel with (length entries + (fuel - length entries))%nat by lia.
    rewrite walk_other_entries by done.
    destruct (fuel - length entries)%nat as [|fuel'] eqn:Ef; [lia|].
    cbn [getenv_walk]. unfold mbind at 1, try_except.
    unfold getenv_entry, mbind at 1.
    rewrite (load_at_cells _ _ _ st0 _ Hnull). unfold mbind at 1.
    rewrite (solver_eval_concrete _ (wrap 0)) by apply (concrete_ptr Harch).
    change (wrap 0) with 0. rewrite bool_decide_true by done.
    rewrite mret_eq. unfold getenv_finish, mbind, add_constraints.
    by rewrite mret_eq.
  - intros rho Hrho. apply bool_decide_eq_true in Hrho.
    change (bv_val rho ret_val = bv_val rho (BVV 0 (bits arch))) in Hrho.
    rewrite Hrho.
    destruct Harch. rewrite bv_val_BVV by (lia || done).
    apply Z.mod_0_l. apply Z.pow_nonzero; lia.
Qed.

Lemma entry_return_key name_str ret_val envpp disj st st1 v :
  getenv_entry name_str ret_val envpp disj st = (st1, Val (WReturn v)) →
  ∃ text, name_str = Some (split_eq_0 text).
Proof.
  unfold getenv_entry. intros Hb.
  step_inv Hb. step_inv Hb.
  case_bool_decide; [discriminate Hb|].
  step_inv Hb. step_inv Hb.
  destruct name_str as [name_str|].
  - destruct (bv_bytes _) as [raw|].
    + destruct (utf8_decode raw) as [text|]; [|discriminate Hb].
      case_bool_decide as Hk; [|discriminate Hb].
      exists text. by rewrite Hk.
    + by step_inv Hb.
  - by step_inv Hb.
Qed.

Lemma walk_symbolic_result name_str ret_val fuel :
  (∀ text, name_str ≠ Some (split_eq_0 text)) →
  ∀ envpp disj st st' v,
    getenv_walk fuel name_str ret_val envpp disj st = (st', Val v) →
    v = PBv ret_val.
Proof.
  intros Hname. induction fuel as [|fuel IH]; intros envpp disj st st' v Hw.
  - done.
  - cbn [getenv_walk] in Hw. unfold mbind at 1, try_except in Hw.
    destruct (getenv_entry name_str ret_val envpp disj st)
      as [st1 [[|w|d1]| | |]] eqn:Ee; try done.
    + unfold getenv_finish, mbind, add_constraints in Hw.
      rewrite mret_eq in Hw. by injection Hw as _ <-.
    + apply entry_return_key in Ee as [text Ht]. by destruct (Hname text).
    + by eapply IH.
    + rewrite mret_eq in Hw. unfold getenv_finish, mbind, add_constraints in Hw.
      rewrite mret_eq in Hw. by injection Hw as _ <-.
Qed.

(** X2.  A name that is symbolic, or whose text holds '=': whatever the
    list holds, a call that answers does not answer a place in an entry; it
    answers the symbolic value made before the walk. *)
Theorem getenv_never_concrete (name : list sbyte) (st st0 st' : State)
    (name_str : option (list Z)) (envpp : Z) (ret_val : list sbyte)
    (fuel : nat) (v : pyval) :
  getenv_setup name st = (st0, Val (name_str, envpp, ret_val)) →
  name_str = None ∨ (∃ key, name_str = Some key ∧ 61 ∈ key) →
  libc_getenv fuel name st = (st', Val v) →
  v = PBv ret_val ∧ symbolic ret_val = true.
Proof.
  intros Hsetup Hname Hrun. split.
  - unfold libc_getenv, mbind at 1 in Hrun. rewrite Hsetup in Hrun.
    eapply walk_symbolic_result; [|exact Hrun].
    intros text Ht. destruct Hname as [->|(key & -> & Hin)]; [done|].
    injection Ht as ->. by apply (split_eq_0_no_eq text).
  - apply setup_fresh in Hsetup as (uid & -> & _).
    pose proof (arch_bytes_ge Harch) as Hb. unfold arch_bytes in Hb.
    destruct (Z.to_nat (bits arch / 8)) as [|n] eqn:E; [lia|].
    by rewrite sym_cells_S.
Qed.

End GetenvAbsent.

(** ** snprintf with no room, gai_strerror *)

Section Allocations.
Context `{Host} `{Engine}.
Hypothesis Harch : arch_ok.

(** X3.  When the solver answers 0 for the size, snprintf hands back its
    size argument as it got it; the format is not rendered, nothing is
    stored and the state is the one it started in. *)
Theorem snprintf_zero_size (dst_ptr size : list sbyte) (st : State) :
  solver_eval size st = (st, Val 0) →
  libc_snprintf dst_ptr size st = (st, Val size).
Proof.
  intros E. unfold libc_snprintf, mbind. rewrite E.
  by rewrite bool_decide_true.
Qed.

(** X7.  gai_strerror keeps nothing between calls: two calls in a row
    answer two buffers of 256 bytes that share no cell, the second right
    after the first on the heap, each with a zero byte in its last cell;
    nothing else in memory changes. *)
Theorem gai_strerror_fresh_buffers (e1 e2 : list sbyte) (st : State) :
  let h := heap_location st in
  ∃ st1 st2,
    libc_gai_strerror e1 st = (st1, Val (BVV h (bits arch))) ∧
    libc_gai_strerror e2 st1 = (st2, Val (BVV (h + 256) (bits arch))) ∧
    (∀ i j, 0 ≤ i < 256 → 0 ≤ j < 256 → wrap (h + i) ≠ wrap (h + 256 + j)) ∧
    mem st2 !! wrap (h + 255) = Some (Conc 0) ∧
    mem st2 !! wrap (h + 256 + 255) = Some (Conc 0) ∧
    heap_location st2 = h + 512 ∧
    (∀ x, x ≠ wrap (h + 255) → x ≠ wrap (h + 256 + 255) →
          mem st2 !! x = mem st !! x) ∧
    constraints st2 = constraints st ∧ next_uid st2 = next_uid st.
Proof.
  intros h. pose proof (space_large Harch) as HN.
  eexists _, _. split_and!.
  - unfold libc_gai_strerror, mbind. run_steps. reflexivity.
  - unfold libc_gai_strerror, mbind. run_steps. reflexivity.
  - intros i j Hi Hj. apply (wrap_ne Harch). left. split; lia.
  - cbn [mem]. fold h. lookup_skip Harch.
    apply lookup_hit. lia.
  - cbn [mem]. fold h. apply lookup_hit. lia.
  - cbn [heap_location]. fold h. lia.
  - intros x Hx1 Hx2. cbn [mem byte_order write_cells]. fold h.
    by rewrite !lookup_insert_ne.
  - done.
  - done.
Qed.

End Allocations.

(** ** The converters at their bounds *)

Section ConverterBounds.
Context `{Host}.

Lemma load_state addr size e st st1 r :
  load addr size e st = (st1, r) → st1 = st.
Proof.
  unfold load, mbind, concretise, load_at.
  destruct (bv_concrete addr); cbn.
  - destruct (read_cells _ _ _); by intros [= <- _].
  - by intros [= <- _].
Qed.

Lemma solver_max_state v st st1 r : solver_max v st = (st1, r) → st1 = st.
Proof. unfold solver_max. destruct (bv_concrete v); by intros [= <- _]. Qed.

Lemma mbsrtowcs_round_count offset dest src_base ret st st1 r b :
  mbsrtowcs_round offset dest src_base ret st = (st1, Val (r, b)) →
  r = ret + 1.
Proof.
  unfold mbsrtowcs_round. intros Hr.
  step_inv Hr. step_inv Hr. step_inv Hr.
  rewrite mret_eq in Hr. injection Hr as _ <- _.
  destruct (is_true_lt _ _).
  - step_inv E1. rewrite mret_eq in E1. by injection E1 as _ <-.
  - step_inv E1. step_inv E1. step_inv E1.
    rewrite mret_eq in E1. by injection E1 as _ <-.
Qed.

Lemma wcsrtombs_round_count offset dest src_base ret st st1 r b :
  wcsrtombs_round offset dest src_base ret st = (st1, Val (r, b)) →
  r = ret + 1.
Proof.
  unfold wcsrtombs_round. intros Hr.
  step_inv Hr. step_inv Hr. step_inv Hr.
  rewrite mret_eq in Hr. injection Hr as _ <- _.
  destruct (is_true_lt _ _).
  - step_inv E1. rewrite mret_eq in E1. by injection E1 as _ <-.
  - step_inv E1. step_inv E1. step_inv E1.
    rewrite mret_eq in E1. by injection E1 as _ <-.
Qed.

Lemma mbsrtowcs_loop_count n :
  ∀ offset dest src_base ret st st1 r,
    mbsrtowcs_loop n offset dest src_base ret st = (st1, Val r) →
    ret ≤ r ≤ ret + Z.of_nat n.
Proof.
  induction n as [|n IH]; intros offset dest src_base ret st st1 r Hl.
  - cbn in Hl. injection Hl as _ <-. lia.
  - cbn [mbsrtowcs_loop] in Hl. step_inv Hl. destruct a as [r1 b].
    apply mbsrtowcs_round_count in E as ->. cbn [fst snd] in Hl.
    destruct b.
    + injection Hl as _ <-. lia.
    + apply IH in Hl. lia.
Qed.

Lemma wcsrtombs_loop_count n :
  ∀ offset dest src_base ret st st1 r,
    wcsrtombs_loop n offset dest src_base ret st = (st1, Val r) →
    ret ≤ r ≤ ret + Z.of_nat n.
Proof.
  induction n as [|n IH]; intros offset dest src_base ret st st1 r Hl.
  - cbn in Hl. injection Hl as _ <-. lia.
  - cbn [wcsrtombs_loop] in Hl. step_inv Hl. destruct a as [r1 b].
    apply wcsrtombs_round_count in E as ->. cbn [fst snd] in Hl.
    destruct b.
    + injection Hl as _ <-. lia.
    + apply IH in Hl. lia.
Qed.

(** X4.  Whatever the memory holds, a converter that answers has counted
    at most [min(1024, max(len))] units, and none when that is negative. *)
Theorem converters_count_bounded (dest src len ps : list sbyte) (m : Z)
    (st : State) :
  solver_max len st = (st, Val m) →
  (∀ st' r, libc_mbsrtowcs dest src len ps st = (st', Val r) →
            0 ≤ r ≤ Z.max 0 (Z.min 1024 m)) ∧
  (∀ st' r, libc_wcsrtombs dest src len ps st = (st', Val r) →
            0 ≤ r ≤ Z.max 0 (Z.min 1024 m)).
Proof.
  intros Hmax. split; intros st' r Hrun.
  - unfold libc_mbsrtowcs in Hrun. step_inv Hrun.
    apply load_state in E as ->.
    unfold mbind at 1 in Hrun. rewrite Hmax in Hrun.
    step_inv Hrun. apply mbsrtowcs_loop_count in E.
    step_inv Hrun. step_inv Hrun. rewrite mret_eq in Hrun.
    injection Hrun as _ <-. unfold mbsrtowcs_max_dest_size in E. lia.
  - unfold libc_wcsrtombs in Hrun. step_inv Hrun.
    apply load_state in E as ->.
    unfold mbind at 1 in Hrun. rewrite Hmax in Hrun.
    step_inv Hrun. apply wcsrtombs_loop_count in E.
    step_inv Hrun. step_inv Hrun. rewrite mret_eq in Hrun.
    injection Hrun as _ <-. unfold wcsrtombs_max_dest_size in E. lia.
Qed.

Hypothesis Harch : arch_ok.

Lemma write_cells_same m a cs :
  read_cells m a (length cs) = Some cs → write_cells m a cs = m.
Proof.
  revert a. induction cs as [|c cs IH]; intros a Hr; [done|].
  cbn [length read_cells] in Hr.
  destruct (m !! wrap a) as [c'|] eqn:E; [|done].
  destruct (read_cells m (a + 1) (length cs)) as [cs'|] eqn:E2; [|done].
  injection Hr as -> ->. cbn [write_cells].
  rewrite insert_id by done. by apply IH.
Qed.

(** X5.  With a length of 0 (or less) both converters answer 0 and the
    state they leave is the state they found: the cursor is stored again
    with the value it had, and the destination is not looked at. *)
Theorem converters_zero_length (dest len ps : list sbyte) (p S m : Z)
    (st : State) :
  read_cells (mem st) p (Z.to_nat arch_bytes)
    = Some (byte_order (memory_endness arch) (BVV S (bits arch))) →
  solver_max len st = (st, Val m) →
  m ≤ 0 →
  libc_mbsrtowcs dest (BVV p (bits arch)) len ps st = (st, Val 0) ∧
  libc_wcsrtombs dest (BVV p (bits arch)) len ps st = (st, Val 0).
Proof.
  intros Hcur Hmax Hm.
  pose proof (arch_bytes_ge Harch) as Hps.
  pose proof (bits_bytes Harch) as Hbb.
  assert (set_mem (write_cells (mem st) p
            (byte_order (memory_endness arch) (BVV S (bits arch)))) st = st)
    as Hsame.
  { rewrite write_cells_same.
    - by destruct st.
    - rewrite length_byte_order.
      replace (length (BVV S (bits arch))) with (Z.to_nat arch_bytes); [done|].
      pose proof (length_ptr Harch S). lia. }
  split.
  - unfold libc_mbsrtowcs, mbind.
    rewrite (load_BVV Harch), (load_at_cells _ _ _ _ _ Hcur), Hmax.
    replace (Z.to_nat (Z.min mbsrtowcs_max_dest_size m)) with 0%nat by lia.
    cbn [mbsrtowcs_loop]. rewrite mret_eq.
    rewrite (add_BVV Harch), Z.add_0_r, (store_BVV Harch), Hsame. done.
  - unfold libc_wcsrtombs, mbind.
    rewrite (load_BVV Harch), (load_at_cells _ _ _ _ _ Hcur), Hmax.
    replace (Z.to_nat (Z.min wcsrtombs_max_dest_size m)) with 0%nat by lia.
    cbn [wcsrtombs_loop]. rewrite mret_eq.
    rewrite (add_BVV Harch), Z.mul_0_l, Z.add_0_r, (store_BVV Harch), Hsame.
    done.
Qed.

End ConverterBounds.

Section ConverterCut.
Context `{Host}.
Hypothesis Harch : arch_ok.

Lemma mbsrtowcs_loop_full (body : list Z) d S :
  Forall (λ b, b ≠ 0) body →
  let k := Z.of_nat (length body) in
  separate d (4 * k) S k →
  ∀ (n : nat) (j : Z) ret st,
    0 ≤ j → j + Z.of_nat n = k →
    (∀ (i : nat) b, body !! i = Some b →
       mem st !! wrap (S + Z.of_nat i) = Some (Conc b)) →
    ∃ st',
      mbsrtowcs_loop n j (BVV d (bits arch)) (BVV S (bits arch)) ret st
        = (st', Val (ret + Z.of_nat n)) ∧
      (∀ x, (∀ i, 4 * j ≤ i < 4 * k → wrap (d + i) ≠ x) →
            mem st' !! x = mem st !! x) ∧
      (wrap d ≠ 0 → ∀ (i : nat) b,
         j ≤ Z.of_nat i → body !! i = Some b → b < 128 →
         read_cells (mem st') (d + Z.of_nat i * 4) 4
           = Some (byte_order (memory_endness arch)
                     (zero_extend [Conc b] 24))) ∧
      same_but_mem st st'.
Proof.
  intros Hnz k Hsep n.
  pose proof (separate_small Harch _ _ _ _ Hsep) as [Hk4 Hk1].
  induction n as [|n IH]; intros j ret st Hj Hjn Hsrc.
  - cbn [mbsrtowcs_loop]. rewrite mret_eq. exists st. split_and!; try done.
    + do 2 f_equal. lia.
    + intros Hd i b Hji Hi Hb. apply lookup_lt_Some in Hi. lia.
  - cbn [mbsrtowcs_loop]. unfold mbind at 1.
    assert (Z.to_nat j < length body)%nat as Hlt by lia.
    destruct (lookup_lt_is_Some_2 body _ Hlt) as [b Hb].
    pose proof (Hsrc _ _ Hb) as Hcell. rewrite Z2Nat.id in Hcell by lia.
    assert (b ≠ 0) as Hbnz by (eapply (Forall_lookup_1 _ _ _ _ Hnz Hb)).
    destruct (mbsrtowcs_round_spec Harch j d S ret b st Hcell)
      as (st1 & E & Hfr & Hst & _ & Hsame).
    rewrite E. rewrite bool_decide_false by done. cbn [fst snd].
    destruct (IH (j + 1) (ret + 1) st1) as (st2 & E2 & Hfr2 & Hst2 & Hsame2);
      [lia|lia| |].
    { intros i c Hi. rewrite Hfr; [by apply Hsrc|].
      intros i' Hi'. apply lookup_lt_Some in Hi as Hlti.
      replace (d + j * 4 + i') with (d + (4 * j + i')) by lia.
      apply (separate_ne Harch _ _ _ _ _ _ Hsep); lia. }
    rewrite E2. exists st2. split_and!.
    + do 2 f_equal. lia.
    + intros x Hx. rewrite Hfr2, Hfr; [done| |].
      * intros i Hi. replace (d + j * 4 + i) with (d + (4 * j + i)) by lia.
        apply Hx. lia.
      * intros i Hi. apply Hx. lia.
    + intros Hd i c Hji Hi Hc.
      destruct (decide (Z.of_nat i = j)) as [Hij|Hij].
      * assert (c = b) as -> by (rewrite <- Hij, Nat2Z.id in Hb; congruence).
        rewrite <- (Hst Hd Hc). rewrite Hij. apply read_cells_ext.
        intros i' Hi'. apply Hfr2. intros i'' Hi''.
        apply (wrap_ne Harch). lia.
      * apply Hst2; [done|lia|done|done].
    + destruct Hsame as (?&?&?), Hsame2 as (?&?&?). unfold same_but_mem.
      split_and!; congruence.
Qed.

(** X6.  A source of [k] ASCII bytes, none of them 0, where [k] is the
    bound [min(1024, max(len))]: mbsrtowcs converts the [k] bytes and
    stops; it answers [k], moves the cursor by [k], stores the [k] wide
    characters and writes nothing after them, so the destination is not
    terminated. *)
Theorem mbsrtowcs_stops_at_bound (body : list Z) (d p S : Z)
    (len ps_ : list sbyte) (m : Z) (st : State) :
  let k := Z.of_nat (length body) in
  Forall (λ b, 0 < b < 128) body →
  read_cells (mem st) p (Z.to_nat arch_bytes)
    = Some (byte_order (memory_endness arch) (BVV S (bits arch))) →
  read_cells (mem st) S (length body) = Some (Conc <$> body) →
  solver_max len st = (st, Val m) →
  Z.min 1024 m = k →
  wrap d ≠ 0 →
  separate d (4 * k) S k →
  separate p arch_bytes d (4 * k) →
  ∃ st',
    libc_mbsrtowcs (BVV d (bits arch)) (BVV p (bits arch)) len ps_ st
      = (st', Val k) ∧
    load_at p arch_bytes (memory_endness arch) st'
      = (st', Val (BVV (S + k) (bits arch))) ∧
    (∀ (i : nat) b, body !! i = Some b →
       read_cells (mem st') (d + Z.of_nat i * 4) 4
         = Some (byte_order (memory_endness arch)
                   (zero_extend [Conc b] 24))) ∧
    (∀ x, (∀ i, 0 ≤ i < 4 * k → wrap (d + i) ≠ x) →
          (∀ i, 0 ≤ i < arch_bytes → wrap (p + i) ≠ x) →
          mem st' !! x = mem st !! x).
Proof.
  intros k Hbody Hcur Hstr Hmax Hk Hd Hsep Hsp.
  pose proof (arch_bytes_ge Harch) as Hps.
  pose proof (space_large Harch) as HN.
  assert (Forall (λ b, b ≠ 0) body) as Hnz
    by (eapply Forall_impl; [exact Hbody|]; cbn; lia).
  unfold libc_mbsrtowcs, mbind at 1.
  rewrite (load_BVV Harch), (load_at_cells _ _ _ _ _ Hcur).
  unfold mbind at 1. rewrite Hmax. unfold mbind at 1.
  unfold mbsrtowcs_max_dest_size. rewrite Hk. unfold k. rewrite Nat2Z.id.
  destruct (mbsrtowcs_loop_full body d S Hnz Hsep (length body) 0 0 st)
    as (st1 & E & Hfr & Hst & Hsame); [lia|lia| |].
  { intros i b Hi. eapply read_cells_lookup; [exact Hstr|].
    by rewrite list_lookup_fmap, Hi. }
  rewrite E. unfold mbind. rewrite (add_BVV Harch), (store_BVV Harch).
  rewrite mret_eq. rewrite Z.add_0_l. fold k.
  eexists. split_and!.
  - done.
  - apply load_at_cells. cbn [mem set_mem].
    apply (read_hit Harch); [done| |].
    + by rewrite length_byte_order, length_BVV.
    + rewrite length_byte_order, (length_ptr Harch).
      pose proof (bits_bytes Harch).
      pose proof (Z.pow_gt_lin_r 2 (bits arch) ltac:(lia)). lia.
  - intros i b Hi. cbn [mem set_mem].
    pose proof (Forall_lookup_1 _ _ _ _ Hbody Hi) as Hb. cbn in Hb.
    rewrite read_write_other; [apply (Hst Hd i b); [lia|done|lia]|].
    intros i' j' Hi' Hj'. apply lookup_lt_Some in Hi as Hlt.
    rewrite length_byte_order, (length_ptr Harch) in Hj'.
    apply not_eq_sym.
    replace (d + Z.of_nat i * 4 + i') with (d + (Z.of_nat i * 4 + i')) by lia.
    apply (separate_ne Harch _ _ _ _ _ _ Hsp); lia.
  - intros x Hxd Hxp. cbn [mem set_mem]. rewrite write_cells_other.
    + apply Hfr. intros i Hi. apply Hxd. lia.
    + intros i Hi. apply Hxp.
      rewrite length_byte_order, (length_ptr Harch) in Hi. done.
Qed.

End ConverterCut.

(** ** The summaries that only answer a symbol; mempcpy *)

Section Copies.
Context `{Host} `{Engine}.
Hypothesis Harch : arch_ok.

Lemma BVV_mod x : BVV (wrap x) (bits arch) = BVV x (bits arch).
Proof.
  rewrite <- (Z.add_0_r (wrap x)), (BVV_wrap Harch). by rewrite Z.add_0_r.
Qed.

Lemma BVV_mul x z : BVV (wrap x * z) (bits arch) = BVV (x * z) (bits arch).
Proof.
  rewrite <- (BVV_mod (wrap x * z)), <- (BVV_mod (x * z)). f_equal.
  unfold wrap. by rewrite Zmult_mod_idemp_l.
Qed.

Lemma add_bv_BVV x y st :
  add_bv (BVV x (bits arch)) (BVV y (bits arch)) st
  = (st, Val (BVV (x + y) (bits arch))).
Proof.
  unfold add_bv, mbind, same_size. rewrite !(size_ptr Harch).
  rewrite bool_decide_true by done. rewrite mret_eq.
  rewrite !(concrete_ptr Harch), mret_eq. do 2 f_equal.
  rewrite <- (BVV_mod (wrap x + wrap y)), <- (BVV_mod (x + y)). f_equal.
  unfold wrap. by rewrite <- Zplus_mod.
Qed.

(** X15.  mempcpy answers [dest + n], and wmempcpy hands [4 * n] bytes to
    the copy and answers [dest + 4 * n]: the address right after what was
    copied, at the pointer width. *)
Theorem mempcpy_returns_end (d n : Z) (src r : list sbyte) (st st1 : State) :
  (memcpy (BVV d (bits arch)) src (BVV n (bits arch)) st = (st1, Val r) →
   libc_mempcpy (BVV d (bits arch)) src (BVV n (bits arch)) st
     = (st1, Val (BVV (d + n) (bits arch)))) ∧
  (memcpy (BVV d (bits arch)) src (BVV (4 * n) (bits arch)) st
     = (st1, Val r) →
   libc_wmempcpy (BVV d (bits arch)) src (BVV n (bits arch)) st
     = (st1, Val (BVV (d + 4 * n) (bits arch)))).
Proof.
  split; intros Hcpy.
  - unfold libc_mempcpy, mbind. rewrite Hcpy. apply add_bv_BVV.
  - unfold libc_wmempcpy, mul, WCHAR_BYTES.
    rewrite (concrete_ptr Harch), (size_ptr Harch). unfold mbind at 1.
    rewrite mret_eq, BVV_mul. replace (n * 4) with (4 * n) by lia.
    unfold libc_mempcpy, mbind. rewrite Hcpy. apply add_bv_BVV.
Qed.

(** X22.  getaddrinfo, symlink, sysconf, vfwprintf and wcsncmp answer a
    new symbolic value of the pointer width and do nothing else: memory,
    constraints and heap are as before.  Such a value is symbolic, and the
    values of two calls in a row differ. *)
Theorem stubs_answer_fresh_symbols (a b c d : list sbyte) (st : State) :
  let fresh name :=
    ({| mem := mem st; constraints := constraints st;
        next_uid := S (next_uid st); heap_location := heap_location st;
        posix_environ := posix_environ st |},
     Val (sym_cells name (next_uid st) (Z.to_nat (bits arch / 8)))) in
  libc_getaddrinfo a b c d st = fresh "getaddrinfo_ret" ∧
  libc_symlink a b st = fresh "symlink_ret" ∧
  libc_sysconf a st = fresh "sysconf_ret" ∧
  libc_vfwprintf a b c st = fresh "vfwprintf_ret" ∧
  libc_wcsncmp a b c st = fresh "wcsncmp_ret" ∧
  (∀ name uid,
     let v := sym_cells name uid (Z.to_nat (bits arch / 8)) in
     symbolic v = true ∧ bv_size v = bits arch ∧
     v ≠ sym_cells name (S uid) (Z.to_nat (bits arch / 8))).
Proof.
  intros fresh. split_and!; try done.
  intros name uid v.
  pose proof (arch_bytes_ge Harch) as Hb. unfold arch_bytes in Hb.
  pose proof (bits_bytes Harch) as Hbb. unfold arch_bytes in Hbb.
  unfold v. destruct (Z.to_nat (bits arch / 8)) as [|n] eqn:E; [lia|].
  split_and!.
  - by rewrite sym_cells_S.
  - unfold bv_size. rewrite length_sym_cells. lia.
  - rewrite !sym_cells_S. intros [= Hn _]. lia.
Qed.

End Copies.

(** ** getline *)

Section Getline.
Context `{Host} `{Engine}.
Hypothesis Harch : arch_ok.

(** X8.  getline on a line pointer that is null, or with a [free] that
    leaves the state alone: a new buffer of 128 bytes comes from the heap
    with a zero byte in its last cell, its address is stored at
    [lineptr_ptr], a new 32-bit symbolic length is stored in the four bytes
    at [n_ptr], and no other cell changes.  The two constraints added are
    "the length is at most 128" and "the result is below 128"; under them
    the result is never the all-ones value that reports the end of the
    input. *)
Theorem getline_new_buffer (lp np old : Z) (stream : list sbyte) (st : State) :
  let h := heap_location st in
  let ps := arch_bytes in
  let e := memory_endness arch in
  let n_bv := sym_cells "getline_n" (next_uid st) 4 in
  let ret :=
    sym_cells "getline_ret" (S (next_uid st)) (Z.to_nat (bits arch / 8)) in
  read_cells (mem st) lp (Z.to_nat ps)
    = Some (byte_order e (BVV old (bits arch))) →
  (wrap old ≠ 0 → free (BVV old (bits arch)) st = (st, Val tt)) →
  separate lp ps np 4 →
  separate lp ps (h + 127) 1 →
  separate np 4 (h + 127) 1 →
  ∃ st',
    libc_getline (BVV lp (bits arch)) (BVV np (bits arch)) stream st
      = (st', Val ret) ∧
    load_at lp ps e st' = (st', Val (BVV h (bits arch))) ∧
    mem st' !! wrap (h + 127) = Some (Conc 0) ∧
    load_at np 4 e st' = (st', Val n_bv) ∧
    (∀ x, (∀ i, 0 ≤ i < ps → wrap (lp + i) ≠ x) →
          (∀ i, 0 ≤ i < 4 → wrap (np + i) ≠ x) →
          wrap (h + 127) ≠ x →
          mem st' !! x = mem st !! x) ∧
    constraints st'
      = constraints st
        ++ [ULE (TBv n_bv) (TBv (BVV 128 32));
            ULT (TBv ret) (TBv (BVV 128 (bits arch)))] ∧
    heap_location st' = h + 128 ∧
    (∀ rho, holds rho (ULT (TBv ret) (TBv (BVV 128 (bits arch)))) = true →
            bv_val rho ret < 128).
Proof.
  intros h ps e n_bv ret Hcur Hfree Hs1 Hs2 Hs3.
  pose proof (space_large Harch) as HN.
  pose proof (arch_bytes_ge Harch) as Hps. fold ps in Hps.
  pose proof (bits_bytes Harch) as Hbb. fold ps in Hbb.
  pose proof (separate_small Harch _ _ _ _ Hs1) as [Hpsmall _].
  assert (bv_size ret = bits arch) as Hsz.
  { unfold ret, bv_size. rewrite length_sym_cells.
    unfold ps, arch_bytes in *. lia. }
  assert (bv_size n_bv = 32) as Hsz32 by done.
  unfold libc_getline. unfold mbind at 1.
  rewrite (load_BVV Harch). change (bits arch `div` 8) with ps. fold e.
  rewrite (load_at_cells _ _ _ _ _ Hcur).
  unfold mbind at 1.
  assert ((if negb (is_true_eq (BVV old (bits arch)) 0)
           then free (BVV old (bits arch)) else mret tt) st = (st, Val tt))
    as ->.
  { rewrite (is_true_eq_ptr Harch). change (wrap 0) with 0.
    case_bool_decide; cbn [negb]; [done|by apply Hfree]. }
  unfold mbind, store_sized, getline_MAX_STRING. run_steps.
  fold h. change (bits arch `div` 8) with ps. fold e.
  replace (h + 128 + -1) with (h + 127) by lia.
  unfold add_constraints at 1.
  cbn [mem heap_location constraints next_uid posix_environ].
  run_steps. unfold add_constraints.
  cbn [mem heap_location constraints next_uid posix_environ].
  rewrite ?mret_eq.
  change (Z.to_nat (32 `div` 8)) with 4%nat. fold n_bv. fold ret.
  rewrite Hsz, Hsz32.
  assert (length (byte_order e (BVV h (bits arch))) = Z.to_nat ps) as Hlp.
  { rewrite length_byte_order. pose proof (length_ptr Harch h) as Hl.
    unfold ps. lia. }
  assert (length (byte_order e n_bv) = 4%nat) as Hln
    by (by rewrite length_byte_order).
  eexists. split_and!; [reflexivity| | | | | | |];
    cbn [mem heap_location constraints].
  - apply load_at_cells. cbn [mem].
    rewrite read_write_other.
    + apply (read_hit Harch); [done|done|]. rewrite Hlp. lia.
    + intros i j Hi Hj. rewrite Hln in Hj.
      apply (separate_ne Harch _ _ _ _ _ _ Hs1); lia.
  - rewrite write_cells_other.
    + rewrite write_cells_other; [by apply lookup_hit|].
      intros i Hi. rewrite Hlp in Hi.
      replace (h + 127) with (h + 127 + 0) by lia.
      apply (separate_ne Harch _ _ _ _ _ _ Hs2); lia.
    + intros i Hi. rewrite Hln in Hi.
      replace (h + 127) with (h + 127 + 0) by lia.
      apply (separate_ne Harch _ _ _ _ _ _ Hs3); lia.
  - apply load_at_cells. cbn [mem]. apply (read_hit Harch); [done|done|].
    rewrite Hln. lia.
  - intros x Hx1 Hx2 Hx3.
    rewrite write_cells_other by (intros i Hi; rewrite Hln in Hi; apply Hx2; lia).
    rewrite write_cells_other by (intros i Hi; rewrite Hlp in Hi; apply Hx1; lia).
    cbn [byte_order write_cells]. by rewrite lookup_insert_ne.
  - by rewrite <- app_assoc.
  - done.
  - intros rho Hrho. cbn [holds term_val] in Hrho.
    apply bool_decide_eq_true in Hrho.
    rewrite bv_val_BVV in Hrho by (destruct Harch; lia || done).
    assert (128 mod 2 ^ bits arch = 128) as E128 by (apply Z.mod_small; lia).
    lia.
Qed.

End Getline.

(** ** towupper *)

Section Towupper.
Context `{Host} `{Engine}.

Lemma bv_concrete_nonneg_size (wc : list sbyte) : wc ≠ [] → 8 ≤ bv_size wc.
Proof. destruct wc; [done|]. intros _. unfold bv_size. cbn [length]. lia. Qed.

(** X9.  A concrete ASCII character: towupper answers a value of the same
    width, the letter 32 below for 'a' to 'z' and the character itself
    otherwise, and leaves the state alone.  Applied to its own answer it
    answers it again. *)
Theorem towupper_ascii (wc : list sbyte) (c : Z) (st : State) :
  wc ≠ [] → bv_concrete wc = Some c → 0 ≤ c < 128 →
  let up := if bool_decide (97 ≤ c ≤ 122) then c - 32 else c in
  ∃ r,
    libc_towupper wc st = (st, Val r) ∧
    bv_concrete r = Some up ∧ bv_size r = bv_size wc ∧
    libc_towupper r st = (st, Val r).
Proof.
  intros Hne Hc Hr up.
  pose proof (bv_concrete_nonneg_size wc Hne) as Hs.
  assert (2 ^ 8 ≤ 2 ^ bv_size wc) as Hp by (apply Z.pow_le_mono_r; lia).
  change (2 ^ 8) with 256 in Hp.
  assert (bv_size wc mod 8 = 0) as Hm.
  { unfold bv_size. rewrite Z.mul_comm. apply Z_mod_mult. }
  assert (∀ v, 0 ≤ v < 128 → ¬ (97 ≤ v ≤ 122) → ∀ r,
            bv_concrete r = Some v → bv_size r = bv_size wc →
            libc_towupper r st = (st, Val r)) as Hfix.
  { intros v Hv Hnl r Hrv Hrs. unfold libc_towupper, is_true_lt.
    rewrite Hrv, Hrs. rewrite !Z.mod_small by lia.
    rewrite bool_decide_true by lia.
    destruct (bool_decide (v >= 97)) eqn:E1; [|done].
    destruct (bool_decide (v <= 122)) eqn:E2; [|done].
    apply bool_decide_eq_true in E1, E2. lia. }
  unfold up. case_bool_decide as Hl.
  - exists (BVV (c - 32) (bv_size wc)).
    assert (bv_concrete (BVV (c - 32) (bv_size wc)) = Some (c - 32)) as Hv.
    { rewrite bv_concrete_BVV by (done || lia). by rewrite Z.mod_small by lia. }
    split_and!; [|done|by rewrite bv_size_BVV by (done || lia)|].
    + unfold libc_towupper, is_true_lt. rewrite Hc.
      rewrite !Z.mod_small by lia. rewrite bool_decide_true by lia.
      rewrite !bool_decide_true by lia. done.
    + apply (Hfix (c - 32)); [lia|lia|done|].
      by rewrite bv_size_BVV by (done || lia).
  - exists wc. split_and!; [|done|done|]; by apply (Hfix c).
Qed.

(** X10.  A character that is symbolic, or concrete and not below 0x80:
    towupper answers a new symbolic value, which no constraint ties to the
    character and whose width is the pointer width whatever the width of
    the character. *)
Theorem towupper_beyond_ascii (wc : list sbyte) (st : State) :
  arch_ok →
  symbolic wc = true ∨ (∃ c, bv_concrete wc = Some c ∧ 128 ≤ c) →
  let r := sym_cells "towupper_ret" (next_uid st) (Z.to_nat (bits arch / 8)) in
  libc_towupper wc st
    = ({| mem := mem st; constraints := constraints st;
          next_uid := S (next_uid st); heap_location := heap_location st;
          posix_environ := posix_environ st |}, Val r) ∧
  symbolic r = true ∧ bv_size r = bits arch.
Proof.
  intros Harch Hwc r. split_and!.
  - unfold libc_towupper.
    assert (is_true_lt wc 128 = false) as ->; [|done].
    unfold is_true_lt. destruct Hwc as [Hs|(c & Hc & Hge)].
    + unfold symbolic in Hs. unfold bv_concrete.
      by destruct (bv_bytes wc).
    + rewrite Hc. apply bool_decide_eq_false.
      assert (0 < 2 ^ bv_size wc).
      { apply Z.pow_pos_nonneg; [lia|]. unfold bv_size. lia. }
      pose proof (Z.mod_le 128 (2 ^ bv_size wc)). lia.
  - pose proof (arch_bytes_ge Harch) as Hb. unfold arch_bytes in Hb.
    unfold r. destruct (Z.to_nat (bits arch / 8)) as [|n] eqn:E; [lia|].
    rewrite sym_cells_S. done.
  - unfold r, bv_size. rewrite length_sym_cells.
    pose proof (bits_bytes Harch) as Hbb. unfold arch_bytes in Hbb.
    pose proof (arch_bytes_ge Harch) as Hb. unfold arch_bytes in Hb. lia.
Qed.

End Towupper.

(** ** swprintf *)

Section Swprintf.
Context `{Host} `{Engine}.
Hypothesis Harch : arch_ok.

Lemma swprintf_loop_spec (w : Z) (n : nat) :
  ∀ (j : Z) (st : State),
    0 ≤ j → 4 * (j + Z.of_nat n) ≤ 2 ^ bits arch →
    ∃ st',
      swprintf_loop n j (BVV w (bits arch)) st = (st', Val tt) ∧
      (∀ i : nat, (i < n)%nat →
         read_cells (mem st') (w + 4 * (j + Z.of_nat i)) 4
         = Some (sym_cells ("swprintf_" +:+ pretty (j + Z.of_nat i))
                           (next_uid st + i) 4)) ∧
      (∀ x, (∀ i, 4 * j ≤ i < 4 * (j + Z.of_nat n) → wrap (w + i) ≠ x) →
            mem st' !! x = mem st !! x) ∧
      next_uid st' = (next_uid st + n)%nat ∧ same_but_mem st st'.
Proof.
  induction n as [|n IH]; intros j st Hj Hfit.
  - exists st. split_and!; try done; try (intros; lia).
  - cbn [swprintf_loop]. unfold mbind, WCHAR_BYTES.
    rewrite BVS_eq, (add_BVV Harch), (store_BVV Harch).
    change (Z.to_nat ((4 * 8) `div` 8)) with 4%nat.
    cbn [byte_order].
    match goal with
    | |- context [swprintf_loop n (j + 1) _ ?s] => set (st1 := s)
    end.
    destruct (IH (j + 1) st1) as (st' & E & Hsym & Hfr & Huid & Hsame);
      [lia|lia|].
    rewrite E. exists st'. split_and!; [done| | | |].
    + intros i Hi. destruct i as [|i].
      * rewrite Z.add_0_r, Nat.add_0_r.
        rewrite <- (read_hit Harch (mem st) (w + j * 4)
                      (sym_cells ("swprintf_" +:+ pretty j) (next_uid st) 4)
                      (w + 4 * j) 4); [| lia | by rewrite length_sym_cells
                                        | rewrite length_sym_cells; lia].
        apply read_cells_ext. intros i Hi'. apply Hfr.
        intros i' Hi''. apply (wrap_ne Harch). lia.
      * replace (j + Z.of_nat (S i)) with (j + 1 + Z.of_nat i) by lia.
        rewrite (Hsym i) by lia. do 2 f_equal. subst st1. cbn [next_uid set_mem]. lia.
    + intros x Hx. rewrite Hfr.
      * subst st1. cbn [mem set_mem]. apply write_cells_other.
        intros i Hi. rewrite length_sym_cells in Hi.
        replace (w + j * 4 + i) with (w + (4 * j + i)) by lia. apply Hx. lia.
      * intros i Hi. apply Hx. lia.
    + rewrite Huid. subst st1. cbn [next_uid set_mem]. lia.
    + destruct Hsame as (?&?&?). subst st1. by split_and!.
Qed.

(** X11.  swprintf with a largest length [n] of at least 1: the first
    [n - 1] wide characters of the buffer become new symbolic values named
    after their index, wide character [n - 1] becomes 0, and no cell
    outside the [4 * n] bytes of the buffer changes.  The result is a new
    symbolic value under the one constraint "at most [n]". *)
Theorem swprintf_fills_buffer (w n : Z) (maxlen format : list sbyte)
    (st : State) :
  solver_max maxlen st = (st, Val n) →
  1 ≤ n → 4 * n ≤ 2 ^ bits arch →
  let u := next_uid st in
  let ret :=
    sym_cells "swprintf_ret" (u + Z.to_nat n) (Z.to_nat (bits arch / 8)) in
  ∃ st',
    libc_swprintf (BVV w (bits arch)) maxlen format st = (st', Val ret) ∧
    (∀ i : nat, Z.of_nat i < n - 1 →
       read_cells (mem st') (w + 4 * Z.of_nat i) 4
       = Some (sym_cells ("swprintf_" +:+ pretty (Z.of_nat i)) (u + i) 4)) ∧
    read_cells (mem st') (w + 4 * (n - 1)) 4 = Some (BVV 0 32) ∧
    (∀ x, (∀ i, 0 ≤ i < 4 * n → wrap (w + i) ≠ x) →
          mem st' !! x = mem st !! x) ∧
    constraints st'
      = constraints st ++ [ULE (TBv ret) (TBv (BVV n (bits arch)))] ∧
    next_uid st' = S (u + Z.to_nat n) ∧
    heap_location st' = heap_location st.
Proof.
  intros Hmax Hn Hfit u ret. pose proof (space_large Harch) as HN.
  unfold libc_swprintf. unfold mbind at 1. rewrite Hmax.
  destruct (swprintf_loop_spec w (Z.to_nat n) 0 st)
    as (st1 & E & Hsym & Hfr & Huid & Hsame); [lia|lia|].
  unfold mbind at 1. rewrite E. unfold mbind, WCHAR_BYTES.
  rewrite (add_BVV Harch), (store_BVV Harch), BVS_eq.
  cbn [add_constraints mem constraints next_uid heap_location posix_environ set_mem].
  destruct Hsame as (Hc & Hh & He).
  assert (bv_size (sym_cells "swprintf_ret" (next_uid st1)
                             (Z.to_nat (bits arch / 8))) = bits arch) as Hsz.
  { unfold bv_size. rewrite length_sym_cells.
    pose proof (bits_bytes Harch) as Hbb. unfold arch_bytes in Hbb.
    pose proof (arch_bytes_ge Harch) as Hb. unfold arch_bytes in Hb. lia. }
  unfold add_constraints. cbn [mem constraints next_uid heap_location posix_environ].
  rewrite mret_eq. rewrite Hsz, Huid. fold u. fold ret.
  eexists. split_and!; [reflexivity| | | | | |]; cbn [mem constraints next_uid heap_location].
  - intros i Hi. cbn [byte_order].
    rewrite (read_skip Harch).
    + pose proof (Hsym i) as Hs. rewrite !Z.add_0_l in Hs.
      rewrite Hs by lia. done.
    + change (length (BVV 0 (4 * 8))) with 4%nat. lia.
  - cbn [byte_order]. apply (read_hit Harch); [lia|done|].
    change (Z.of_nat (length (BVV 0 32))) with 4. lia.
  - intros x Hx. cbn [byte_order]. rewrite write_cells_other.
    + apply Hfr. intros i Hi. apply Hx. lia.
    + intros i Hi. change (length (BVV 0 (4 * 8))) with 4%nat in Hi.
      replace (w + (n - 1) * 4 + i) with (w + ((n - 1) * 4 + i)) by lia.
      apply Hx. lia.
  - by rewrite Hc.
  - done.
  - done.
Qed.

(** X12.  swprintf with a largest length of 0: the loop does not run, and
    the final null character goes to index [-1], the four bytes right
    below the buffer; no other cell changes. *)
Theorem swprintf_zero_writes_below (w : Z) (maxlen format : list sbyte)
    (st : State) :
  solver_max maxlen st = (st, Val 0) →
  let ret :=
    sym_cells "swprintf_ret" (next_uid st) (Z.to_nat (bits arch / 8)) in
  ∃ st',
    libc_swprintf (BVV w (bits arch)) maxlen format st = (st', Val ret) ∧
    read_cells (mem st') (w - 4) 4 = Some (BVV 0 32) ∧
    (∀ x, (∀ i, -4 ≤ i < 0 → wrap (w + i) ≠ x) →
          mem st' !! x = mem st !! x) ∧
    constraints st'
      = constraints st ++ [ULE (TBv ret) (TBv (BVV 0 (bits arch)))].
Proof.
  intros Hmax ret. pose proof (space_large Harch) as HN.
  unfold libc_swprintf. unfold mbind at 1. rewrite Hmax.
  change (Z.to_nat 0) with 0%nat. cbn [swprintf_loop].
  unfold mbind, WCHAR_BYTES.
  rewrite mret_eq, (add_BVV Harch), (store_BVV Harch), BVS_eq.
  assert (bv_size ret = bits arch) as Hsz.
  { unfold ret, bv_size. rewrite length_sym_cells.
    pose proof (bits_bytes Harch) as Hbb. unfold arch_bytes in Hbb.
    pose proof (arch_bytes_ge Harch) as Hb. unfold arch_bytes in Hb. lia. }
  unfold add_constraints. cbn [mem constraints next_uid heap_location posix_environ set_mem].
  rewrite mret_eq. fold ret. rewrite Hsz.
  eexists. split_and!; [reflexivity| | |]; cbn [mem constraints byte_order].
  - apply (read_hit Harch); [lia|done|].
    change (Z.of_nat (length (BVV 0 32))) with 4. lia.
  - intros x Hx. apply write_cells_other. intros i Hi.
    change (length (BVV 0 (4 * 8))) with 4%nat in Hi.
    replace (w + (0 - 1) * 4 + i) with (w + (i - 4)) by lia. apply Hx. lia.
  - done.
Qed.

End Swprintf.

(** ** wcsncpy *)

Section Wcsncpy.
Context `{Host} `{Engine}.
Hypothesis Harch : arch_ok.

Lemma wide_at_ext m m' a us :
  (∀ i, 0 ≤ i < 4 * Z.of_nat (length us) →
     m' !! wrap (a + i) = m !! wrap (a + i)) →
  wide_at m a us → wide_at m' a us.
Proof.
  revert a. induction us as [|u us IH]; intros a Hsame Hw; [done|].
  destruct Hw as [Hu Hw]. cbn [length] in Hsame. split.
  - rewrite <- Hu. apply read_cells_ext. intros i Hi. apply Hsame. lia.
  - apply IH; [|done]. intros i Hi.
    replace (a + 4 + i) with (a + (4 + i)) by lia. apply Hsame. lia.
Qed.

Lemma is_true_eq_wide u :
  0 ≤ u < 2 ^ 32 → is_true_eq (BVV u 32) 0 = bool_decide (u = 0).
Proof.
  intros Hu. unfold is_true_eq. rewrite bv_concrete_BVV, bv_size_BVV by done.
  by rewrite (Z.mod_small u), (Z.mod_small 0) by lia.
Qed.

Lemma wcsncpy_loop_spec (D S : Z) (us : list Z) :
  ∀ (n : nat) (j : Z) (st : State),
    (length us ≤ n)%nat →
    (∀ (i : nat) u, us !! i = Some u → (i + 1 < length us)%nat → u ≠ 0) →
    length us = n ∨ last us = Some 0 →
    Forall (λ u, 0 ≤ u < 2 ^ 32) us →
    wide_at (mem st) (S + j) us →
    (∀ i i', 0 ≤ i < 4 * Z.of_nat (length us) →
             0 ≤ i' < 4 * Z.of_nat (length us) →
             wrap (D + j + i) ≠ wrap (S + j + i')) →
    4 * Z.of_nat (length us) ≤ 2 ^ bits arch →
    ∃ st',
      wcsncpy_loop n j (BVV D (bits arch)) (BVV S (bits arch)) st
        = (st', Val tt) ∧
      wide_at (mem st') (D + j) us ∧
      (∀ x, (∀ i, 0 ≤ i < 4 * Z.of_nat (length us) → wrap (D + j + i) ≠ x) →
            mem st' !! x = mem st !! x) ∧
      st' = set_mem (mem st') st.
Proof.
  induction us as [|u us IH]; intros n j st Hlen Hnz Hend Hrange Hsrc Hsep Hfit.
  - destruct Hend as [<-|Hl]; [|done]. exists st. cbn [length wcsncpy_loop].
    split_and!; try done. by destruct st.
  - destruct n as [|n]; [cbn in Hlen; lia|].
    destruct Hsrc as [Hu Hsrc]. apply Forall_cons in Hrange as [Hur Hrange].
    cbn [wcsncpy_loop]. unfold mbind, WCHAR_BYTES.
    rewrite (add_BVV Harch), (load_BVV Harch).
    rewrite (load_at_cells _ 4 _ _ _ Hu).
    rewrite (add_BVV Harch), (store_BVV Harch).
    rewrite is_true_eq_wide by done.
    set (st1 := set_mem _ st).
    assert (length (byte_order (memory_endness arch) (BVV u 32)) = 4%nat)
      as Hl4 by (by rewrite length_byte_order).
    assert (read_cells (mem st1) (D + j) 4
            = Some (byte_order (memory_endness arch) (BVV u 32))) as Hhere.
    { subst st1. cbn [mem set_mem]. apply (read_hit Harch); [done|done|].
      rewrite Hl4. cbn [length] in Hfit. lia. }
    assert (∀ x, (∀ i, 0 ≤ i < 4 → wrap (D + j + i) ≠ x) →
                 mem st1 !! x = mem st !! x) as Hfr1.
    { intros x Hx. subst st1. cbn [mem set_mem]. apply write_cells_other.
      intros i Hi. rewrite Hl4 in Hi. apply Hx. lia. }
    destruct (decide (us = [])) as [->|Hne].
    + (* the last unit to copy *)
      assert (∃ st', (if bool_decide (u = 0) then mret tt
                      else wcsncpy_loop n (j + 4) (BVV D (bits arch))
                             (BVV S (bits arch))) st1 = (st', Val tt)
                     ∧ st' = st1) as (st' & -> & ->).
      { case_bool_decide as Hz; [by eexists|].
        destruct Hend as [Hn|Hl]; [|cbn in Hl; congruence].
        cbn in Hn. assert (n = 0%nat) as -> by lia. by eexists. }
      exists st1. split_and!; [done| |by apply Hfr1|done].
      split; [done|done].
    + (* more to copy *)
      assert (u ≠ 0) as Hunz.
      { apply (Hnz 0%nat); [done|]. destruct us; [done|]. cbn [length]. lia. }
      rewrite bool_decide_false by done.
      cbn [length] in Hsep, Hfit, Hlen.
      destruct (IH n (j + 4) st1) as (st' & E & Hdst & Hfr & Hst).
      * lia.
      * intros i v Hi Hlt. apply (Hnz (Datatypes.S i)); [done|]. cbn [length]. lia.
      * destruct Hend as [Hn|Hl]; [left; cbn in Hn; lia|right].
        destruct us; [done|]. done.
      * done.
      * replace (S + (j + 4)) with (S + j + 4) by lia.
        apply (wide_at_ext (mem st)); [|done].
        intros i Hi. apply Hfr1. intros i' Hi'.
        replace (S + j + 4 + i) with (S + j + (4 + i)) by lia.
        apply Hsep; lia.
      * intros i i' Hi Hi'.
        replace (D + (j + 4) + i) with (D + j + (4 + i)) by lia.
        replace (S + (j + 4) + i') with (S + j + (4 + i')) by lia.
        apply Hsep; lia.
      * lia.
      * rewrite E. exists st'. split_and!; [done| | |].
        -- split.
           ++ rewrite <- Hhere. apply read_cells_ext. intros i Hi.
              apply Hfr. intros i' Hi'. apply (wrap_ne Harch). lia.
           ++ by replace (D + j + 4) with (D + (j + 4)) by lia.
        -- intros x Hx. rewrite Hfr, Hfr1; [done| |].
           ++ intros i Hi. apply Hx. cbn [length]. lia.
           ++ intros i Hi.
              replace (D + (j + 4) + i) with (D + j + (4 + i)) by lia.
              apply Hx. cbn [length]. lia.
        -- rewrite Hst. by subst st1.
Qed.

(** X13.  wcsncpy from a wide string whose null character comes before
    the limit: the characters up to and including the null character are
    copied, the source keeps its contents, and no cell after the copied
    null character is written; the rest of the destination is not padded.
    The call answers [dest]. *)
Theorem wcsncpy_copies_through_null (D S : Z) (units : list Z)
    (n : list sbyte) (m : Z) (st : State) :
  let k := Z.of_nat (length units) in
  Forall (λ u, 0 < u < 2 ^ 32) units →
  wide_at (mem st) S (units ++ [0]) →
  solver_max n st = (st, Val m) →
  k < m →
  separate D (4 * (k + 1)) S (4 * (k + 1)) →
  ∃ st',
    libc_wcsncpy (BVV D (bits arch)) (BVV S (bits arch)) n st
      = (st', Val (BVV D (bits arch))) ∧
    wide_at (mem st') D (units ++ [0]) ∧
    (∀ x, (∀ i, 0 ≤ i < 4 * (k + 1) → wrap (D + i) ≠ x) →
          mem st' !! x = mem st !! x) ∧
    st' = set_mem (mem st') st.
Proof.
  intros k Hnz Hsrc Hmax Hk Hsep.
  pose proof (separate_small Harch _ _ _ _ Hsep) as [Hfit _].
  assert (Z.of_nat (length (units ++ [0])) = k + 1) as Hlen
    by (rewrite length_app; cbn [length]; lia).
  destruct (wcsncpy_loop_spec D S (units ++ [0]) (Z.to_nat m) 0 st)
    as (st' & E & Hdst & Hfr & Hst).
  - lia.
  - intros i u Hi Hlt. rewrite length_app in Hlt. cbn [length] in Hlt.
    rewrite lookup_app_l in Hi by lia.
    pose proof (Forall_lookup_1 _ _ _ _ Hnz Hi) as Hu. cbn in Hu. lia.
  - right. by rewrite last_snoc.
  - apply Forall_app. split.
    + eapply Forall_impl; [exact Hnz|]. cbn. lia.
    + repeat constructor; lia.
  - by rewrite Z.add_0_r.
  - intros i i' Hi Hi'. rewrite !Z.add_0_r.
    apply (separate_ne Harch _ _ _ _ _ _ Hsep); lia.
  - lia.
  - rewrite !Z.add_0_r in *. unfold libc_wcsncpy, mbind.
    rewrite Hmax, E, mret_eq. exists st'. split_and!; [done|done| |done].
    intros x Hx. apply Hfr. intros i Hi. apply Hx. lia.
Qed.

(** X14.  wcsncpy from [n] wide characters none of which is null, with
    limit [n]: exactly these are copied and nothing is written after
    them, so the destination is not terminated. *)
Theorem wcsncpy_stops_at_n (D S : Z) (units : list Z) (n : list sbyte)
    (st : State) :
  let k := Z.of_nat (length units) in
  Forall (λ u, 0 < u < 2 ^ 32) units →
  wide_at (mem st) S units →
  solver_max n st = (st, Val k) →
  separate D (4 * k) S (4 * k) →
  ∃ st',
    libc_wcsncpy (BVV D (bits arch)) (BVV S (bits arch)) n st
      = (st', Val (BVV D (bits arch))) ∧
    wide_at (mem st') D units ∧
    (∀ x, (∀ i, 0 ≤ i < 4 * k → wrap (D + i) ≠ x) →
          mem st' !! x = mem st !! x) ∧
    st' = set_mem (mem st') st.
Proof.
  intros k Hnz Hsrc Hmax Hsep.
  pose proof (separate_small Harch _ _ _ _ Hsep) as [Hfit _].
  destruct (wcsncpy_loop_spec D S units (Z.to_nat k) 0 st)
    as (st' & E & Hdst & Hfr & Hst).
  - lia.
  - intros i u Hi _.
    pose proof (Forall_lookup_1 _ _ _ _ Hnz Hi) as Hu. cbn in Hu. lia.
  - left. lia.
  - eapply Forall_impl; [exact Hnz|]. cbn. lia.
  - by rewrite Z.add_0_r.
  - intros i i' Hi Hi'. rewrite !Z.add_0_r.
    apply (separate_ne Harch _ _ _ _ _ _ Hsep); lia.
  - lia.
  - rewrite !Z.add_0_r in *. unfold libc_wcsncpy, mbind.
    rewrite Hmax, E, mret_eq. exists st'. split_and!; [done|done| |done].
    intros x Hx. apply Hfr. intros i Hi. apply Hx. lia.
Qed.

End Wcsncpy.

(** ** Paths *)

Lemma split_sep_nonempty s : split_sep s ≠ [].
Proof.
  destruct s as [|c r]; cbn [split_sep]; [done|].
  case_bool_decide; [done|]. by destruct (split_sep r).
Qed.

Lemma split_sep_no_sep s : Forall (λ comp, 47 ∉ comp) (split_sep s).
Proof.
  induction s as [|c r IH]; cbn [split_sep].
  - repeat constructor. apply not_elem_of_nil.
  - case_bool_decide as Hc.
    + constructor; [apply not_elem_of_nil|done].
    + destruct (split_sep r) as [|comp comps].
      * repeat constructor. apply not_elem_of_cons.
        split; [congruence|apply not_elem_of_nil].
      * apply Forall_cons in IH as [H1 H2]. constructor; [|done].
        apply not_elem_of_cons. split; [congruence|done].
Qed.

Lemma split_sep_chars s :
  Forall (λ comp, ∀ c, c ∈ comp → c ∈ s) (split_sep s).
Proof.
  induction s as [|c r IH]; cbn [split_sep].
  - repeat constructor. by intros c ?%elem_of_nil.
  - assert (Forall (λ comp, ∀ x, x ∈ comp → x ∈ c :: r) (split_sep r)) as IH'.
    { eapply Forall_impl; [exact IH|]. cbn. intros comp Hc x Hx.
      apply elem_of_cons. right. by apply Hc. }
    case_bool_decide as Hc.
    + constructor; [|done]. by intros x ?%elem_of_nil.
    + destruct (split_sep r) as [|comp comps]; [constructor|].
      * intros x ->%list_elem_of_singleton. apply elem_of_cons. by left.
      * constructor.
      * apply Forall_cons in IH' as [H1 H2]. constructor; [|done].
        intros x [->|Hx]%elem_of_cons; [apply elem_of_cons; by left|].
        by apply H1.
Qed.

Lemma join_sep_chars comps c :
  c ∈ join_sep comps → c = 47 ∨ ∃ comp, comp ∈ comps ∧ c ∈ comp.
Proof.
  induction comps as [|comp comps IH]; cbn [join_sep].
  - by intros ?%elem_of_nil.
  - destruct comps as [|comp' comps'].
    + intros Hc. right. exists comp. split; [apply elem_of_cons; by left|done].
    + intros [Hc|[->|Hc]%elem_of_cons]%elem_of_app.
      * right. exists comp. split; [apply elem_of_cons; by left|done].
      * by left.
      * destruct (IH Hc) as [->|(comp0 & Hin & Hc0)]; [by left|].
        right. exists comp0. split; [apply elem_of_cons; by right|done].
Qed.

Lemma normpath_step_sub (P : list Z → Prop) k0 nc comp :
  P comp → Forall P nc → Forall P (normpath_step k0 nc comp).
Proof.
  intros Hc Hnc. unfold normpath_step.
  destruct (_ || _); [done|].
  destruct (_ || _ || _); [by constructor|].
  destruct nc as [|c nc']; [done|]. by apply Forall_cons in Hnc as [_ ?].
Qed.

Lemma normpath_fold_sub (P : list Z → Prop) k0 comps :
  ∀ nc, Forall P comps → Forall P nc →
        Forall P (fold_left (normpath_step k0) comps nc).
Proof.
  induction comps as [|comp comps IH]; intros nc Hc Hnc; [done|].
  apply Forall_cons in Hc as [H1 H2]. cbn [fold_left].
  apply IH; [done|]. by apply normpath_step_sub.
Qed.

Lemma normpath_step_proper k0 nc comp :
  k0 ≠ 0 → 47 ∉ comp → Forall proper_component nc →
  Forall proper_component (normpath_step k0 nc comp).
Proof.
  intros Hk0 Hc Hnc. unfold normpath_step.
  case_bool_decide as H1; cbn [orb]; [done|].
  case_bool_decide as H2; cbn [orb]; [done|].
  case_bool_decide as H3; cbn [negb orb].
  - rewrite (bool_decide_false (k0 = 0)) by done. cbn [andb orb].
    destruct nc as [|c nc']; [done|].
    apply Forall_cons in Hnc as [(_ & _ & Hdd & _) Hnc'].
    by rewrite bool_decide_false by done.
  - constructor; [|done]. by split_and!.
Qed.

Lemma normpath_fold_proper k0 comps :
  k0 ≠ 0 →
  ∀ nc, Forall (λ comp, 47 ∉ comp) comps → Forall proper_component nc →
        Forall proper_component (fold_left (normpath_step k0) comps nc).
Proof.
  intros Hk0. induction comps as [|comp comps IH]; intros nc Hc Hnc; [done|].
  apply Forall_cons in Hc as [H1 H2]. cbn [fold_left].
  apply IH; [done|]. by apply normpath_step_proper.
Qed.

Lemma posix_join_absolute cwd p :
  startswith_sep cwd = true → startswith_sep (posix_join cwd p) = true.
Proof.
  intros Hcwd. unfold posix_join.
  destruct (startswith_sep p) eqn:Hp; [done|].
  destruct cwd as [|c cwd]; [done|].
  by destruct (_ || _).
Qed.

(** X19.  Under a working directory that begins with '/', the text that
    realpath normalises is '/' or '//' followed by components joined by
    '/', none of which is empty, ".", ".." or holds a '/'. *)
Theorem realpath_absolute_canonical (cwd path_str : list Z) :
  startswith_sep cwd = true →
  ∃ comps,
    Forall proper_component comps ∧
    (posix_normpath (posix_join cwd path_str) = 47 :: join_sep comps ∨
     posix_normpath (posix_join cwd path_str) = 47 :: 47 :: join_sep comps).
Proof.
  intros Hcwd. apply (posix_join_absolute _ path_str) in Hcwd.
  destruct (posix_join cwd path_str) as [|c rest] eqn:Ej; [done|].
  cbn in Hcwd. apply bool_decide_eq_true in Hcwd as ->.
  unfold posix_normpath. rewrite bool_decide_false by done.
  set (k0 := match 47 :: rest with
             | 47 :: 47 :: 47 :: _ => 1
             | 47 :: 47 :: _ => 2
             | 47 :: _ => 1
             | _ => 0
             end).
  assert (k0 = 1 ∨ k0 = 2) as Hk0.
  { subst k0. destruct rest as [|[|[]|] [|[|[]|] ?]]; auto;
      repeat (match goal with |- context [match ?p with _ => _ end] => destruct p end; auto). }
  exists (rev (fold_left (normpath_step k0) (split_sep (47 :: rest)) [])).
  split.
  - apply Forall_rev. apply normpath_fold_proper; [lia| |constructor].
    apply split_sep_no_sep.
  - destruct Hk0 as [-> | ->]; cbn [Z.to_nat replicate app Pos.to_nat Pos.iter_op Nat.add].
    + left. done.
    + right. done.
Qed.

Lemma posix_normpath_chars p c :
  c ∈ posix_normpath p → c ∈ p ∨ c = 47 ∨ c = 46.
Proof.
  unfold posix_normpath. case_bool_decide as Hp.
  { intros ->%list_elem_of_singleton. auto. }
  set (k0 := match p with
             | 47 :: 47 :: 47 :: _ => 1
             | 47 :: 47 :: _ => 2
             | 47 :: _ => 1
             | _ => 0
             end).
  case_bool_decide as He.
  { intros ->%list_elem_of_singleton. auto. }
  intros [Hc|Hc]%elem_of_app.
  - apply elem_of_replicate in Hc as [-> _]. auto.
  - apply join_sep_chars in Hc as [->|(comp & Hin & Hc)]; [auto|].
    left. apply list_elem_of_In, in_rev, list_elem_of_In in Hin.
    pose proof (normpath_fold_sub (λ comp, ∀ c, c ∈ comp → c ∈ p) k0
                  (split_sep p) [] (split_sep_chars p) (Forall_nil_2 _)) as Hall.
    rewrite Forall_forall in Hall. by apply (Hall comp).
Qed.

Lemma posix_join_chars a b c :
  c ∈ posix_join a b → c ∈ a ∨ c ∈ b ∨ c = 47.
Proof.
  unfold posix_join. destruct (startswith_sep b); [auto|].
  destruct (_ || _).
  - intros [?|?]%elem_of_app; auto.
  - intros [?|[->|?]%elem_of_cons]%elem_of_app; auto.
Qed.

Lemma utf8_decode_ascii s : Forall is_ascii s → utf8_decode s = Some s.
Proof.
  intros Hs. pose proof (utf8_decode_ascii_app s [] Hs) as Hd.
  rewrite app_nil_r in Hd. cbn in Hd. by rewrite app_nil_r in Hd.
Qed.

Lemma utf8_encode_ascii s : Forall is_ascii s → utf8_encode s = Some s.
Proof.
  induction 1 as [|c s Hc _ IH]; [done|]. cbn [utf8_encode].
  unfold utf8_encode_char. unfold is_ascii in Hc.
  rewrite bool_decide_false by lia. rewrite bool_decide_true by lia.
  by rewrite IH.
Qed.

Lemma realpath_text_ascii cwd path_str n :
  Forall is_ascii cwd → Forall is_ascii path_str →
  Forall is_ascii (take n (posix_normpath (posix_join cwd path_str))).
Proof.
  intros Hcwd Hp. apply Forall_take. apply Forall_forall. intros c Hc.
  rewrite Forall_forall in Hcwd, Hp.
  apply posix_normpath_chars in Hc as [Hc|[->| ->]]; [|unfold is_ascii; lia..].
  apply posix_join_chars in Hc as [Hc|[Hc| ->]]; [by apply Hcwd|by apply Hp|].
  unfold is_ascii; lia.
Qed.

(** ** realpath *)

Section Realpath.
Context `{Host} `{Engine}.
Hypothesis Harch : arch_ok.

Lemma write_cells_app m a (l1 l2 : list sbyte) :
  write_cells m a (l1 ++ l2)
  = write_cells (write_cells m a l1) (a + Z.of_nat (length l1)) l2.
Proof.
  revert m a. induction l1 as [|c l1 IH]; intros m a.
  - cbn. by rewrite Z.add_0_r.
  - cbn [app write_cells length]. rewrite IH. f_equal. lia.
Qed.

Lemma sym_cells_last name uid (n : nat) :
  sym_cells name uid (S n) !! n = Some (Sym name uid 0).
Proof.
  induction n as [|n IH]; [done|]. by rewrite sym_cells_S.
Qed.

Lemma realpath_prefix (P b k : Z) (cells : list sbyte) (st st2 : State)
    (r : strlen_proc) :
  let st1 := (realpath_buf b st).1 in
  let B := (realpath_buf b st).2 in
  strlen (BVV P (bits arch)) st1 = (st2, Val r) →
  solver_max (ret_expr r) st2 = (st2, Val k) →
  read_cells (mem st2) P (Z.to_nat k) = Some cells →
  libc_realpath (BVV P (bits arch)) (BVV b (bits arch)) st
  = (realpath_store (BVV B (bits arch)) cells ;;;
     mret (BVV B (bits arch))) st2.
Proof.
  intros st1 B Hlen Hmax Hread. unfold libc_realpath. unfold mbind at 1.
  rewrite (solver_eval_concrete _ (wrap b)) by apply (concrete_ptr Harch).
  unfold mbind at 1.
  assert ((if bool_decide (wrap b = 0) then malloc realpath_MAX_PATH
           else mret (BVV b (bits arch))) st = (st1, Val (BVV B (bits arch))))
    as ->.
  { unfold st1, B, realpath_buf. case_bool_decide; [|done].
    by rewrite malloc_eq. }
  unfold mbind at 1. rewrite Hlen. unfold mbind at 1.
  unfold load_sized, mbind at 1. rewrite Hmax.
  rewrite (load_BVV Harch). unfold load_at. rewrite Hread.
  cbn [byte_order]. done.
Qed.

(** X18.  realpath on a path that has a symbolic byte: the 4096 bytes of
    the buffer become one new symbolic value, the last byte included, so
    the buffer holds no zero byte that the call put there.  The buffer is
    the caller's, or 4096 new bytes of the heap when [resolved_path] is
    null. *)
Theorem realpath_symbolic_unterminated (P b k : Z) (cells : list sbyte)
    (st st2 : State) (r : strlen_proc) :
  let st1 := (realpath_buf b st).1 in
  let B := (realpath_buf b st).2 in
  let v := sym_cells "realpath" (next_uid st2) 4096 in
  strlen (BVV P (bits arch)) st1 = (st2, Val r) →
  solver_max (ret_expr r) st2 = (st2, Val k) →
  read_cells (mem st2) P (Z.to_nat k) = Some cells →
  symbolic cells = true →
  ∃ st',
    libc_realpath (BVV P (bits arch)) (BVV b (bits arch)) st
      = (st', Val (BVV B (bits arch))) ∧
    read_cells (mem st') B 4096 = Some v ∧
    mem st' !! wrap (B + 4095) = Some (Sym "realpath" (next_uid st2) 0) ∧
    (∀ x, (∀ i, 0 ≤ i < 4096 → wrap (B + i) ≠ x) →
          mem st' !! x = mem st2 !! x) ∧
    constraints st' = constraints st2.
Proof.
  intros st1 B v Hlen Hmax Hread Hsym.
  pose proof (space_large Harch) as HN.
  rewrite (realpath_prefix P b k cells st st2 r Hlen Hmax Hread). fold B.
  unfold realpath_store. rewrite Hsym. unfold mbind, realpath_MAX_PATH.
  rewrite BVS_eq, (store_BVV Harch), mret_eq.
  change (Z.to_nat ((4096 * 8) `div` 8)) with 4096%nat.
  fold v. cbn [byte_order]. unfold set_mem. cbn [mem constraints].
  assert (length v = 4096%nat) as Hlv by apply length_sym_cells.
  eexists. split_and!; [reflexivity| | | |]; cbn [mem constraints].
  - apply (read_hit Harch); [done|by rewrite Hlv|]. rewrite Hlv. lia.
  - rewrite (write_cells_at Harch _ _ _ 4095 (Sym "realpath" (next_uid st2) 0)).
    + done.
    + apply (sym_cells_last _ _ 4095).
    + rewrite Hlv. lia.
  - intros x Hx. rewrite write_cells_other; [done|].
    intros i Hi. rewrite Hlv in Hi. apply Hx. lia.
  - done.
Qed.

Lemma realpath_concrete_run (P b k : Z) (raw cwd path_str bs : list Z)
    (st st2 : State) (r : strlen_proc) :
  let st1 := (realpath_buf b st).1 in
  let B := (realpath_buf b st).2 in
  strlen (BVV P (bits arch)) st1 = (st2, Val r) →
  solver_max (ret_expr r) st2 = (st2, Val k) →
  read_cells (mem st2) P (Z.to_nat k) = Some (Conc <$> raw) →
  utf8_decode (fs_cwd st2) = Some cwd →
  utf8_decode raw = Some path_str →
  utf8_encode (take 4095 (posix_normpath (posix_join cwd path_str)))
    = Some bs →
  libc_realpath (BVV P (bits arch)) (BVV b (bits arch)) st
  = (set_mem (write_cells (mem st2) B (Conc <$> (bs ++ [0]))) st2,
     Val (BVV B (bits arch))).
Proof.
  intros st1 B Hlen Hmax Hread Hcwd Hdec Henc.
  rewrite (realpath_prefix P b k (Conc <$> raw) st st2 r Hlen Hmax Hread).
  fold B. unfold realpath_store.
  assert (symbolic (Conc <$> raw) = false) as ->
    by (unfold symbolic; by rewrite bv_bytes_Conc).
  unfold mbind at 1. unfold mbind at 1. unfold get_state. rewrite Hcwd.
  unfold mbind at 1. unfold solver_eval_bytes. rewrite bv_bytes_Conc.
  rewrite mret_eq, Hdec. unfold realpath_MAX_PATH.
  change (Z.to_nat (4096 - 1)) with 4095%nat. rewrite Henc.
  by rewrite (store_BVV Harch), mret_eq.
Qed.

(** X16.  realpath on a concrete path: the buffer receives the UTF-8
    bytes of [normpath(join(cwd, path))] cut to 4095 characters, then a
    zero byte; no other cell changes and no constraint is added.  The cut
    counts characters, not bytes. *)
Theorem realpath_stores_normalised (P b k : Z) (raw cwd path_str bs : list Z)
    (st st2 : State) (r : strlen_proc) :
  let st1 := (realpath_buf b st).1 in
  let B := (realpath_buf b st).2 in
  strlen (BVV P (bits arch)) st1 = (st2, Val r) →
  solver_max (ret_expr r) st2 = (st2, Val k) →
  read_cells (mem st2) P (Z.to_nat k) = Some (Conc <$> raw) →
  utf8_decode (fs_cwd st2) = Some cwd →
  utf8_decode raw = Some path_str →
  utf8_encode (take 4095 (posix_normpath (posix_join cwd path_str)))
    = Some bs →
  Z.of_nat (length bs) < 2 ^ bits arch →
  ∃ st',
    libc_realpath (BVV P (bits arch)) (BVV b (bits arch)) st
      = (st', Val (BVV B (bits arch))) ∧
    terminated_at st' B (Conc <$> bs) ∧
    (∀ x, (∀ i, 0 ≤ i ≤ Z.of_nat (length bs) → wrap (B + i) ≠ x) →
          mem st' !! x = mem st2 !! x) ∧
    constraints st' = constraints st2 ∧ next_uid st' = next_uid st2.
Proof.
  intros st1 B Hlen Hmax Hread Hcwd Hdec Henc Hfit.
  rewrite (realpath_concrete_run P b k raw cwd path_str bs st st2 r)
    by done.
  fold B. eexists. split_and!; [reflexivity| | | |];
    cbn [mem constraints next_uid set_mem].
  - eapply (store_terminated Harch);
      [by rewrite length_fmap|]. cbn [mem set_mem].
    by rewrite fmap_app, write_cells_app.
  - intros x Hx. apply write_cells_other.
    intros i Hi. rewrite length_fmap, length_app in Hi. cbn [length] in Hi.
    apply Hx. lia.
  - done.
  - done.
Qed.

(** X17.  realpath on an ASCII path under an ASCII working directory:
    what is stored, the zero byte included, fits the 4096 bytes of the
    buffer. *)
Theorem realpath_ascii_fits (P b k : Z) (raw : list Z) (st st2 : State)
    (r : strlen_proc) :
  let st1 := (realpath_buf b st).1 in
  let B := (realpath_buf b st).2 in
  let out := take 4095 (posix_normpath (posix_join (fs_cwd st2) raw)) in
  strlen (BVV P (bits arch)) st1 = (st2, Val r) →
  solver_max (ret_expr r) st2 = (st2, Val k) →
  read_cells (mem st2) P (Z.to_nat k) = Some (Conc <$> raw) →
  Forall is_ascii (fs_cwd st2) →
  Forall is_ascii raw →
  ∃ st',
    libc_realpath (BVV P (bits arch)) (BVV b (bits arch)) st
      = (st', Val (BVV B (bits arch))) ∧
    terminated_at st' B (Conc <$> out) ∧
    Z.of_nat (length out) + 1 ≤ 4096 ∧
    (∀ x, (∀ i, 0 ≤ i < 4096 → wrap (B + i) ≠ x) →
          mem st' !! x = mem st2 !! x).
Proof.
  intros st1 B out Hlen Hmax Hread Hcwd Hraw.
  pose proof (space_large Harch) as HN.
  assert (Z.of_nat (length out) ≤ 4095) as Hout
    by (unfold out; rewrite length_take; lia).
  rewrite (realpath_concrete_run P b k raw (fs_cwd st2) raw out st st2 r);
    [|done|done|done|by apply utf8_decode_ascii|by apply utf8_decode_ascii|].
  2:{ apply utf8_encode_ascii. by apply realpath_text_ascii. }
  fold B. eexists. split_and!; [reflexivity| |lia|]; cbn [mem set_mem].
  - eapply (store_terminated Harch);
      [rewrite length_fmap; lia|]. cbn [mem set_mem].
    by rewrite fmap_app, write_cells_app.
  - intros x Hx. apply write_cells_other.
    intros i Hi. rewrite length_fmap, length_app in Hi. cbn [length] in Hi.
    apply Hx. lia.
Qed.

End Realpath.

(** ** Python numerals *)

Lemma scan_digits_app ds rest acc :
  Forall (λ d, 48 ≤ d ≤ 57) ds →
  match rest with
  | [] => True
  | c :: _ => ¬ (48 ≤ c ≤ 57) ∧ c ≠ 95
  end →
  scan_digits (ds ++ rest) acc false
  = Some (fold_left (λ acc d, acc * 10 + (d - 48)) ds acc, rest).
Proof.
  intros Hds Hrest. revert acc.
  induction Hds as [|d ds Hd _ IH]; intros acc.
  - cbn [app fold_left]. destruct rest as [|c r]; [done|].
    destruct Hrest as [Hnd Hnu]. cbn [scan_digits]. unfold py_isdigit.
    by rewrite !bool_decide_false by done.
  - cbn [app fold_left scan_digits]. unfold py_isdigit at 1.
    rewrite bool_decide_true by done. apply IH.
Qed.

Lemma forallb_ascii s :
  Forall is_ascii s → forallb (λ c, bool_decide (0 ≤ c < 128)) s = true.
Proof.
  induction 1 as [|c s Hc _ IH]; [done|]. cbn [forallb].
  by rewrite bool_decide_true, IH.
Qed.

Lemma py_int_numeral sign ds rest :
  is_sign sign → ds ≠ [] → Forall (λ d, 48 ≤ d ≤ 57) ds →
  Forall is_ascii rest →
  match rest with
  | [] => True
  | c :: _ => ¬ (48 ≤ c ≤ 57) ∧ c ≠ 95 ∧ py_isspace c = false
  end →
  py_int (sign ++ ds ++ rest)
  = match rest with
    | [] => Val (if bool_decide (sign = [45]) then - digits_value ds
                 else digits_value ds)
    | _ :: _ => Raise (OtherError "ValueError")
    end.
Proof.
  intros Hsign Hne Hds Hascii Hrest.
  assert (Forall is_ascii ds) as Hdsa.
  { eapply Forall_impl; [exact Hds|]. unfold is_ascii. cbn. lia. }
  assert (Forall is_ascii sign) as Hsa.
  { destruct Hsign as [->|[->| ->]]; repeat constructor; unfold is_ascii; lia. }
  unfold py_int. rewrite forallb_ascii
    by (repeat (apply Forall_app; split); done).
  cbn [negb].
  destruct ds as [|d ds]; [done|]. apply Forall_cons in Hds as Hd.
  destruct Hd as [Hd _].
  assert (skip_space ((d :: ds) ++ rest) = (d :: ds) ++ rest) as Hskd.
  { cbn [app skip_space]. unfold py_isspace.
    by rewrite !bool_decide_false by lia. }
  assert (scan_digits ((d :: ds) ++ rest) 0 false
          = Some (digits_value (d :: ds), rest)) as Hscan.
  { apply scan_digits_app; [done|]. destruct rest; [done|]. by destruct Hrest as (?&?&?). }
  assert (skip_space rest = rest) as Hskr.
  { destruct rest as [|c r]; [done|]. destruct Hrest as (_ & _ & Hsp).
    cbn [skip_space]. by rewrite Hsp. }
  assert (∀ neg : bool,
    match (d :: ds) ++ rest with
    | c :: _ =>
      if py_isdigit c then
        match scan_digits ((d :: ds) ++ rest) 0 false with
        | Some (v, rest0) =>
          match skip_space rest0 with
          | [] => Val (if neg then - v else v)
          | _ :: _ => Raise (OtherError "ValueError")
          end
        | None => Raise (OtherError "ValueError")
        end
      else Raise (OtherError "ValueError")
    | [] => Raise (OtherError "ValueError")
    end
    = match rest with
      | [] => Val (if neg then - digits_value (d :: ds) else digits_value (d :: ds))
      | _ :: _ => Raise (OtherError "ValueError")
      end) as Hbody.
  { intros neg. rewrite Hscan, Hskr. cbn [app]. unfold py_isdigit.
    by rewrite bool_decide_true by done. }
  destruct Hsign as [->|[->| ->]].
  - cbn [app] in *. rewrite Hskd. cbn [app].
    rewrite !bool_decide_false by lia.
    rewrite (bool_decide_false ([] = [45])) by done. apply (Hbody false).
  - change ([43] ++ (d :: ds) ++ rest) with (43 :: (d :: ds) ++ rest).
    cbn [skip_space]. change (py_isspace 43) with false. cbv iota.
    rewrite bool_decide_true by done.
    rewrite (bool_decide_false ([43] = [45])) by done. apply (Hbody false).
  - change ([45] ++ (d :: ds) ++ rest) with (45 :: (d :: ds) ++ rest).
    cbn [skip_space]. change (py_isspace 45) with false. cbv iota.
    rewrite bool_decide_false by done. rewrite bool_decide_true by done.
    rewrite (bool_decide_true ([45] = [45])) by done. apply (Hbody true).
Qed.

Section Atol.
Context `{Host} `{Engine}.
Hypothesis Harch : arch_ok.

Lemma atol_concrete_run (a : Z) (text : list Z) (st st1 : State)
    (r : list sbyte) (c : list bexpr) (more : list Z) :
  text ≠ [] → Forall is_ascii text →
  memory_find (BVV a (bits arch)) [Conc 0] 256 (BVV (a + 256) (bits arch)) st
    = (st1, Val (r, c, Z.of_nat (length text) :: more)) →
  read_cells (mem st1) a (length text) = Some (Conc <$> text) →
  libc_atol (BVV a (bits arch)) st
  = (v <- lift_res (py_int text) ;; mret (PInt v)) st1.
Proof.
  intros Hne Hascii Hfind Hread. unfold libc_atol.
  assert (symbolic (BVV a (bits arch)) = false) as ->
    by (unfold symbolic; by rewrite BVV_bytes).
  unfold mbind at 1. rewrite (add_BVV Harch).
  unfold mbind at 1. rewrite Hfind. cbn [snd].
  rewrite bool_decide_false by (destruct text; [done|cbn [length]; lia]).
  unfold mbind at 1. rewrite (load_BVV Harch). unfold load_at.
  rewrite Nat2Z.id, Hread. cbn [byte_order].
  unfold mbind at 1. unfold solver_eval_bytes. rewrite bv_bytes_Conc, mret_eq.
  by rewrite utf8_decode_ascii.
Qed.

(** X20.  atol on a concrete string that is an optional sign and decimal
    digits: the call answers the number they write, as a Python integer of
    any size, and leaves the state as [find] left it. *)
Theorem atol_decimal_exact (a : Z) (sign ds : list Z) (st st1 : State)
    (r : list sbyte) (c : list bexpr) (more : list Z) :
  let text := sign ++ ds in
  is_sign sign → ds ≠ [] → Forall (λ d, 48 ≤ d ≤ 57) ds →
  memory_find (BVV a (bits arch)) [Conc 0] 256 (BVV (a + 256) (bits arch)) st
    = (st1, Val (r, c, Z.of_nat (length text) :: more)) →
  read_cells (mem st1) a (length text) = Some (Conc <$> text) →
  libc_atol (BVV a (bits arch)) st
  = (st1, Val (PInt (if bool_decide (sign = [45]) then - digits_value ds
                     else digits_value ds))).
Proof.
  intros text Hsign Hne Hds Hfind Hread.
  assert (Forall is_ascii text) as Hascii.
  { apply Forall_app. split.
    - destruct Hsign as [->|[->| ->]]; repeat constructor; unfold is_ascii; lia.
    - eapply Forall_impl; [exact Hds|]. unfold is_ascii. cbn. lia. }
  rewrite (atol_concrete_run a text st st1 r c more); try done.
  - pose proof (py_int_numeral sign ds [] Hsign Hne Hds (Forall_nil_2 _) I) as Hp.
    rewrite app_nil_r in Hp. fold text in Hp. unfold mbind, lift_res.
    by rewrite Hp.
  - unfold text. destruct ds; [done|]. by destruct sign.
Qed.

(** X21.  atol on a concrete string in which the digits are followed by
    an ASCII character that is neither a digit, nor '_', nor white space:
    [int] raises ValueError and so does the call; the digits read so far
    are not answered. *)
Theorem atol_trailing_text_raises (a : Z) (sign ds rest : list Z) (x : Z)
    (st st1 : State) (r : list sbyte) (c : list bexpr) (more : list Z) :
  let text := sign ++ ds ++ x :: rest in
  is_sign sign → ds ≠ [] → Forall (λ d, 48 ≤ d ≤ 57) ds →
  Forall is_ascii (x :: rest) →
  ¬ (48 ≤ x ≤ 57) → x ≠ 95 → py_isspace x = false →
  memory_find (BVV a (bits arch)) [Conc 0] 256 (BVV (a + 256) (bits arch)) st
    = (st1, Val (r, c, Z.of_nat (length text) :: more)) →
  read_cells (mem st1) a (length text) = Some (Conc <$> text) →
  libc_atol (BVV a (bits arch)) st = (st1, Raise (OtherError "ValueError")).
Proof.
  intros text Hsign Hne Hds Hrest Hx1 Hx2 Hx3 Hfind Hread.
  assert (Forall is_ascii text) as Hascii.
  { apply Forall_app. split; [|apply Forall_app; split; [|done]].
    - destruct Hsign as [->|[->| ->]]; repeat constructor; unfold is_ascii; lia.
    - eapply Forall_impl; [exact Hds|]. unfold is_ascii. cbn. lia. }
  rewrite (atol_concrete_run a text st st1 r c more); try done.
  - pose proof (py_int_numeral sign ds (x :: rest) Hsign Hne Hds Hrest
                  ltac:(done)) as Hp.
    fold text in Hp. unfold mbind, lift_res. by rewrite Hp.
  - unfold text. destruct ds; [done|]. by destruct sign.
Qed.

End Atol.

(** ** getenv: an entry without a value *)

Lemma split_eq_0_all (key : list Z) :
  Forall (λ b, b ≠ 61) key → split_eq_0 key = key.
Proof.
  induction 1 as [|b key Hb _ IH]; [done|]. cbn [split_eq_0].
  by rewrite bool_decide_false, IH.
Qed.

Section GetenvBare.
Context `{Host}.
Hypothesis Harch : arch_ok.

(** X23.  An entry that is the name alone, without '=': its key is the
    whole entry, so the lookup of that name matches it.  The call answers
    the address of the entry plus the length of the name plus 1, which is
    the cell after the zero byte that ends the entry. *)
Theorem getenv_entry_without_equals (a E ptr : Z) (key : list Z)
    (before : list (Z * list Z)) (fuel : nat) (st : State) :
  let st0 :=
    {| mem := mem st; constraints := constraints st;
       next_uid := S (next_uid st); heap_location := heap_location st;
       posix_environ := posix_environ st |} in
  Forall (λ b, 0 ≤ b < 128 ∧ b ≠ 61) key →
  match strlen (BVV a (bits arch)) st with
  | (st', Val r) =>
    st' = st ∧ bv_concrete (ret_expr r) = Some (Z.of_nat (length key))
  | _ => False
  end →
  read_cells (mem st) a (length key) = Some (Conc <$> key) →
  bv_concrete (posix_environ st) = Some E →
  other_entries st0 E before key →
  entry_at st0 (E + Z.of_nat (length before) * arch_bytes) ptr key →
  mem st !! wrap (ptr + Z.of_nat (length key)) = Some (Conc 0) →
  (length before < fuel)%nat →
  libc_getenv fuel (BVV a (bits arch)) st
    = (st0, Val (PInt (ptr + Z.of_nat (length key) + 1))) ∧
  mem st0 !! wrap (ptr + Z.of_nat (length key) + 1 - 1) = Some (Conc 0).
Proof.
  intros st0 Hkey Hlen Hname Henv Hbefore Hentry Hterm Hfuel.
  assert (Forall (λ b, 0 ≤ b < 128) key) as Hascii
    by (eapply Forall_impl; [exact Hkey|]; cbn; lia).
  assert (Forall (λ b, b ≠ 61) key) as Hne
    by (eapply Forall_impl; [exact Hkey|]; cbn; lia).
  pose proof (utf8_decode_ascii key Hascii) as Hdec.
  split.
  - unfold libc_getenv, mbind at 1. unfold getenv_setup, mbind at 1.
    destruct (strlen (BVV a (bits arch)) st) as [st' [r| | |]]; try done.
    destruct Hlen as [-> Hr].
    unfold mbind at 1. unfold load_sized, mbind at 1.
    rewrite (solver_max_concrete _ _ _ Hr).
    rewrite (load_BVV Harch). unfold load_at. rewrite Nat2Z.id, Hname.
    cbn [byte_order]. unfold mbind at 1. rewrite bv_bytes_Conc.
    rewrite Hdec, mret_eq. unfold mbind at 1. unfold get_state.
    unfold mbind at 1. rewrite (solver_eval_concrete _ _ _ Henv).
    unfold mbind at 1. rewrite BVS_eq, mret_eq. fold st0.
    replace fuel with (length before + (fuel - length before))%nat by lia.
    rewrite walk_other_entries by done.
    destruct (fuel - length before)%nat as [|fuel'] eqn:Ef; [lia|].
    cbn [getenv_walk]. unfold mbind at 1, try_except.
    rewrite (entry_concrete Harch _ _ _ _ _ _ _ Hentry).
    rewrite Hdec, split_eq_0_all by done.
    by rewrite bool_decide_true.
  - cbn [mem]. by replace (ptr + Z.of_nat (length key) + 1 - 1)
      with (ptr + Z.of_nat (length key)) by lia.
Qed.

End GetenvBare.

(** ** Runs on the example machine *)

Lemma snprintf_zero_size_witness :
  libc_snprintf (H := example_host hello_world)
    (BVV 8192 64) (BVV 0 64) (example_state ∅)
  = (example_state ∅, Val (BVV 0 64)).
Proof.
  apply (snprintf_zero_size (H := example_host hello_world)). reflexivity.
Defined.

Lemma gai_strerror_fresh_buffers_witness :
  ∃ st1 st2,
    libc_gai_strerror (H := example_host []) [] (example_state ∅)
      = (st1, Val (BVV 4096 64)) ∧
    libc_gai_strerror (H := example_host []) [] st1
      = (st2, Val (BVV 4352 64)).
Proof.
  pose proof (gai_strerror_fresh_buffers (H := example_host [])
                example_arch_ok [] [] (example_state ∅)) as W.
  cbv zeta in W. destruct W as (st1 & st2 & E1 & E2 & _).
  exists st1, st2. split; [exact E1 | exact E2].
Defined.

Lemma towupper_ascii_witness :
  ∃ r,
    libc_towupper (H := example_host []) (BVV 97 32) (example_state ∅)
      = (example_state ∅, Val r) ∧
    bv_concrete r = Some 65.
Proof.
  destruct (towupper_ascii (H := example_host []) (BVV 97 32) 97
              (example_state ∅)) as (r & E & Hv & _).
  - discriminate.
  - reflexivity.
  - lia.
  - exists r. split; [exact E | exact Hv].
Defined.

Lemma towupper_beyond_ascii_witness :
  libc_towupper (H := example_host []) (BVV 233 32) (example_state ∅)
  = ({| mem := ∅; constraints := []; next_uid := 1; heap_location := 4096;
        posix_environ := BVV 256 64 |},
     Val (sym_cells "towupper_ret" 0 8)).
Proof.
  destruct (towupper_beyond_ascii (H := example_host []) (BVV 233 32)
              (example_state ∅) example_arch_ok) as (E & _).
  - right. exists 233. split; [reflexivity | lia].
  - exact E.
Defined.

Lemma swprintf_fills_buffer_witness :
  ∃ st',
    libc_swprintf (H := example_host []) (BVV 1024 64) (BVV 3 64) []
      (example_state ∅)
      = (st', Val (sym_cells "swprintf_ret" 3 8)) ∧
    read_cells (H := example_host []) (mem st') 1028 4
      = Some (sym_cells "swprintf_1" 1 4) ∧
    read_cells (H := example_host []) (mem st') 1032 4 = Some (BVV 0 32).
Proof.
  destruct (swprintf_fills_buffer (H := example_host []) example_arch_ok
              1024 3 (BVV 3 64) [] (example_state ∅))
    as (st' & E & Hsym & Hnull & _).
  - reflexivity.
  - lia.
  - zcheck.
  - exists st'. split_and!; [exact E | exact (Hsym 1%nat eq_refl) | exact Hnull].
Defined.

Lemma swprintf_zero_writes_below_witness :
  ∃ st',
    libc_swprintf (H := example_host []) (BVV 1024 64) (BVV 0 64) []
      (example_state ∅)
      = (st', Val (sym_cells "swprintf_ret" 0 8)) ∧
    read_cells (H := example_host []) (mem st') 1020 4 = Some (BVV 0 32).
Proof.
  destruct (swprintf_zero_writes_below (H := example_host []) example_arch_ok
              1024 (BVV 0 64) [] (example_state ∅))
    as (st' & E & Hnull & _).
  - reflexivity.
  - exists st'. split; [exact E | exact Hnull].
Defined.

Lemma wcsncpy_copies_through_null_witness :
  ∃ st',
    libc_wcsncpy (H := example_host []) (BVV 1024 64) (BVV 768 64) (BVV 8 64)
      converter_state
      = (st', Val (BVV 1024 64)) ∧
    wide_at (H := example_host []) (mem st') 1024 [72; 105; 0] ∧
    mem st' !! 1036 = None.
Proof.
  destruct (wcsncpy_copies_through_null (H := example_host []) example_arch_ok
              1024 768 [72; 105] (BVV 8 64) 8 converter_state)
    as (st' & E & Hw & Hfr & _).
  - repeat (apply List.Forall_cons; [zcheck|]). apply List.Forall_nil.
  - vm_compute. repeat split; reflexivity.
  - reflexivity.
  - cbn [length]. lia.
  - split; zcheck.
  - exists st'. split_and!; [exact E | exact Hw |].
    rewrite (Hfr 1036); [reflexivity|].
    intros i Hi. cbn [length] in Hi.
    assert (i = 0 ∨ i = 1 ∨ i = 2 ∨ i = 3 ∨ i = 4 ∨ i = 5 ∨ i = 6 ∨ i = 7
            ∨ i = 8 ∨ i = 9 ∨ i = 10 ∨ i = 11) as Hc by lia.
    repeat (destruct Hc as [->|Hc]; [vm_compute; discriminate|]).
    subst i. vm_compute. discriminate.
Defined.

Lemma wcsncpy_stops_at_n_witness :
  ∃ st',
    libc_wcsncpy (H := example_host []) (BVV 1024 64) (BVV 768 64) (BVV 2 64)
      converter_state
      = (st', Val (BVV 1024 64)) ∧
    wide_at (H := example_host []) (mem st') 1024 [72; 105] ∧
    mem st' !! 1032 = None.
Proof.
  destruct (wcsncpy_stops_at_n (H := example_host []) example_arch_ok
              1024 768 [72; 105] (BVV 2 64) converter_state)
    as (st' & E & Hw & Hfr & _).
  - repeat (apply List.Forall_cons; [zcheck|]). apply List.Forall_nil.
  - vm_compute. repeat split; reflexivity.
  - reflexivity.
  - split; zcheck.
  - exists st'. split_and!; [exact E | exact Hw |].
    rewrite (Hfr 1032); [reflexivity|].
    intros i Hi. cbn [length] in Hi.
    assert (i = 0 ∨ i = 1 ∨ i = 2 ∨ i = 3 ∨ i = 4 ∨ i = 5 ∨ i = 6 ∨ i = 7)
      as Hc by lia.
    repeat (destruct Hc as [->|Hc]; [vm_compute; discriminate|]).
    subst i. vm_compute. discriminate.
Defined.

Lemma getline_new_buffer_witness :
  ∃ st',
    libc_getline (H := example_host []) (H0 := example_engine)
      (BVV 256 64) (BVV 264 64) [] getline_state
      = (st', Val (sym_cells "getline_ret" 1 8)) ∧
    load_at (H := example_host []) 256 8 Iend_LE st'
      = (st', Val (BVV 4096 64)) ∧
    mem st' !! 4223 = Some (Conc 0) ∧
    mem st' !! 268 = Some (Conc 7).
Proof.
  destruct (getline_new_buffer (H := example_host []) (H0 := example_engine)
              example_arch_ok 256 264 0 [] getline_state)
    as (st' & E & Hp & Ht & _ & Hfr & _).
  - reflexivity.
  - intros _. reflexivity.
  - split; zcheck.
  - split; zcheck.
  - split; zcheck.
  - exists st'. split_and!; [exact E | exact Hp | exact Ht |].
    rewrite (Hfr 268); [reflexivity| | |].
    + intros i Hi. change (arch_bytes (H := example_host [])) with 8 in Hi.
      assert (i = 0 ∨ i = 1 ∨ i = 2 ∨ i = 3 ∨ i = 4 ∨ i = 5 ∨ i = 6 ∨ i = 7)
        as Hc by lia.
      repeat (destruct Hc as [->|Hc]; [vm_compute; discriminate|]).
      subst i. vm_compute. discriminate.
    + intros i Hi.
      assert (i = 0 ∨ i = 1 ∨ i = 2 ∨ i = 3) as Hc by lia.
      repeat (destruct Hc as [->|Hc]; [vm_compute; discriminate|]).
      subst i. vm_compute. discriminate.
    + vm_compute. discriminate.
Defined.

Lemma getenv_missing_key_witness :
  libc_getenv (H := example_host []) 8 (BVV 512 64) missing_key_state
  = ({| mem := mem missing_key_state;
        constraints := [Eq (TBv (sym_cells "getenv" 0 8)) (TBv (BVV 0 64))];
        next_uid := 1; heap_location := 4096;
        posix_environ := BVV 256 64 |},
     Val (PBv (sym_cells "getenv" 0 8))).
Proof.
  apply (getenv_missing_key (H := example_host []) example_arch_ok
           512 256 [85; 83; 69; 82] [85; 83; 69; 82]
           [(768, [72; 79; 77; 69; 61; 47; 114; 111; 111; 116]);
            (800, [80; 65; 84; 72; 61; 47; 98; 105; 110])]
           8 missing_key_state).
  - vm_compute. split; reflexivity.
  - reflexivity.
  - reflexivity.
  - reflexivity.
  - vm_compute; repeat split; first [reflexivity | discriminate].
  - reflexivity.
  - cbn [length]. lia.
Defined.

Lemma getenv_never_concrete_witness :
  ∃ st' v,
    libc_getenv (H := example_host []) 8 (BVV 512 64) eq_name_state
      = (st', Val v) ∧
    v = PBv (sym_cells "getenv" 0 8).
Proof.
  assert ((61 : Z) ∈ [65; 61; 66]) as Hin
    by (apply elem_of_cons; right; apply elem_of_cons; by left).
  eassert (getenv_setup (H := example_host []) (BVV 512 64) eq_name_state
           = (_, Val (Some [65; 61; 66], _, _))) as Hs
    by (vm_compute; reflexivity).
  eassert (libc_getenv (H := example_host []) 8 (BVV 512 64) eq_name_state
           = (_, Val _)) as Hr
    by (vm_compute; reflexivity).
  destruct (getenv_never_concrete (H := example_host []) example_arch_ok
              _ _ _ _ _ _ _ _ _ Hs
              (or_intror (ex_intro _ [65; 61; 66]
                 (conj eq_refl Hin)))
              Hr) as [Hv _].
  eexists _, _. split; [exact Hr | exact Hv].
Defined.

Lemma converters_count_bounded_witness :
  ∃ st' r,
    libc_mbsrtowcs (H := example_host []) (BVV 1024 64) (BVV 256 64)
      (BVV 16 64) [] converter_state = (st', Val r) ∧
    0 ≤ r ≤ 16.
Proof.
  eassert (libc_mbsrtowcs (H := example_host []) (BVV 1024 64) (BVV 256 64)
             (BVV 16 64) [] converter_state = (_, Val _)) as Hr
    by (vm_compute; reflexivity).
  destruct (converters_count_bounded (H := example_host [])
              (BVV 1024 64) (BVV 256 64) (BVV 16 64) [] 16 converter_state
              eq_refl) as [Hb _].
  eexists _, _. split; [exact Hr | exact (Hb _ _ Hr)].
Defined.

Lemma converters_zero_length_witness :
  libc_mbsrtowcs (H := example_host []) (BVV 1024 64) (BVV 256 64)
    (BVV 0 64) [] converter_state
  = (converter_state, Val 0).
Proof.
  apply (converters_zero_length (H := example_host []) example_arch_ok
           (BVV 1024 64) (BVV 0 64) [] 256 512 0 converter_state).
  - reflexivity.
  - reflexivity.
  - lia.
Defined.

Lemma mbsrtowcs_stops_at_bound_witness :
  ∃ st',
    libc_mbsrtowcs (H := example_host []) (BVV 1024 64) (BVV 256 64)
      (BVV 2 64) [] converter_state = (st', Val 2) ∧
    load_at (H := example_host []) 256 8 Iend_LE st'
      = (st', Val (BVV 514 64)) ∧
    mem st' !! 1032 = None.
Proof.
  destruct (mbsrtowcs_stops_at_bound (H := example_host []) example_arch_ok
              [72; 105] 1024 256 512 (BVV 2 64) [] 2 converter_state)
    as (st' & E & Hp & _ & Hfr).
  - repeat (apply List.Forall_cons; [zcheck|]). apply List.Forall_nil.
  - reflexivity.
  - reflexivity.
  - reflexivity.
  - reflexivity.
  - vm_compute. discriminate.
  - split; zcheck.
  - split; zcheck.
  - exists st'. split_and!; [exact E | exact Hp |].
    rewrite (Hfr 1032); [reflexivity| |].
    + intros i Hi. cbn [length] in Hi.
      assert (i = 0 ∨ i = 1 ∨ i = 2 ∨ i = 3 ∨ i = 4 ∨ i = 5 ∨ i = 6 ∨ i = 7)
        as Hc by lia.
      repeat (destruct Hc as [->|Hc]; [vm_compute; discriminate|]).
      subst i. vm_compute. discriminate.
    + intros i Hi. change (arch_bytes (H := example_host [])) with 8 in Hi.
      assert (i = 0 ∨ i = 1 ∨ i = 2 ∨ i = 3 ∨ i = 4 ∨ i = 5 ∨ i = 6 ∨ i = 7)
        as Hc by lia.
      repeat (destruct Hc as [->|Hc]; [vm_compute; discriminate|]).
      subst i. vm_compute. discriminate.
Defined.

Lemma mempcpy_returns_end_witness :
  ∃ st1,
    libc_mempcpy (H0 := example_engine)
      (BVV 1024 64) (BVV 512 64) (BVV 2 64) converter_state
    = (st1, Val (BVV 1026 64)) ∧
    mem st1 !! 1025 = Some (Conc 105).
Proof.
  pose proof (λ r st1,
    proj1 (mempcpy_returns_end (H := example_host []) (H0 := example_engine)
             example_arch_ok 1024 2 (BVV 512 64) r converter_state st1)) as W.
  eexists. split.
  - eapply W. vm_compute. reflexivity.
  - reflexivity.
Defined.

Lemma realpath_symbolic_unterminated_witness :
  ∃ st',
    libc_realpath (H := example_host []) (H0 := example_engine)
      (BVV 768 64) (BVV 0 64) sym_entry_state
    = (st', Val (BVV 4096 64)) ∧
    mem st' !! 8191 = Some (Sym "realpath" 1 0).
Proof.
  edestruct (realpath_symbolic_unterminated (H := example_host [])
               (H0 := example_engine) example_arch_ok 768 0 8
               (Sym "env" 0 0 :: (Conc <$> [61; 49; 0; 0; 0; 0; 0]))
               sym_entry_state)
    as (st' & E & _ & Hlast & _).
  - vm_compute. reflexivity.
  - reflexivity.
  - vm_compute. reflexivity.
  - reflexivity.
  - exists st'. split; [exact E | exact Hlast].
Defined.

Lemma realpath_stores_normalised_witness :
  ∃ st',
    libc_realpath (H := example_host []) (H0 := example_engine)
      (BVV 544 64) (BVV 0 64) text_state
    = (st', Val (BVV 4096 64)) ∧
    terminated_at (H := example_host []) st' 4096
      (Conc <$> [47; 120; 47; 121]).
Proof.
  edestruct (realpath_stores_normalised (H := example_host [])
               (H0 := example_engine) example_arch_ok 544 0 8
               [46; 46; 47; 120; 47; 46; 47; 121]
               [47; 104; 111; 109; 101]
               [46; 46; 47; 120; 47; 46; 47; 121]
               [47; 120; 47; 121] text_state)
    as (st' & E & Ht & _).
  - vm_compute. reflexivity.
  - reflexivity.
  - reflexivity.
  - reflexivity.
  - reflexivity.
  - vm_compute. reflexivity.
  - zcheck.
  - exists st'. split; [exact E | exact Ht].
Defined.

Lemma realpath_ascii_fits_witness :
  ∃ st',
    libc_realpath (H := example_host []) (H0 := example_engine)
      (BVV 544 64) (BVV 8192 64) text_state
    = (st', Val (BVV 8192 64)) ∧
    terminated_at (H := example_host []) st' 8192
      (Conc <$> [47; 120; 47; 121]).
Proof.
  edestruct (realpath_ascii_fits (H := example_host [])
               (H0 := example_engine) example_arch_ok 544 8192 8
               [46; 46; 47; 120; 47; 46; 47; 121] text_state)
    as (st' & E & Ht & _).
  - vm_compute. reflexivity.
  - reflexivity.
  - reflexivity.
  - repeat (apply List.Forall_cons; [split; zcheck|]). apply List.Forall_nil.
  - repeat (apply List.Forall_cons; [split; zcheck|]). apply List.Forall_nil.
  - exists st'. split; [exact E | exact Ht].
Defined.

Lemma realpath_absolute_canonical_witness :
  ∃ comps,
    Forall proper_component comps ∧
    posix_normpath (posix_join [47; 104; 111; 109; 101]
                               [46; 46; 47; 120; 47; 46; 47; 121])
    = 47 :: join_sep comps.
Proof.
  destruct (realpath_absolute_canonical [47; 104; 111; 109; 101]
              [46; 46; 47; 120; 47; 46; 47; 121] eq_refl)
    as (comps & Hc & [E|E]).
  - exists comps. split; [exact Hc | exact E].
  - vm_compute in E. discriminate E.
Defined.

Lemma atol_decimal_exact_witness :
  libc_atol (H := example_host []) (H0 := example_engine) (BVV 512 64)
    text_state
  = (text_state, Val (PInt (-42))).
Proof.
  eapply (atol_decimal_exact (H := example_host []) (H0 := example_engine)
            example_arch_ok 512 [45] [52; 50] text_state).
  - right. right. reflexivity.
  - discriminate.
  - repeat (apply List.Forall_cons; [split; zcheck|]). apply List.Forall_nil.
  - vm_compute. reflexivity.
  - reflexivity.
Defined.

Lemma atol_trailing_text_raises_witness :
  libc_atol (H := example_host []) (H0 := example_engine) (BVV 528 64)
    text_state
  = (text_state, Raise (OtherError "ValueError")).
Proof.
  eapply (atol_trailing_text_raises (H := example_host [])
            (H0 := example_engine) example_arch_ok 528 [] [49; 50] [98; 99]
            97 text_state).
  - left. reflexivity.
  - discriminate.
  - repeat (apply List.Forall_cons; [split; zcheck|]). apply List.Forall_nil.
  - repeat (apply List.Forall_cons; [split; zcheck|]). apply List.Forall_nil.
  - lia.
  - lia.
  - reflexivity.
  - vm_compute. reflexivity.
  - reflexivity.
Defined.

Lemma stubs_answer_fresh_symbols_witness :
  libc_sysconf (H := example_host []) (BVV 30 64) (example_state ∅)
  = ({| mem := ∅; constraints := []; next_uid := 1; heap_location := 4096;
        posix_environ := BVV 256 64 |},
     Val (sym_cells "sysconf_ret" 0 8)).
Proof.
  pose proof (stubs_answer_fresh_symbols (H := example_host [])
                example_arch_ok (BVV 30 64) [] [] [] (example_state ∅)) as W.
  cbv zeta in W. destruct W as (_ & _ & W & _). exact W.
Defined.

Lemma getenv_entry_without_equals_witness :
  libc_getenv (H := example_host []) 8 (BVV 512 64) bare_entry_state
    = ({| mem := mem bare_entry_state; constraints := [];
          next_uid := 1; heap_location := 4096;
          posix_environ := BVV 256 64 |}, Val (PInt 773)) ∧
  mem bare_entry_state !! 772 = Some (Conc 0).
Proof.
  apply (getenv_entry_without_equals (H := example_host []) example_arch_ok
           512 256 768 [80; 65; 84; 72] [] 8 bare_entry_state).
  - repeat (apply List.Forall_cons; [split; zcheck|]). apply List.Forall_nil.
  - vm_compute. split; reflexivity.
  - reflexivity.
  - reflexivity.
  - exact I.
  - vm_compute; repeat split; first [reflexivity | discriminate].
  - reflexivity.
  - cbn [length]. lia.
Defined.
